(** * Verification of the slim2diretta audio engine: protocol framing,
      HTTP ingestion, PCM and DSD stream handling.

    Shallow embedding of the C++ sources.  Conventions:
    - a byte is a [Z] in 0..255, a byte buffer ([std::vector<uint8_t>],
      a C array) is a [list Z];
    - [size_t], [uint32_t] and [uint64_t] values are [Z]; where the source
      wraps around, the wrap is written out with [Z.land] / [mod];
    - a method of a C++ class is a function from the object's fields (a
      record) to the new fields and its result. *)

From Stdlib Require Import ZArith Lia List String Ascii Bool.
From stdpp Require Import base list.
Import ListNotations.

Open Scope Z_scope.
Set Warnings "-abstract-large-number".

(* ================================================================== *)
(** ** Byte helpers *)

(** Byte [i] of a buffer ([p[i]]); reads past the end yield 0 (the
    sources always check the size first). *)
Definition at_ (p : list Z) (i : Z) : Z := nth (Z.to_nat i) p 0.

(** [len] bytes starting at [off]. *)
Definition sub (off len : nat) (p : list Z) : list Z := firstn len (skipn off p).

(** [htons] / [htonl]: the network (big-endian) bytes of a 16/32-bit value. *)
Definition be16 (v : Z) : list Z :=
  [Z.land (Z.shiftr v 8) 255; Z.land v 255].
Definition be32 (v : Z) : list Z :=
  [Z.land (Z.shiftr v 24) 255; Z.land (Z.shiftr v 16) 255;
   Z.land (Z.shiftr v 8) 255; Z.land v 255].

(** [ntohs] / [ntohl] applied to bytes read from a buffer. *)
Definition rd_be16 (p : list Z) (off : Z) : Z :=
  Z.lor (Z.shiftl (at_ p off) 8) (at_ p (off + 1)).
Definition rd_be32 (p : list Z) (off : Z) : Z :=
  Z.lor (Z.shiftl (at_ p off) 24)
    (Z.lor (Z.shiftl (at_ p (off + 1)) 16)
       (Z.lor (Z.shiftl (at_ p (off + 2)) 8) (at_ p (off + 3)))).
Definition rd_be64 (p : list Z) (off : Z) : Z :=
  Z.lor (Z.shiftl (rd_be32 p off) 32) (rd_be32 p (off + 4)).

(** Little-endian reads ([readLE16], [readLE32], [readLE64]). *)
Definition rd_le16 (p : list Z) (off : Z) : Z :=
  Z.lor (at_ p off) (Z.shiftl (at_ p (off + 1)) 8).
Definition rd_le32 (p : list Z) (off : Z) : Z :=
  Z.lor (at_ p off)
    (Z.lor (Z.shiftl (at_ p (off + 1)) 8)
       (Z.lor (Z.shiftl (at_ p (off + 2)) 16) (Z.shiftl (at_ p (off + 3)) 24))).
Definition rd_le64 (p : list Z) (off : Z) : Z :=
  Z.lor (rd_le32 p off) (Z.shiftl (rd_le32 p (off + 4)) 32).

(** The bytes of a C string literal (without its terminating NUL). *)
Definition bytes_of_string (s : string) : list Z :=
  map (fun c => Z.of_nat (nat_of_ascii c)) (list_ascii_of_string s).

(** [std::memcmp(p + off, s, 4) == 0] *)
Definition magic_at (p : list Z) (off : nat) (s : string) : bool :=
  bool_decide (sub off 4 p = bytes_of_string s).

(* ================================================================== *)
(** ** Slimproto messages and client (SlimprotoMessages.h,
       SlimprotoClient.cpp) *)

Module Slimproto.

(** strm sub-commands and a few character codes, as byte values. *)
Definition STRM_START : Z := 115.    (* 's' *)
Definition STRM_STOP : Z := 113.     (* 'q' *)
Definition STRM_PAUSE : Z := 112.    (* 'p' *)
Definition STRM_UNPAUSE : Z := 117.  (* 'u' *)
Definition STRM_FLUSH : Z := 102.    (* 'f' *)
Definition STRM_STATUS : Z := 116.   (* 't' *)
Definition STRM_SKIP : Z := 97.      (* 'a' *)

(** [StrmCommand]: the packed 24-byte header.  Multi-byte fields keep the
    network-order bytes that [memcpy] put there; the accessors decode
    them as [ntohl]/[ntohs] do. *)
Record StrmCommand := {
  command : Z;
  autostart : Z;
  format : Z;
  pcmSampleSize : Z;
  pcmSampleRate : Z;
  pcmChannels : Z;
  pcmEndian : Z;
  threshold : Z;
  spdifEnable : Z;
  transPeriod : Z;
  transType : Z;
  flags : Z;
  outputThreshold : Z;
  reserved : Z;
  replayGainOrInterval : list Z;  (* offsets 14..17 *)
  serverPort : list Z;            (* offsets 18..19 *)
  serverIp : list Z               (* offsets 20..23 *)
}.

Definition sizeof_StrmCommand : nat := 24.

(** [std::memcpy(&cmd, data, sizeof(StrmCommand))] *)
Definition strm_of_bytes (d : list Z) : StrmCommand := {|
  command := at_ d 0; autostart := at_ d 1; format := at_ d 2;
  pcmSampleSize := at_ d 3; pcmSampleRate := at_ d 4;
  pcmChannels := at_ d 5; pcmEndian := at_ d 6; threshold := at_ d 7;
  spdifEnable := at_ d 8; transPeriod := at_ d 9; transType := at_ d 10;
  flags := at_ d 11; outputThreshold := at_ d 12; reserved := at_ d 13;
  replayGainOrInterval := sub 14 4 d;
  serverPort := sub 18 2 d;
  serverIp := sub 20 4 d |}.

Definition getReplayGain (c : StrmCommand) : Z := rd_be32 (replayGainOrInterval c) 0.
Definition getServerPort (c : StrmCommand) : Z := rd_be16 (serverPort c) 0.
Definition getServerIp (c : StrmCommand) : Z := rd_be32 (serverIp c) 0.

(** [sampleRateFromCode] *)
Definition sampleRateFromCode (code : Z) : Z :=
  if code =? 48 then 11025        (* '0' *)
  else if code =? 49 then 22050   (* '1' *)
  else if code =? 50 then 32000   (* '2' *)
  else if code =? 51 then 44100   (* '3' *)
  else if code =? 52 then 48000   (* '4' *)
  else if code =? 53 then 8000    (* '5' *)
  else if code =? 54 then 12000   (* '6' *)
  else if code =? 55 then 16000   (* '7' *)
  else if code =? 56 then 24000   (* '8' *)
  else if code =? 57 then 96000   (* '9' *)
  else 0.

(** [sampleSizeFromCode] *)
Definition sampleSizeFromCode (code : Z) : Z :=
  if code =? 48 then 8
  else if code =? 49 then 16
  else if code =? 50 then 20
  else if code =? 51 then 24
  else if code =? 52 then 32
  else 0.

(** A STAT event code: [char eventCode[4]]. *)
Record EventCode := { ec0 : Z; ec1 : Z; ec2 : Z; ec3 : Z }.

Definition ec_bytes (e : EventCode) : list Z := [ec0 e; ec1 e; ec2 e; ec3 e].

Definition STMt : EventCode := {| ec0 := 83; ec1 := 84; ec2 := 77; ec3 := 116 |}.

(** [StatPayload]: the packed struct, field by field, as [sendStat]
    fills it (multi-byte fields already converted with [htonl]/[htons]). *)
Record StatPayload := {
  eventCode : EventCode;
  crlf : Z; masInit : Z; masMode : Z;
  streamBufSize : Z; streamBufFull : Z;
  bytesRecvHi : Z; bytesRecvLo : Z;
  signalStrength : Z;
  jiffies : Z;
  outputBufSize : Z; outputBufFull : Z;
  elapsedSeconds : Z;
  voltage : Z;
  elapsedMs : Z;
  serverTimestamp : Z;
  errorCode : Z
}.

(** The memory image of the packed struct ([&stat, sizeof(stat)]). *)
Definition stat_bytes (s : StatPayload) : list Z :=
  ec_bytes (eventCode s) ++ [crlf s; masInit s; masMode s] ++
  be32 (streamBufSize s) ++ be32 (streamBufFull s) ++
  be32 (bytesRecvHi s) ++ be32 (bytesRecvLo s) ++
  be16 (signalStrength s) ++ be32 (jiffies s) ++
  be32 (outputBufSize s) ++ be32 (outputBufFull s) ++
  be32 (elapsedSeconds s) ++ be16 (voltage s) ++
  be32 (elapsedMs s) ++ be32 (serverTimestamp s) ++ be16 (errorCode s).

(** The client's fields read by [sendStat] and [handleStrm]. *)
Record Client := {
  c_streamBufSize : Z; c_streamBufFull : Z;
  c_bytesReceived : Z;
  c_outputBufSize : Z; c_outputBufFull : Z;
  c_elapsedSeconds : Z; c_elapsedMs : Z;
  c_serverTimestamp : Z;
  c_jiffies : Z;             (* value [getJiffies()] returns now *)
  c_hasStreamCb : bool;      (* [m_streamCb] is set *)
  c_hasVolumeCb : bool;      (* [m_volumeCb] is set *)
  c_playerName : list Z
}.

Definition set_serverTimestamp (ts : Z) (c : Client) : Client := {|
  c_streamBufSize := c_streamBufSize c; c_streamBufFull := c_streamBufFull c;
  c_bytesReceived := c_bytesReceived c;
  c_outputBufSize := c_outputBufSize c; c_outputBufFull := c_outputBufFull c;
  c_elapsedSeconds := c_elapsedSeconds c; c_elapsedMs := c_elapsedMs c;
  c_serverTimestamp := ts; c_jiffies := c_jiffies c;
  c_hasStreamCb := c_hasStreamCb c; c_hasVolumeCb := c_hasVolumeCb c;
  c_playerName := c_playerName c |}.

(** Observable effects of the client: a frame written to the control
    socket, or a user callback invocation. *)
Inductive effect :=
  | Sent (frame : list Z)
  | StreamCallback (cmd : StrmCommand) (httpRequest : list Z)
  | VolumeCallback (gainL gainR : Z).

(** [sendMessage]: [4 opcode][4 length BE][payload]. *)
Definition sendMessage (opcode : string) (payload : list Z) : effect :=
  Sent (bytes_of_string opcode ++ be32 (Z.of_nat (length payload)) ++ payload).

(** The payload [sendStat] assembles. *)
Definition stat_payload (c : Client) (code : EventCode) (ts : Z) : StatPayload := {|
  eventCode := code;
  crlf := 0; masInit := 0; masMode := 0;
  streamBufSize := c_streamBufSize c; streamBufFull := c_streamBufFull c;
  bytesRecvHi := Z.land (Z.shiftr (c_bytesReceived c) 32) (Z.ones 32);
  bytesRecvLo := Z.land (c_bytesReceived c) 4294967295;
  signalStrength := 65535;
  jiffies := c_jiffies c;
  outputBufSize := c_outputBufSize c; outputBufFull := c_outputBufFull c;
  elapsedSeconds := c_elapsedSeconds c;
  voltage := 0;
  elapsedMs := c_elapsedMs c;
  serverTimestamp := ts;
  errorCode := 0 |}.

(** [SlimprotoClient::sendStat] *)
Definition sendStat (c : Client) (code : EventCode) (ts : Z) : effect :=
  sendMessage "STAT" (stat_bytes (stat_payload c code ts)).

(** [SlimprotoClient::handleStrm] *)
Definition handleStrm (c : Client) (data : list Z) : Client * list effect :=
  if (length data <? sizeof_StrmCommand)%nat then (c, [])
  else
    let cmd := strm_of_bytes data in
    let httpRequest :=
      if (sizeof_StrmCommand <? length data)%nat
      then skipn sizeof_StrmCommand data else [] in
    let invoke := (c, if c_hasStreamCb c then [StreamCallback cmd httpRequest] else []) in
    let k := command cmd in
    if (k =? STRM_START) || (k =? STRM_STOP) || (k =? STRM_PAUSE)
       || (k =? STRM_UNPAUSE) || (k =? STRM_FLUSH) || (k =? STRM_SKIP)
    then invoke
    else if k =? STRM_STATUS then
      let ts := getReplayGain cmd in
      let c' := set_serverTimestamp ts c in
      (c', [sendStat c' STMt ts])
    else (c, []).

(** [SlimprotoClient::handleAudg] *)
Definition handleAudg (c : Client) (data : list Z) : Client * list effect :=
  if (length data <? 18)%nat then (c, [])
  else (c, if c_hasVolumeCb c then [VolumeCallback (rd_be32 data 10) (rd_be32 data 14)] else []).

(** [SlimprotoClient::handleSetd] *)
Definition handleSetd (c : Client) (data : list Z) : Client * list effect :=
  match data with
  | [0] => (c, [sendMessage "SETD" (0 :: c_playerName c)])
  | _ => (c, [])
  end.

(** [SlimprotoClient::processServerMessage] *)
Definition processServerMessage (c : Client) (opcode : list Z) (data : list Z)
    : Client * list effect :=
  if bool_decide (opcode = bytes_of_string "strm") then handleStrm c data
  else if bool_decide (opcode = bytes_of_string "audg") then handleAudg c data
  else if bool_decide (opcode = bytes_of_string "setd") then handleSetd c data
  else (c, []).

(** Channel count from the strm channel code, as the audio thread
    computes it for the raw PCM hint (main.cpp). *)
Definition channelsFromCode (code : Z) : Z :=
  if code =? 50 then 2 else if code =? 49 then 1 else 0.

(** A client with all counters at zero and both callbacks registered. *)
Definition client0 : Client := {|
  c_streamBufSize := 0; c_streamBufFull := 0; c_bytesReceived := 0;
  c_outputBufSize := 0; c_outputBufFull := 0;
  c_elapsedSeconds := 0; c_elapsedMs := 0; c_serverTimestamp := 0;
  c_jiffies := 0; c_hasStreamCb := true; c_hasVolumeCb := true;
  c_playerName := bytes_of_string "slim2diretta" |}.

(** The fixed 24-byte head of the strm-s example of the specification:
    73 31 66 33 33 32 30 20 20 20, ten zero bytes, 23 28 00 00. *)
Definition strm_s_example : list Z :=
  [115; 49; 102; 51; 51; 50; 48; 32; 32; 32] ++ repeat 0 10 ++ [35; 40; 0; 0].

(** A heartbeat strm-t carrying the server timestamp 0xDEADBEEF. *)
Definition strm_t_example : list Z :=
  [116; 48; 109; 63; 63; 63; 63; 0; 48; 0; 48; 0; 0; 0;
   222; 173; 190; 239; 0; 0; 0; 0; 0; 0].

End Slimproto.

(* ================================================================== *)
(** ** HTTP stream client (HttpStreamClient.cpp) *)

Module Http.

(** The operating system's socket is the environment.  [sock] holds the
    bytes the peer has yet to deliver; each [recv] call consumes one
    outcome from [evs]: a chunk of at most [S k] bytes, an [EINTR], or a
    hard error.  A hard error breaks the connection for good ([dead]),
    and when [evs] runs out the connection is treated as broken. *)
Inductive recv_ev := Chunk (k : nat) | Intr | Fail.

(** Outcome of [poll()] in [readWithTimeout]. *)
Inductive poll_ev := PReady | PTimeout | PIntr | PError | PHangup.

(** What one [recv] call returns: [n > 0] bytes, [0], or [-1] with
    [errno == EINTR] or another [errno]. *)
Inductive RecvRes := RBytes (bs : list Z) | RZero | RErr (eintr : bool).

(** The fields of [HttpStreamClient] plus the socket environment. *)
Record Http := {
  sock : list Z; evs : list recv_ev; dead : bool;
  sockOpen : bool;               (* [m_socket >= 0] *)
  connected : bool;              (* [m_connected] *)
  responseHeaders : list Z;
  httpStatus : Z;
  bytesReceived : Z;
  icyMetaInt : Z;
  icyBytesUntilMeta : Z
}.

Definition with_sock (s : list Z) (es : list recv_ev) (d : bool) (h : Http) : Http := {|
  sock := s; evs := es; dead := d; sockOpen := sockOpen h;
  connected := connected h; responseHeaders := responseHeaders h;
  httpStatus := httpStatus h; bytesReceived := bytesReceived h;
  icyMetaInt := icyMetaInt h; icyBytesUntilMeta := icyBytesUntilMeta h |}.

Definition set_connected (b : bool) (h : Http) : Http := {|
  sock := sock h; evs := evs h; dead := dead h; sockOpen := sockOpen h;
  connected := b; responseHeaders := responseHeaders h;
  httpStatus := httpStatus h; bytesReceived := bytesReceived h;
  icyMetaInt := icyMetaInt h; icyBytesUntilMeta := icyBytesUntilMeta h |}.

Definition set_counters (recvd until : Z) (h : Http) : Http := {|
  sock := sock h; evs := evs h; dead := dead h; sockOpen := sockOpen h;
  connected := connected h; responseHeaders := responseHeaders h;
  httpStatus := httpStatus h; bytesReceived := recvd;
  icyMetaInt := icyMetaInt h; icyBytesUntilMeta := until |}.

Definition set_header_state (open : bool) (hdrs : list Z) (status metaInt until : Z)
    (h : Http) : Http := {|
  sock := sock h; evs := evs h; dead := dead h; sockOpen := open;
  connected := connected h; responseHeaders := hdrs;
  httpStatus := status; bytesReceived := bytesReceived h;
  icyMetaInt := metaInt; icyBytesUntilMeta := until |}.

(** [recv(m_socket, buf, n, 0)] *)
Definition recv (h : Http) (n : Z) : RecvRes * Http :=
  match evs h with
  | [] => (RErr false, with_sock (sock h) [] true h)
  | e :: es =>
      if dead h then (RErr false, with_sock (sock h) es true h) else
      match e with
      | Intr => (RErr true, with_sock (sock h) es false h)
      | Fail => (RErr false, with_sock (sock h) es true h)
      | Chunk k =>
          match sock h with
          | [] => (RZero, with_sock [] es false h)
          | _ =>
              if n <=? 0 then (RZero, with_sock (sock h) es false h) else
              let m := Nat.min (S k) (Nat.min (Z.to_nat n) (length (sock h))) in
              (RBytes (firstn m (sock h)), with_sock (skipn m (sock h)) es false h)
          end
      end
  end.

(** [HttpStreamClient::readRaw]: the returned count and the bytes written. *)
Definition readRaw (h : Http) (maxLen : Z) : Z * list Z * Http :=
  if negb (sockOpen h) then (-1, [], h) else
  match recv h maxLen with
  | (RBytes bs, h') => (Z.of_nat (length bs), bs, h')
  | (RZero, h') => (0, [], set_connected false h')
  | (RErr true, h') => (0, [], h')
  | (RErr false, h') => (-1, [], set_connected false h')
  end.

(** First loop of [skipIcyMetadata]: read the length byte, retrying on
    [EINTR].  [None] is the failure return (connection marked lost). *)
Fixpoint skip_len_loop (fuel : nat) (h : Http) : option Z * Http :=
  match fuel with
  | O => (None, set_connected false h)
  | S f =>
      match recv h 1 with
      | (RBytes (b :: _), h') => (Some b, h')
      | (RErr true, h') => skip_len_loop f h'
      | (_, h') => (None, set_connected false h')
      end
  end.

(** Second loop of [skipIcyMetadata]: read and discard [remaining] bytes
    in pieces of at most 256. *)
Fixpoint discard_loop (fuel : nat) (remaining : Z) (h : Http) : bool * Http :=
  match fuel with
  | O => (false, set_connected false h)
  | S f =>
      if remaining <=? 0 then (true, h) else
      match recv h (Z.min remaining 256) with
      | (RBytes bs, h') => discard_loop f (remaining - Z.of_nat (length bs)) h'
      | (RErr true, h') => discard_loop f remaining h'
      | (_, h') => (false, set_connected false h')
      end
  end.

(** [HttpStreamClient::skipIcyMetadata] *)
Definition skipIcyMetadata (h : Http) : bool * Http :=
  match skip_len_loop (S (length (evs h))) h with
  | (None, h') => (false, h')
  | (Some lenByte, h') =>
      let metaLen := lenByte * 16 in
      if metaLen =? 0 then (true, h')
      else discard_loop (S (length (evs h'))) metaLen h'
  end.

(** [uint64_t] wrap-around ([m_bytesReceived += n]). *)
Definition u64 (x : Z) : Z := x mod 2 ^ 64.

(** [HttpStreamClient::read] *)
Definition read (h : Http) (maxLen : Z) : Z * list Z * Http :=
  if negb (sockOpen h) then (-1, [], h) else
  if icyMetaInt h =? 0 then
    let '(n, bs, h') := readRaw h maxLen in
    (n, bs, if 0 <? n then set_counters (u64 (bytesReceived h' + n)) (icyBytesUntilMeta h') h' else h')
  else
    let canRead := Z.min maxLen (icyBytesUntilMeta h) in
    let '(ok, h1, canRead) :=
      if canRead =? 0 then
        let '(ok, h1) := skipIcyMetadata h in
        if ok then
          let h1 := set_counters (bytesReceived h1) (icyMetaInt h1) h1 in
          (true, h1, Z.min maxLen (icyBytesUntilMeta h1))
        else (false, h1, canRead)
      else (true, h, canRead) in
    if negb ok then (-1, [], h1) else
    let '(n, bs, h2) := readRaw h1 canRead in
    (n, bs, if 0 <? n
            then set_counters (u64 (bytesReceived h2 + n)) (icyBytesUntilMeta h2 - n) h2
            else h2).

(** [HttpStreamClient::readWithTimeout]: [poll] then [read]. *)
Definition readWithTimeout (h : Http) (p : poll_ev) (maxLen : Z) : Z * list Z * Http :=
  if negb (sockOpen h) then (-1, [], h) else
  match p with
  | PReady => read h maxLen
  | PTimeout | PIntr => (0, [], h)
  | PError | PHangup => (-1, [], set_connected false h)
  end.

(** A caller's read request: [read(buf, maxLen)] or
    [readWithTimeout(buf, maxLen, 2)] with the given poll outcome. *)
Inductive ReadOp := OpRead (maxLen : Z) | OpReadTimeout (p : poll_ev) (maxLen : Z).

Definition op_maxLen (o : ReadOp) : Z :=
  match o with OpRead m => m | OpReadTimeout _ m => m end.

Definition do_read (h : Http) (o : ReadOp) : Z * list Z * Http :=
  match o with
  | OpRead m => read h m
  | OpReadTimeout p m => readWithTimeout h p m
  end.

(** The bytes handed to the caller over a sequence of read requests. *)
Fixpoint run_reads (h : Http) (ops : list ReadOp) : list Z * Http :=
  match ops with
  | [] => ([], h)
  | o :: os =>
      let '(_, bs, h') := do_read h o in
      let '(rest, h'') := run_reads h' os in
      (bs ++ rest, h'')
  end.

(** The audio bytes of an ICY stream with interval [M]: [until] audio
    bytes, then a length byte [L] and [L * 16] metadata bytes, then [M]
    audio bytes, and so on.  (Reference definition of the property.) *)
Fixpoint icy_audio (M : Z) (fuel : nat) (until : Z) (raw : list Z) : list Z :=
  match fuel with
  | O => []
  | S f =>
      match raw with
      | [] => []
      | b :: r =>
          if 0 <? until then b :: icy_audio M f (until - 1) r
          else icy_audio M f M (skipn (Z.to_nat (b * 16)) r)
      end
  end.

Definition icy_strip (M until : Z) (raw : list Z) : list Z :=
  icy_audio M (length raw) until raw.

(* ------------------------------------------------------------------ *)
(** Response headers *)

Definition is_space (c : Z) : bool := (c =? 32) || ((9 <=? c) && (c <=? 13)).
Definition is_digit (c : Z) : bool := (48 <=? c) && (c <=? 57).

Fixpoint atoi_digits (acc : Z) (s : list Z) : Z :=
  match s with
  | c :: r => if is_digit c then atoi_digits (acc * 10 + (c - 48)) r else acc
  | [] => acc
  end.

(** [std::atoi]: leading white space, an optional sign, decimal digits. *)
Fixpoint atoi (s : list Z) : Z :=
  match s with
  | c :: r =>
      if is_space c then atoi r
      else if c =? 45 then - atoi_digits 0 r
      else if c =? 43 then atoi_digits 0 r
      else atoi_digits 0 s
  | [] => 0
  end.

(** [std::tolower] on a byte. *)
Definition tolower (c : Z) : Z := if (65 <=? c) && (c <=? 90) then c + 32 else c.

(** [std::string::find]: first position of [needle] in [hay]. *)
Fixpoint find_from (needle hay : list Z) (pos : nat) : option nat :=
  match hay with
  | [] => if bool_decide (needle = []) then Some pos else None
  | _ :: r =>
      if bool_decide (firstn (length needle) hay = needle) then Some pos
      else find_from needle r (S pos)
  end.
Definition find (needle hay : list Z) : option nat := find_from needle hay 0.

Fixpoint drop_spaces (s : list Z) : list Z :=
  match s with 32 :: r => drop_spaces r | _ => s end.

(** One step of the [endSeq] tracking of [parseResponseHeaders], and its
    value after a sequence of bytes. *)
Definition endSeq_step (endSeq c : Z) : Z :=
  if (c =? 13) && ((endSeq =? 0) || (endSeq =? 2)) then endSeq + 1
  else if (c =? 10) && ((endSeq =? 1) || (endSeq =? 3)) then endSeq + 1
  else 0.

Definition endSeq_after (bs : list Z) : Z := fold_left endSeq_step bs 0.

(** The header-reading loop of [parseResponseHeaders]: one byte per
    [recv], tracking the [\r\n\r\n] sequence in [endSeq] and failing
    once more than 16384 bytes have been accumulated.  The buffer is
    kept reversed, with its size alongside. *)
Fixpoint header_loop (fuel : nat) (revBuf : list Z) (size endSeq : Z) (h : Http)
    : option (list Z) * Http :=
  match fuel with
  | O => (None, h)
  | S f =>
      match recv h 1 with
      | (RBytes (c :: _), h') =>
          let revBuf := c :: revBuf in
          let size := size + 1 in
          let endSeq := endSeq_step endSeq c in
          if endSeq =? 4 then (Some (rev revBuf), h')
          else if 16384 <? size then (None, h')
          else header_loop f revBuf size endSeq h'
      | (RErr true, h') => header_loop f revBuf size endSeq h'
      | (_, h') => (None, h')
      end
  end.

(** Status code of the first line. *)
Definition parse_status (hdr : list Z) (old : Z) : Z :=
  match find [32] hdr with
  | Some sp => if (sp + 3 <? length hdr)%nat then atoi (skipn (S sp) hdr) else old
  | None => old
  end.

(** The [icy-metaint:] value ([None] when absent). *)
Definition parse_metaint (hdr : list Z) : option Z :=
  match find (bytes_of_string "icy-metaint:") (map tolower hdr) with
  | Some pos =>
      let valStart := (length hdr - length (drop_spaces (skipn (pos + 12) hdr)))%nat in
      Some (atoi (skipn valStart hdr) mod 2 ^ 32)
  | None => None
  end.

(** [HttpStreamClient::parseResponseHeaders] *)
Definition parseResponseHeaders (h : Http) : bool * Http :=
  match header_loop (S (length (evs h))) [] 0 0 h with
  | (None, h') => (false, h')
  | (Some hdr, h') =>
      let status := parse_status hdr (httpStatus h') in
      let '(mi, until) :=
        match parse_metaint hdr with
        | Some m => if 0 <? m then (m, m) else (icyMetaInt h', icyBytesUntilMeta h')
        | None => (icyMetaInt h', icyBytesUntilMeta h')
        end in
      (true, set_header_state (sockOpen h') hdr status mi until h')
  end.

(** [HttpStreamClient::connect] after the TCP connection is established
    and the request sent: [disconnect()] clears [m_connected], the
    per-stream fields are reset, the response headers are parsed, and the
    socket is closed on failure. *)
Definition connect (h : Http) : bool * Http :=
  let h0 := set_header_state true [] 0 0 0 (set_counters 0 0 (set_connected false h)) in
  match parseResponseHeaders h0 with
  | (false, h1) => (false, set_header_state false (responseHeaders h1) (httpStatus h1)
                             (icyMetaInt h1) (icyBytesUntilMeta h1) h1)
  | (true, h1) => (true, set_connected true h1)
  end.

(** A fresh client whose peer will send [stream], one byte per [recv]
    for [n] calls. *)
Definition client_on (stream : list Z) (n : nat) : Http := {|
  sock := stream; evs := repeat (Chunk 0) n; dead := false; sockOpen := false;
  connected := false; responseHeaders := []; httpStatus := 0;
  bytesReceived := 0; icyMetaInt := 0; icyBytesUntilMeta := 0 |}.

(** A response of 16385 bytes whose header terminator occupies bytes
    16382..16385: "HTTP/1.0 200 OK" padded with 'a' bytes, then CR LF
    CR LF. *)
Definition big_header : list Z :=
  bytes_of_string "HTTP/1.0 200 OK" ++ repeat 97 16366 ++ [13; 10; 13; 10].

(** An ICY example: interval 4, two metadata blocks (one of 16 bytes,
    one empty), and a reader that issues [read]s of 65536 bytes. *)
Definition icy_response : list Z :=
  bytes_of_string "HTTP/1.0 200 OK" ++ [13; 10] ++
  bytes_of_string "Icy-MetaInt: 4" ++ [13; 10; 13; 10] ++
  [1; 2; 3; 4] ++ [1] ++ repeat 77 16 ++ [5; 6; 7; 8] ++ [0] ++ [9; 10].

Definition icy_client : Http := {|
  sock := icy_response;
  evs := repeat (Chunk 0) 35 ++ repeat (Chunk 300) 20; dead := false;
  sockOpen := false; connected := false; responseHeaders := []; httpStatus := 0;
  bytesReceived := 0; icyMetaInt := 0; icyBytesUntilMeta := 0 |}.

Definition icy_ops : list ReadOp :=
  [OpRead 65536; OpReadTimeout PReady 65536; OpReadTimeout PTimeout 65536;
   OpRead 65536; OpRead 65536; OpRead 65536].

(** Fields that the socket primitives leave alone. *)
Definition cfg_eq (h h' : Http) : Prop :=
  sockOpen h' = sockOpen h /\ icyMetaInt h' = icyMetaInt h /\
  icyBytesUntilMeta h' = icyBytesUntilMeta h /\ bytesReceived h' = bytesReceived h.

(** Reading invariant: [delivered] is a prefix of the stripped stream
    [full], and while the connection is intact the rest of [full] is the
    stripped form of what the socket still holds. *)
Definition icy_inv (M : Z) (full delivered : list Z) (h : Http) : Prop :=
  icyMetaInt h = M /\ 0 <= icyBytesUntilMeta h /\
  (exists t, full = delivered ++ t) /\
  (dead h = false -> full = delivered ++ icy_strip M (icyBytesUntilMeta h) (sock h)).

End Http.

(* ================================================================== *)
(** ** PCM decoder for WAV and AIFF containers and raw PCM (PcmDecoder.cpp) *)

Module Pcm.

(** [uint32_t] and [uint64_t] wrap-around and two's-complement
    reinterpretation. *)
Definition u32 (x : Z) : Z := x mod 2 ^ 32.
Definition u64 (x : Z) : Z := x mod 2 ^ 64.
Definition sext (w x : Z) : Z := if Z.testbit x (w - 1) then x - 2 ^ w else x.
Definition to_int32 (x : Z) : Z := sext 32 (u32 x).

Inductive State := DETECT | PARSE_WAV | PARSE_AIFF | DATA | DONE | ERROR.

#[global] Instance State_eq_dec : EqDecision State.
Proof. solve_decision. Defined.

(** [DecodedFormat] (Decoder.h), all fields default to 0. *)
Record DecodedFormat := mkFormat {
  sampleRate : Z; bitDepth : Z; channels : Z; totalSamples : Z }.
Definition format0 : DecodedFormat := mkFormat 0 0 0 0.

(** The fields of [PcmDecoder]. *)
Record PcmDecoder := {
  m_state : State; m_headerBuf : list Z; m_dataBuf : list Z;
  m_format : DecodedFormat; m_formatReady : bool; m_bigEndian : bool;
  m_shift : Z; m_dataRemaining : Z; m_rawPcmConfigured : bool;
  m_eof : bool; m_error : bool; m_finished : bool; m_decodedSamples : Z }.

Definition set_state (v : State) (s : PcmDecoder) : PcmDecoder := {|
    m_state := v; m_headerBuf := m_headerBuf s; m_dataBuf := m_dataBuf s;
    m_format := m_format s; m_formatReady := m_formatReady s; m_bigEndian := m_bigEndian s;
    m_shift := m_shift s; m_dataRemaining := m_dataRemaining s; m_rawPcmConfigured := m_rawPcmConfigured s;
    m_eof := m_eof s; m_error := m_error s; m_finished := m_finished s;
    m_decodedSamples := m_decodedSamples s |}.
Definition set_headerBuf (v : list Z) (s : PcmDecoder) : PcmDecoder := {|
    m_state := m_state s; m_headerBuf := v; m_dataBuf := m_dataBuf s;
    m_format := m_format s; m_formatReady := m_formatReady s; m_bigEndian := m_bigEndian s;
    m_shift := m_shift s; m_dataRemaining := m_dataRemaining s; m_rawPcmConfigured := m_rawPcmConfigured s;
    m_eof := m_eof s; m_error := m_error s; m_finished := m_finished s;
    m_decodedSamples := m_decodedSamples s |}.
Definition set_dataBuf (v : list Z) (s : PcmDecoder) : PcmDecoder := {|
    m_state := m_state s; m_headerBuf := m_headerBuf s; m_dataBuf := v;
    m_format := m_format s; m_formatReady := m_formatReady s; m_bigEndian := m_bigEndian s;
    m_shift := m_shift s; m_dataRemaining := m_dataRemaining s; m_rawPcmConfigured := m_rawPcmConfigured s;
    m_eof := m_eof s; m_error := m_error s; m_finished := m_finished s;
    m_decodedSamples := m_decodedSamples s |}.
Definition set_format (v : DecodedFormat) (s : PcmDecoder) : PcmDecoder := {|
    m_state := m_state s; m_headerBuf := m_headerBuf s; m_dataBuf := m_dataBuf s;
    m_format := v; m_formatReady := m_formatReady s; m_bigEndian := m_bigEndian s;
    m_shift := m_shift s; m_dataRemaining := m_dataRemaining s; m_rawPcmConfigured := m_rawPcmConfigured s;
    m_eof := m_eof s; m_error := m_error s; m_finished := m_finished s;
    m_decodedSamples := m_decodedSamples s |}.
Definition set_formatReady (v : bool) (s : PcmDecoder) : PcmDecoder := {|
    m_state := m_state s; m_headerBuf := m_headerBuf s; m_dataBuf := m_dataBuf s;
    m_format := m_format s; m_formatReady := v; m_bigEndian := m_bigEndian s;
    m_shift := m_shift s; m_dataRemaining := m_dataRemaining s; m_rawPcmConfigured := m_rawPcmConfigured s;
    m_eof := m_eof s; m_error := m_error s; m_finished := m_finished s;
    m_decodedSamples := m_decodedSamples s |}.
Definition set_bigEndian (v : bool) (s : PcmDecoder) : PcmDecoder := {|
    m_state := m_state s; m_headerBuf := m_headerBuf s; m_dataBuf := m_dataBuf s;
    m_format := m_format s; m_formatReady := m_formatReady s; m_bigEndian := v;
    m_shift := m_shift s; m_dataRemaining := m_dataRemaining s; m_rawPcmConfigured := m_rawPcmConfigured s;
    m_eof := m_eof s; m_error := m_error s; m_finished := m_finished s;
    m_decodedSamples := m_decodedSamples s |}.
Definition set_shift (v : Z) (s : PcmDecoder) : PcmDecoder := {|
    m_state := m_state s; m_headerBuf := m_headerBuf s; m_dataBuf := m_dataBuf s;
    m_format := m_format s; m_formatReady := m_formatReady s; m_bigEndian := m_bigEndian s;
    m_shift := v; m_dataRemaining := m_dataRemaining s; m_rawPcmConfigured := m_rawPcmConfigured s;
    m_eof := m_eof s; m_error := m_error s; m_finished := m_finished s;
    m_decodedSamples := m_decodedSamples s |}.
Definition set_dataRemaining (v : Z) (s : PcmDecoder) : PcmDecoder := {|
    m_state := m_state s; m_headerBuf := m_headerBuf s; m_dataBuf := m_dataBuf s;
    m_format := m_format s; m_formatReady := m_formatReady s; m_bigEndian := m_bigEndian s;
    m_shift := m_shift s; m_dataRemaining := v; m_rawPcmConfigured := m_rawPcmConfigured s;
    m_eof := m_eof s; m_error := m_error s; m_finished := m_finished s;
    m_decodedSamples := m_decodedSamples s |}.
Definition set_rawPcmConfigured (v : bool) (s : PcmDecoder) : PcmDecoder := {|
    m_state := m_state s; m_headerBuf := m_headerBuf s; m_dataBuf := m_dataBuf s;
    m_format := m_format s; m_formatReady := m_formatReady s; m_bigEndian := m_bigEndian s;
    m_shift := m_shift s; m_dataRemaining := m_dataRemaining s; m_rawPcmConfigured := v;
    m_eof := m_eof s; m_error := m_error s; m_finished := m_finished s;
    m_decodedSamples := m_decodedSamples s |}.
Definition set_eof (v : bool) (s : PcmDecoder) : PcmDecoder := {|
    m_state := m_state s; m_headerBuf := m_headerBuf s; m_dataBuf := m_dataBuf s;
    m_format := m_format s; m_formatReady := m_formatReady s; m_bigEndian := m_bigEndian s;
    m_shift := m_shift s; m_dataRemaining := m_dataRemaining s; m_rawPcmConfigured := m_rawPcmConfigured s;
    m_eof := v; m_error := m_error s; m_finished := m_finished s;
    m_decodedSamples := m_decodedSamples s |}.
Definition set_error (v : bool) (s : PcmDecoder) : PcmDecoder := {|
    m_state := m_state s; m_headerBuf := m_headerBuf s; m_dataBuf := m_dataBuf s;
    m_format := m_format s; m_formatReady := m_formatReady s; m_bigEndian := m_bigEndian s;
    m_shift := m_shift s; m_dataRemaining := m_dataRemaining s; m_rawPcmConfigured := m_rawPcmConfigured s;
    m_eof := m_eof s; m_error := v; m_finished := m_finished s;
    m_decodedSamples := m_decodedSamples s |}.
Definition set_finished (v : bool) (s : PcmDecoder) : PcmDecoder := {|
    m_state := m_state s; m_headerBuf := m_headerBuf s; m_dataBuf := m_dataBuf s;
    m_format := m_format s; m_formatReady := m_formatReady s; m_bigEndian := m_bigEndian s;
    m_shift := m_shift s; m_dataRemaining := m_dataRemaining s; m_rawPcmConfigured := m_rawPcmConfigured s;
    m_eof := m_eof s; m_error := m_error s; m_finished := v;
    m_decodedSamples := m_decodedSamples s |}.
Definition set_decodedSamples (v : Z) (s : PcmDecoder) : PcmDecoder := {|
    m_state := m_state s; m_headerBuf := m_headerBuf s; m_dataBuf := m_dataBuf s;
    m_format := m_format s; m_formatReady := m_formatReady s; m_bigEndian := m_bigEndian s;
    m_shift := m_shift s; m_dataRemaining := m_dataRemaining s; m_rawPcmConfigured := m_rawPcmConfigured s;
    m_eof := m_eof s; m_error := m_error s; m_finished := m_finished s;
    m_decodedSamples := v |}.

(** A newly constructed decoder (member initialisers of PcmDecoder.h). *)
Definition pcm0 : PcmDecoder := {|
  m_state := DETECT; m_headerBuf := []; m_dataBuf := [];
  m_format := format0; m_formatReady := false; m_bigEndian := false;
  m_shift := 0; m_dataRemaining := 0; m_rawPcmConfigured := false;
  m_eof := false; m_error := false; m_finished := false; m_decodedSamples := 0 |}.

Definition len (p : list Z) : Z := Z.of_nat (length p).

(** [PcmDecoder::feed] *)
Definition feed (s : PcmDecoder) (data : list Z) : PcmDecoder :=
  match m_state s with
  | DETECT | PARSE_WAV | PARSE_AIFF => set_headerBuf (m_headerBuf s ++ data) s
  | DATA => set_dataBuf (m_dataBuf s ++ data) s
  | _ => s
  end.

(** [PcmDecoder::setEof] *)
Definition setEof (s : PcmDecoder) : PcmDecoder := set_eof true s.

(** [PcmDecoder::setRawPcmFormat] *)
Definition setRawPcmFormat (s : PcmDecoder) (sr bd ch : Z) (bigEndian : bool) : PcmDecoder :=
  set_rawPcmConfigured true (set_shift (to_int32 (u32 (32 - bd)))
    (set_bigEndian bigEndian (set_format (mkFormat sr bd ch 0) s))).

(** [PcmDecoder::flush], one assignment after the other. *)
Definition flush (s : PcmDecoder) : PcmDecoder :=
  let s := set_state DETECT s in
  let s := set_headerBuf [] s in
  let s := set_dataBuf [] s in
  let s := set_format format0 s in
  let s := set_formatReady false s in
  let s := set_bigEndian false s in
  let s := set_shift 0 s in
  let s := set_dataRemaining 0 s in
  let s := set_rawPcmConfigured false s in
  let s := set_eof false s in
  let s := set_error false s in
  let s := set_finished false s in
  set_decodedSamples 0 s.

Definition fail_state (s : PcmDecoder) : PcmDecoder := set_error true (set_state ERROR s).

(** [PcmDecoder::detectContainer] *)
Definition detectContainer (s : PcmDecoder) : bool * PcmDecoder :=
  let hb := m_headerBuf s in
  if len hb <? 4 then (false, s)
  else if magic_at hb 0 "RIFF" then (true, set_state PARSE_WAV s)
  else if magic_at hb 0 "FORM" then (true, set_state PARSE_AIFF s)
  else if m_rawPcmConfigured s then
    (true, set_state DATA (set_headerBuf []
             (set_dataBuf (m_dataBuf s ++ hb)
               (set_dataRemaining 0 (set_formatReady true s)))))
  else (false, fail_state s).

(** One sample of [convertSamples]: the [bytesPerSample] source bytes
    [b] to the 32-bit output, per the switch on [bytesPerSample];
    [None] where no case applies (nothing is written). *)
Definition convertSample (bigEndian : bool) (bytesPerSample : Z) (b : list Z) : option Z :=
  let b0 := at_ b 0 in let b1 := at_ b 1 in let b2 := at_ b 2 in let b3 := at_ b 3 in
  if bytesPerSample =? 1 then Some (to_int32 (Z.shiftl (sext 8 b0) 24))
  else if bytesPerSample =? 2 then
    let u := if bigEndian then Z.lor (Z.shiftl b0 8) b1 else Z.lor b0 (Z.shiftl b1 8) in
    Some (to_int32 (Z.shiftl (sext 16 u) 16))
  else if bytesPerSample =? 3 then
    Some (to_int32 (if bigEndian
                    then Z.lor (Z.shiftl b0 24) (Z.lor (Z.shiftl b1 16) (Z.shiftl b2 8))
                    else Z.lor (Z.shiftl b2 24) (Z.lor (Z.shiftl b1 16) (Z.shiftl b0 8))))
  else if bytesPerSample =? 4 then
    Some (to_int32 (if bigEndian
                    then Z.lor (Z.shiftl b0 24) (Z.lor (Z.shiftl b1 16) (Z.lor (Z.shiftl b2 8) b3))
                    else Z.lor b0 (Z.lor (Z.shiftl b1 8) (Z.lor (Z.shiftl b2 16) (Z.shiftl b3 24)))))
  else None.

(** [PcmDecoder::convertSamples]: the values written to [dst]. *)
Definition convertSamples (bigEndian : bool) (bitDepth : Z) (src : list Z) (srcBytes : Z)
    : list Z :=
  let bytesPerSample := u32 (bitDepth / 8) in
  let numSamples := srcBytes / bytesPerSample in
  let bps := Z.to_nat bytesPerSample in
  omap (fun i => convertSample bigEndian bytesPerSample (sub (i * bps) bps src))
       (seq 0 (Z.to_nat numSamples)).

(** Result of the chunk-scanning [while] loop of the header parsers:
    the loop ended (condition false or [break]) with the flags it
    computed, or the function returned [ok] from inside the loop. *)
Inductive ChunkScan :=
  | ScanDone (s : PcmDecoder) (foundFmt foundData : bool) (dataStart : Z)
  | ScanReturn (ok : bool) (s : PcmDecoder).

(** Chunk advance: [pos += 8 + chunkSize] in [uint32_t] arithmetic,
    plus the pad byte. *)
Definition next_chunk (pos chunkSize : Z) : Z :=
  let pos := pos + u32 (8 + chunkSize) in
  if Z.odd chunkSize then pos + 1 else pos.

(** The [while (pos + 8 <= m_headerBuf.size())] loop of
    [parseWavHeader] over the header bytes [p].  Every iteration that
    goes on advances [pos] by at least one byte unless
    [chunkSize = 0xFFFFFFF8]; [None] (out of fuel, given
    [length p + 1]) is the loop that never ends. *)
Fixpoint wav_scan (fuel : nat) (p : list Z) (pos : Z) (foundFmt foundData : bool)
    (dataStart : Z) (s : PcmDecoder) : option ChunkScan :=
  match fuel with
  | O => None
  | S f =>
    if negb (pos + 8 <=? len p) then Some (ScanDone s foundFmt foundData dataStart) else
    let chunkSize := rd_le32 p (pos + 4) in
    let step :=
      if magic_at p (Z.to_nat pos) "fmt " then
        if len p <? pos + 8 + chunkSize then inl (ScanReturn false s) else
        let audioFormat := rd_le16 p (pos + 8) in
        let isExtensible := audioFormat =? 65534 in
        if isExtensible && (chunkSize <? 40) then inl (ScanReturn false (fail_state s)) else
        let audioFormat := if isExtensible then rd_le16 p (pos + 8 + 24) else audioFormat in
        if negb ((audioFormat =? 1) || (audioFormat =? 3))
        then inl (ScanReturn false (fail_state s)) else
        let bitDepth := rd_le16 p (pos + 22) in
        let validBits := rd_le16 p (pos + 8 + 18) in
        let bitDepth := if isExtensible && (0 <? validBits) then validBits else bitDepth in
        let fmt := mkFormat (rd_le32 p (pos + 12)) bitDepth (rd_le16 p (pos + 10))
                     (totalSamples (m_format s)) in
        inr (set_bigEndian false (set_format fmt s), true, foundData, dataStart)
      else if magic_at p (Z.to_nat pos) "data" then
        inr (set_dataRemaining chunkSize s, foundFmt, true, pos + 8)
      else inr (s, foundFmt, foundData, dataStart) in
    match step with
    | inl r => Some r
    | inr (s, ff, fd, ds) =>
        if ff && fd then Some (ScanDone s ff fd ds)
        else wav_scan f p (next_chunk pos chunkSize) ff fd ds s
    end
  end.

(** [parseWavHeader]; [None] when the call does not return (endless
    chunk loop, or the division by zero computing [totalSamples]). *)
Definition parseWavHeader (s : PcmDecoder) : option (bool * PcmDecoder) :=
  let p := m_headerBuf s in
  if len p <? 44 then Some (false, s) else
  if negb (magic_at p 0 "RIFF" && magic_at p 8 "WAVE") then Some (false, fail_state s) else
  match wav_scan (S (length p)) p 12 false false 0 s with
  | None => None
  | Some (ScanReturn ok s') => Some (ok, s')
  | Some (ScanDone s' ff fd ds) =>
      if negb (ff && fd) then Some (false, s') else
      let fmt := m_format s' in
      let denom := u32 (bitDepth fmt / 8 * channels fmt) in
      if denom =? 0 then None else
      let fmt := mkFormat (sampleRate fmt) (bitDepth fmt) (channels fmt)
                   (m_dataRemaining s' / denom) in
      let s' := set_formatReady true (set_format fmt
                  (set_shift (to_int32 (u32 (32 - bitDepth fmt))) s')) in
      let db := if ds <? len p then m_dataBuf s' ++ skipn (Z.to_nat ds) p else m_dataBuf s' in
      Some (true, set_state DATA (set_headerBuf [] (set_dataBuf db s')))
  end.

Section WithExtended.
(** [extendedToUint32]: the AIFF sample rate, an 80-bit float converted
    through [double]; left abstract. *)
Variable extendedToUint32 : list Z -> Z.

(** The chunk loop of [parseAiffHeader] (flags: COMM found, SSND found). *)
Fixpoint aiff_scan (fuel : nat) (p : list Z) (pos : Z) (foundComm foundSsnd : bool)
    (dataStart : Z) (s : PcmDecoder) : option ChunkScan :=
  match fuel with
  | O => None
  | S f =>
    if negb (pos + 8 <=? len p) then Some (ScanDone s foundComm foundSsnd dataStart) else
    let chunkSize := rd_be32 p (pos + 4) in
    let step :=
      if magic_at p (Z.to_nat pos) "COMM" then
        if len p <? pos + 8 + chunkSize then inl (ScanReturn false s) else
        let fmt := mkFormat (extendedToUint32 (sub (Z.to_nat (pos + 16)) 10 p))
                     (rd_be16 p (pos + 14)) (rd_be16 p (pos + 8)) (rd_be32 p (pos + 10)) in
        inr (set_bigEndian true (set_format fmt s), true, foundSsnd, dataStart)
      else if magic_at p (Z.to_nat pos) "SSND" then
        if len p <? pos + 16 then inl (ScanReturn false s) else
        let offset := rd_be32 p (pos + 8) in
        inr (set_dataRemaining (u32 (chunkSize - 8)) s, foundComm, true, pos + 16 + offset)
      else inr (s, foundComm, foundSsnd, dataStart) in
    match step with
    | inl r => Some r
    | inr (s, fc, fs, ds) =>
        if fc && fs then Some (ScanDone s fc fs ds)
        else aiff_scan f p (next_chunk pos chunkSize) fc fs ds s
    end
  end.

(** [parseAiffHeader] *)
Definition parseAiffHeader (s : PcmDecoder) : option (bool * PcmDecoder) :=
  let p := m_headerBuf s in
  if len p <? 46 then Some (false, s) else
  if negb (magic_at p 0 "FORM" && (magic_at p 8 "AIFF" || magic_at p 8 "AIFC"))
  then Some (false, fail_state s) else
  match aiff_scan (S (length p)) p 12 false false 0 s with
  | None => None
  | Some (ScanReturn ok s') => Some (ok, s')
  | Some (ScanDone s' fc fs ds) =>
      if negb (fc && fs) then Some (false, s') else
      let s' := set_formatReady true
                  (set_shift (to_int32 (u32 (32 - bitDepth (m_format s')))) s') in
      let db := if ds <? len p then m_dataBuf s' ++ skipn (Z.to_nat ds) p else m_dataBuf s' in
      Some (true, set_state DATA (set_headerBuf [] (set_dataBuf db s')))
  end.

(** The first part of [readDecoded]: container detection and header
    parsing.  [Some (true, s')] is reaching the conversion code. *)
Definition prepare (s : PcmDecoder) : option (bool * PcmDecoder) :=
  let '(ok, s) := if bool_decide (m_state s = DETECT) then detectContainer s else (true, s) in
  if negb ok then Some (false, s) else
  match (match m_state s with
         | PARSE_WAV => parseWavHeader s
         | PARSE_AIFF => parseAiffHeader s
         | _ => Some (true, s)
         end) with
  | None => None
  | Some (false, s) => Some (false, s)
  | Some (true, s) => Some (bool_decide (m_state s = DATA), s)
  end.

Definition bytes_per_frame (s : PcmDecoder) : Z :=
  u32 (u32 (bitDepth (m_format s) / 8) * channels (m_format s)).

Definition avail_bytes (s : PcmDecoder) : Z :=
  if 0 <? m_dataRemaining s then Z.min (len (m_dataBuf s)) (m_dataRemaining s)
  else len (m_dataBuf s).

(** [PcmDecoder::readDecoded]: the frame count returned, the samples
    written to [out], and the new decoder; [None] when the call does not
    return. *)
Definition readDecoded (s : PcmDecoder) (maxFrames : Z) : option (Z * list Z * PcmDecoder) :=
  if m_error s || m_finished s then Some (0, [], s) else
  match prepare s with
  | None => None
  | Some (false, s) => Some (0, [], s)
  | Some (true, s) =>
      let bytesPerFrame := bytes_per_frame s in
      if bytesPerFrame =? 0 then Some (0, [], s) else
      let framesToConvert := Z.min (avail_bytes s / bytesPerFrame) maxFrames in
      if framesToConvert =? 0 then
        Some (0, [], if m_eof s then set_finished true s else s)
      else
      let bytesToConvert := framesToConvert * bytesPerFrame in
      let out := convertSamples (m_bigEndian s) (bitDepth (m_format s)) (m_dataBuf s)
                   bytesToConvert in
      let s := set_dataBuf (skipn (Z.to_nat bytesToConvert) (m_dataBuf s)) s in
      let s := if 0 <? m_dataRemaining s
               then let dr := m_dataRemaining s - bytesToConvert in
                    set_finished (m_finished s || (dr =? 0)) (set_dataRemaining dr s)
               else s in
      Some (framesToConvert, out,
            set_decodedSamples (u64 (m_decodedSamples s + framesToConvert)) s)
  end.

(** Calls a client makes on a decoder. *)
Inductive op :=
  | Feed (data : list Z) | SetEof | ReadDecoded (maxFrames : Z)
  | SetRawPcmFormat (sr bd ch : Z) (bigEndian : bool) | Flush.

(** Run a sequence of calls; the results of the [readDecoded] calls. *)
Fixpoint run (s : PcmDecoder) (ops : list op) : option (list (Z * list Z) * PcmDecoder) :=
  match ops with
  | [] => Some ([], s)
  | o :: os =>
      match o with
      | Feed d => run (feed s d) os
      | SetEof => run (setEof s) os
      | SetRawPcmFormat sr bd ch be => run (setRawPcmFormat s sr bd ch be) os
      | Flush => run (flush s) os
      | ReadDecoded m =>
          match readDecoded s m with
          | None => None
          | Some (n, out, s') =>
              match run s' os with
              | None => None
              | Some (outs, s'') => Some ((n, out) :: outs, s'')
              end
          end
      end
  end.

End WithExtended.

(** Little-endian bytes, for building example files. *)
Definition le16 (v : Z) : list Z := [Z.land v 255; Z.land (Z.shiftr v 8) 255].
Definition le32 (v : Z) : list Z := le16 (Z.land v 65535) ++ le16 (Z.shiftr v 16).

(** A WAVE_FORMAT_EXTENSIBLE file, mono, 44.1 kHz, 24-bit containers
    holding 20 valid bits, with the 20-bit samples 1 and 2 stored
    left-justified (container values 0x10 and 0x20). *)
Definition wav20_example : list Z :=
  bytes_of_string "RIFF" ++ le32 66 ++ bytes_of_string "WAVE" ++
  bytes_of_string "fmt " ++ le32 40 ++
  le16 65534 ++ le16 1 ++ le32 44100 ++ le32 132300 ++ le16 3 ++ le16 24 ++
  le16 22 ++ le16 20 ++ le32 4 ++
  [1; 0; 0; 0; 0; 0; 16; 0; 128; 0; 0; 170; 0; 56; 155; 113] ++
  bytes_of_string "data" ++ le32 6 ++
  [16; 0; 0; 32; 0; 0].

(** The MSB-aligned value the specification asks for: an [N]-bit sample
    [x] shifted left by [32 - N]. *)
Definition msb_aligned (N x : Z) : Z := Z.shiftl (sext N x) (32 - N).

(** A conversion for the AIFF sample-rate field, used where the inputs
    contain no AIFF header. *)
Definition ext0 : list Z -> Z := fun _ => 0.

(** The decoder after a call sequence, and the result of one more
    [readDecoded] call. *)
Definition state_after (ops : list op) : PcmDecoder :=
  match run ext0 pcm0 ops with Some (_, s) => s | None => pcm0 end.
Definition read_result (s : PcmDecoder) (m : Z) : Z * list Z * PcmDecoder :=
  match readDecoded ext0 s m with Some r => r | None => (0, [], s) end.

(** Raw 16-bit stereo PCM (format from the strm hint), five bytes, EOF,
    and two [readDecoded] calls. *)
Definition raw_ops : list op :=
  [SetRawPcmFormat 44100 16 2 false; Feed [1; 2; 3; 4; 5]; SetEof;
   ReadDecoded 1024; ReadDecoded 1024].

(** Finished-flag and EOF-flag untouched. *)
Definition fe_eq (s s' : PcmDecoder) : Prop :=
  m_finished s' = m_finished s /\ m_eof s' = m_eof s.

Definition scan_state (r : ChunkScan) : PcmDecoder :=
  match r with ScanDone s _ _ _ => s | ScanReturn _ s => s end.

(** The decoder before the second [readDecoded] of [raw_ops] and that
    call's result. *)
Definition c8_state : PcmDecoder := state_after (firstn 4 raw_ops).
Definition c8_result : Z * list Z * PcmDecoder := read_result c8_state 1024.


(** The unsigned value of little-endian bytes. *)
Fixpoint le_val (b : list Z) : Z :=
  match b with [] => 0 | x :: r => x + 256 * le_val r end.

(** The unsigned value of one sample's bytes in the stream's byte order. *)
Definition sample_word (bigEndian : bool) (b : list Z) : Z :=
  if bigEndian then le_val (rev b) else le_val b.

(** The decoder in the data state of a 16-bit stereo stream, with nine
    bytes buffered and six bytes left in the data chunk. *)
Definition read_example : PcmDecoder :=
  set_dataRemaining 6 (set_state DATA (set_dataBuf [1; 2; 3; 4; 5; 6; 7; 8; 9]
    (set_format (mkFormat 44100 16 2 0) pcm0))).

(** A 16-bit stereo WAV file: a fmt chunk, a LIST chunk of odd size
    with its pad byte, and a data chunk of two frames. *)
Definition wav16_example : list Z :=
  bytes_of_string "RIFF" ++ le32 62 ++ bytes_of_string "WAVE" ++
  bytes_of_string "fmt " ++ le32 16 ++
  le16 1 ++ le16 2 ++ le32 44100 ++ le32 176400 ++ le16 4 ++ le16 16 ++
  bytes_of_string "LIST" ++ le32 3 ++ [7; 7; 7; 0] ++
  bytes_of_string "data" ++ le32 8 ++ [1; 2; 3; 4; 5; 6; 7; 8].

(** A 16-bit stereo AIFF file of two frames: COMM (44100 Hz as an
    80-bit float) and SSND chunks. *)
Definition aiff_example : list Z :=
  bytes_of_string "FORM" ++ be32 54 ++ bytes_of_string "AIFF" ++
  bytes_of_string "COMM" ++ be32 18 ++
  be16 2 ++ be32 2 ++ be16 16 ++ [64; 14; 172; 68; 0; 0; 0; 0; 0; 0] ++
  bytes_of_string "SSND" ++ be32 16 ++ be32 0 ++ be32 0 ++
  [1; 2; 3; 4; 5; 6; 7; 8].

(** The decoder after [detectContainer] took the raw-PCM path on a
    fresh decoder given [setRawPcmFormat] and fed [d]. *)
Definition raw_state sr bd ch be d : PcmDecoder :=
  set_state DATA (set_headerBuf [] (set_dataBuf d (set_dataRemaining 0
    (set_formatReady true (set_headerBuf d (setRawPcmFormat pcm0 sr bd ch be)))))).

End Pcm.

(* ================================================================== *)
(** ** FLAC decoder (FlacDecoder.cpp: [feed], [setEof], [flush]) *)

Module Flac.

Section WithLibFLAC.
(** The state of the libFLAC stream decoder object that [m_decoder]
    points to, and [FlacDecoder::readDecoded], which drives libFLAC
    through its callbacks; both are left abstract (libFLAC is not part
    of this repository). *)
Variable FLAC_StreamDecoder : Type.

(** The fields of [FlacDecoder]; [m_decoder] is [None] for [nullptr]. *)
Record FlacDecoder := {
  m_decoder : option FLAC_StreamDecoder;
  m_inputBuffer : list Z; m_inputPos : Z; m_eof : bool;
  m_outputBuffer : list Z; m_outputPos : Z;
  m_format : Pcm.DecodedFormat; m_formatReady : bool; m_shift : Z;
  m_tellOffset : Z; m_confirmedAbsolutePos : Z;
  m_initialized : bool; m_metadataDone : bool; m_error : bool; m_finished : bool;
  m_decodedSamples : Z; m_metadataRetries : Z }.

Variable readDecoded : FlacDecoder -> Z -> Z * list Z * FlacDecoder.


(** [FlacDecoder::feed] *)
Definition feed (s : FlacDecoder) (data : list Z) : FlacDecoder := {|
  m_decoder := m_decoder s;
  m_inputBuffer := m_inputBuffer s ++ data; m_inputPos := m_inputPos s; m_eof := m_eof s;
  m_outputBuffer := m_outputBuffer s; m_outputPos := m_outputPos s;
  m_format := m_format s; m_formatReady := m_formatReady s; m_shift := m_shift s;
  m_tellOffset := m_tellOffset s; m_confirmedAbsolutePos := m_confirmedAbsolutePos s;
  m_initialized := m_initialized s; m_metadataDone := m_metadataDone s;
  m_error := m_error s; m_finished := m_finished s;
  m_decodedSamples := m_decodedSamples s; m_metadataRetries := m_metadataRetries s |}.

(** [FlacDecoder::setEof] *)
Definition setEof (s : FlacDecoder) : FlacDecoder := {|
  m_decoder := m_decoder s;
  m_inputBuffer := m_inputBuffer s; m_inputPos := m_inputPos s; m_eof := true;
  m_outputBuffer := m_outputBuffer s; m_outputPos := m_outputPos s;
  m_format := m_format s; m_formatReady := m_formatReady s; m_shift := m_shift s;
  m_tellOffset := m_tellOffset s; m_confirmedAbsolutePos := m_confirmedAbsolutePos s;
  m_initialized := m_initialized s; m_metadataDone := m_metadataDone s;
  m_error := m_error s; m_finished := m_finished s;
  m_decodedSamples := m_decodedSamples s; m_metadataRetries := m_metadataRetries s |}.

(** [FlacDecoder::flush]: the libFLAC decoder is deleted and
    [m_decoder] set to [nullptr], then the members are assigned in the
    order of the source. *)
Definition flush (s : FlacDecoder) : FlacDecoder := {|
  m_decoder := None;
  m_inputBuffer := []; m_inputPos := 0;
  m_outputBuffer := []; m_outputPos := 0;
  m_format := Pcm.format0; m_formatReady := false; m_shift := 0;
  m_tellOffset := 0; m_confirmedAbsolutePos := 0;
  m_initialized := false; m_metadataDone := false; m_error := false; m_finished := false;
  m_eof := false; m_decodedSamples := 0; m_metadataRetries := 0 |}.

(** Calls a client makes on a FLAC decoder. *)
Inductive op := Feed (data : list Z) | SetEof | ReadDecoded (maxFrames : Z) | Flush.

(** Run a sequence of calls; the results of the [readDecoded] calls. *)
Fixpoint run (s : FlacDecoder) (ops : list op) : list (Z * list Z) * FlacDecoder :=
  match ops with
  | [] => ([], s)
  | Feed d :: os => run (feed s d) os
  | SetEof :: os => run (setEof s) os
  | Flush :: os => run (flush s) os
  | ReadDecoded m :: os =>
      let '(n, out, s') := readDecoded s m in
      let '(outs, s'') := run s' os in
      ((n, out) :: outs, s'')
  end.

End WithLibFLAC.

End Flac.

(* ================================================================== *)
(** ** DSD stream reader (DsdStreamReader.cpp, DsdProcessor.cpp) *)

Module Dsd.

Definition u32 (x : Z) : Z := x mod 2 ^ 32.
Definition u64 (x : Z) : Z := x mod 2 ^ 64.
Definition len (p : list Z) : Z := Z.of_nat (length p).
Definition magic_atZ (p : list Z) (off : Z) (s : string) : bool := magic_at p (Z.to_nat off) s.

Inductive Container := DSF | DFF | RAW.
Inductive State := DETECT | PARSE_DSF | PARSE_DFF | DATA | DONE | ERROR.

#[global] Instance Container_eq_dec : EqDecision Container.
Proof. solve_decision. Defined.
#[global] Instance State_eq_dec : EqDecision State.
Proof. solve_decision. Defined.

(** [DsdFormat] with its default member values. *)
Record DsdFormat := mkDsdFormat {
  sampleRate : Z; channels : Z; blockSizePerChannel : Z; totalDsdBytes : Z;
  container : Container; isLSBFirst : bool }.
Definition format0 : DsdFormat := mkDsdFormat 0 0 0 0 DSF false.

(** The fields of [DsdStreamReader]. *)
Record DsdStreamReader := {
  m_state : State; m_headerBuf : list Z; m_dataBuf : list Z;
  m_format : DsdFormat; m_formatReady : bool; m_rawDsdConfigured : bool;
  m_dataRemaining : Z; m_totalBytesOutput : Z;
  m_eof : bool; m_error : bool; m_finished : bool }.

Definition set_state (v : State) (s : DsdStreamReader) : DsdStreamReader := {|
    m_state := v; m_headerBuf := m_headerBuf s; m_dataBuf := m_dataBuf s;
    m_format := m_format s; m_formatReady := m_formatReady s; m_rawDsdConfigured := m_rawDsdConfigured s;
    m_dataRemaining := m_dataRemaining s; m_totalBytesOutput := m_totalBytesOutput s; m_eof := m_eof s;
    m_error := m_error s; m_finished := m_finished s |}.
Definition set_headerBuf (v : list Z) (s : DsdStreamReader) : DsdStreamReader := {|
    m_state := m_state s; m_headerBuf := v; m_dataBuf := m_dataBuf s;
    m_format := m_format s; m_formatReady := m_formatReady s; m_rawDsdConfigured := m_rawDsdConfigured s;
    m_dataRemaining := m_dataRemaining s; m_totalBytesOutput := m_totalBytesOutput s; m_eof := m_eof s;
    m_error := m_error s; m_finished := m_finished s |}.
Definition set_dataBuf (v : list Z) (s : DsdStreamReader) : DsdStreamReader := {|
    m_state := m_state s; m_headerBuf := m_headerBuf s; m_dataBuf := v;
    m_format := m_format s; m_formatReady := m_formatReady s; m_rawDsdConfigured := m_rawDsdConfigured s;
    m_dataRemaining := m_dataRemaining s; m_totalBytesOutput := m_totalBytesOutput s; m_eof := m_eof s;
    m_error := m_error s; m_finished := m_finished s |}.
Definition set_format (v : DsdFormat) (s : DsdStreamReader) : DsdStreamReader := {|
    m_state := m_state s; m_headerBuf := m_headerBuf s; m_dataBuf := m_dataBuf s;
    m_format := v; m_formatReady := m_formatReady s; m_rawDsdConfigured := m_rawDsdConfigured s;
    m_dataRemaining := m_dataRemaining s; m_totalBytesOutput := m_totalBytesOutput s; m_eof := m_eof s;
    m_error := m_error s; m_finished := m_finished s |}.
Definition set_formatReady (v : bool) (s : DsdStreamReader) : DsdStreamReader := {|
    m_state := m_state s; m_headerBuf := m_headerBuf s; m_dataBuf := m_dataBuf s;
    m_format := m_format s; m_formatReady := v; m_rawDsdConfigured := m_rawDsdConfigured s;
    m_dataRemaining := m_dataRemaining s; m_totalBytesOutput := m_totalBytesOutput s; m_eof := m_eof s;
    m_error := m_error s; m_finished := m_finished s |}.
Definition set_rawDsdConfigured (v : bool) (s : DsdStreamReader) : DsdStreamReader := {|
    m_state := m_state s; m_headerBuf := m_headerBuf s; m_dataBuf := m_dataBuf s;
    m_format := m_format s; m_formatReady := m_formatReady s; m_rawDsdConfigured := v;
    m_dataRemaining := m_dataRemaining s; m_totalBytesOutput := m_totalBytesOutput s; m_eof := m_eof s;
    m_error := m_error s; m_finished := m_finished s |}.
Definition set_dataRemaining (v : Z) (s : DsdStreamReader) : DsdStreamReader := {|
    m_state := m_state s; m_headerBuf := m_headerBuf s; m_dataBuf := m_dataBuf s;
    m_format := m_format s; m_formatReady := m_formatReady s; m_rawDsdConfigured := m_rawDsdConfigured s;
    m_dataRemaining := v; m_totalBytesOutput := m_totalBytesOutput s; m_eof := m_eof s;
    m_error := m_error s; m_finished := m_finished s |}.
Definition set_totalBytesOutput (v : Z) (s : DsdStreamReader) : DsdStreamReader := {|
    m_state := m_state s; m_headerBuf := m_headerBuf s; m_dataBuf := m_dataBuf s;
    m_format := m_format s; m_formatReady := m_formatReady s; m_rawDsdConfigured := m_rawDsdConfigured s;
    m_dataRemaining := m_dataRemaining s; m_totalBytesOutput := v; m_eof := m_eof s;
    m_error := m_error s; m_finished := m_finished s |}.
Definition set_eof (v : bool) (s : DsdStreamReader) : DsdStreamReader := {|
    m_state := m_state s; m_headerBuf := m_headerBuf s; m_dataBuf := m_dataBuf s;
    m_format := m_format s; m_formatReady := m_formatReady s; m_rawDsdConfigured := m_rawDsdConfigured s;
    m_dataRemaining := m_dataRemaining s; m_totalBytesOutput := m_totalBytesOutput s; m_eof := v;
    m_error := m_error s; m_finished := m_finished s |}.
Definition set_error (v : bool) (s : DsdStreamReader) : DsdStreamReader := {|
    m_state := m_state s; m_headerBuf := m_headerBuf s; m_dataBuf := m_dataBuf s;
    m_format := m_format s; m_formatReady := m_formatReady s; m_rawDsdConfigured := m_rawDsdConfigured s;
    m_dataRemaining := m_dataRemaining s; m_totalBytesOutput := m_totalBytesOutput s; m_eof := m_eof s;
    m_error := v; m_finished := m_finished s |}.
Definition set_finished (v : bool) (s : DsdStreamReader) : DsdStreamReader := {|
    m_state := m_state s; m_headerBuf := m_headerBuf s; m_dataBuf := m_dataBuf s;
    m_format := m_format s; m_formatReady := m_formatReady s; m_rawDsdConfigured := m_rawDsdConfigured s;
    m_dataRemaining := m_dataRemaining s; m_totalBytesOutput := m_totalBytesOutput s; m_eof := m_eof s;
    m_error := m_error s; m_finished := v |}.

Definition reader0 : DsdStreamReader := {|
  m_state := DETECT; m_headerBuf := []; m_dataBuf := [];
  m_format := format0; m_formatReady := false; m_rawDsdConfigured := false;
  m_dataRemaining := 0; m_totalBytesOutput := 0;
  m_eof := false; m_error := false; m_finished := false |}.

(** [DsdStreamReader::flush] *)
Definition flush (s : DsdStreamReader) : DsdStreamReader := {|
  m_state := DETECT; m_headerBuf := []; m_dataBuf := [];
  m_format := format0; m_formatReady := false; m_rawDsdConfigured := false;
  m_dataRemaining := 0; m_totalBytesOutput := 0;
  m_eof := false; m_error := false; m_finished := false |}.

(** [DsdStreamReader::setRawDsdFormat] *)
Definition setRawDsdFormat (s : DsdStreamReader) (dsdRate ch : Z) : DsdStreamReader :=
  set_rawDsdConfigured true
    (set_format (mkDsdFormat dsdRate ch 0 0 RAW false) s).

Definition setEof (s : DsdStreamReader) : DsdStreamReader := set_eof true s.

Definition fail_state (s : DsdStreamReader) : DsdStreamReader :=
  set_error true (set_state ERROR s).

(** [DsdStreamReader::detectContainer] *)
Definition detectContainer (s : DsdStreamReader) : bool * DsdStreamReader :=
  let p := m_headerBuf s in
  if len p <? 4 then (false, s)
  else if magic_atZ p 0 "DSD " then (true, set_state PARSE_DSF s)
  else if magic_atZ p 0 "FRM8" then (true, set_state PARSE_DFF s)
  else if m_rawDsdConfigured s then
    (true, set_state DATA (set_headerBuf [] (set_dataBuf (m_dataBuf s ++ p)
             (set_dataRemaining 0 (set_formatReady true s)))))
  else (false, fail_state s).

(** The common tail of both header parsers: move the bytes after the
    data-chunk header (at most [m_dataRemaining] of them when that is
    non-zero) to the data buffer. *)
Definition move_excess (p : list Z) (dataStart : Z) (s : DsdStreamReader) : DsdStreamReader :=
  let s :=
    if dataStart <? len p then
      let excess := len p - dataStart in
      let dr := m_dataRemaining s in
      let toMove := if (0 <? dr) && (dr <? excess) then dr else excess in
      let s := set_dataBuf (m_dataBuf s ++ sub (Z.to_nat dataStart) (Z.to_nat toMove) p) s in
      if 0 <? dr then set_dataRemaining (dr - toMove) s else s
    else s in
  set_state DATA (set_headerBuf [] s).

(** [DsdStreamReader::parseDsfHeader] *)
Definition parseDsfHeader (s : DsdStreamReader) : bool * DsdStreamReader :=
  let p := m_headerBuf s in
  if len p <? 92 then (false, s) else
  if negb (magic_atZ p 0 "DSD ") then (false, fail_state s) else
  if negb (magic_atZ p 28 "fmt ") then (false, fail_state s) else
  let fmtChunkSize := rd_le64 p 32 in
  let formatID := rd_le32 p 44 in
  let channelCount := rd_le32 p 52 in
  let sampleRate := rd_le32 p 56 in
  let blockSize := rd_le32 p 72 in
  if negb (formatID =? 0) then (false, fail_state s) else
  if (channelCount =? 0) || (8 <? channelCount) then (false, fail_state s) else
  if blockSize =? 0 then (false, fail_state s) else
  let dataChunkOffset := u64 (28 + fmtChunkSize) in
  if len p <? u64 (dataChunkOffset + 12) then (false, s) else
  if negb (magic_atZ p dataChunkOffset "data") then (false, fail_state s) else
  let dataBytes := u64 (rd_le64 p (dataChunkOffset + 4) - 12) in
  let s := set_formatReady true (set_dataRemaining dataBytes
             (set_format (mkDsdFormat sampleRate channelCount blockSize dataBytes DSF true) s)) in
  (true, move_excess p (u64 (dataChunkOffset + 12)) s).

(** The sub-chunk loop of [parseDffHeader] inside a "PROP"/"SND " chunk.
    [inl] carries the loop variables when the loop ends; [inr s] is a
    [return false] of [parseDffHeader] with the reader state [s].  [None]:
    the loop does not end (the next [subPos] is a function of [subPos]
    alone, so a run that ends visits each value at most once, and at most
    [length p + 1] values pass the test [subPos + 12 <= bufSize]). *)
Fixpoint prop_scan (fuel : nat) (p : list Z) (propEnd subPos sr ch : Z)
    (foundFS foundCHNL : bool) (s : DsdStreamReader)
    : option ((Z * Z * bool * bool) + DsdStreamReader) :=
  match fuel with
  | O => None
  | S fuel =>
    if negb ((u64 (subPos + 12) <=? len p) && (u64 (subPos + 12) <=? propEnd))
    then Some (inl (sr, ch, foundFS, foundCHNL)) else
    let subSize := rd_be64 p (subPos + 4) in
    let r :=
      if magic_atZ p subPos "FS  " then
        if len p <? u64 (subPos + 12 + 4) then inr s
        else inl (rd_be32 p (subPos + 12), ch, true, foundCHNL)
      else if magic_atZ p subPos "CHNL" then
        if len p <? u64 (subPos + 12 + 2) then inr s
        else inl (sr, Z.lor (Z.shiftl (at_ p (subPos + 12)) 8) (at_ p (subPos + 13)),
                  foundFS, true)
      else if magic_atZ p subPos "CMPR" then
        if len p <? u64 (subPos + 12 + 4) then inr s
        else if negb (magic_atZ p (subPos + 12) "DSD ") then inr (fail_state s)
        else inl (sr, ch, foundFS, foundCHNL)
      else inl (sr, ch, foundFS, foundCHNL) in
    match r with
    | inr s' => Some (inr s')
    | inl (sr, ch, foundFS, foundCHNL) =>
      let subPos := u64 (subPos + 12 + subSize) in
      let subPos := if Z.odd subPos then u64 (subPos + 1) else subPos in
      prop_scan fuel p propEnd subPos sr ch foundFS foundCHNL s
    end
  end.

(** The chunk loop of [parseDffHeader], from [pos]; [inl] carries
    (sampleRate, channels, foundFS, foundCHNL, data chunk) when the loop
    ends or breaks, the data chunk being [Some (dataStart, dataSize)] when
    found.  [None]: the loop does not end (same argument as above). *)
Fixpoint dff_scan (fuel : nat) (p : list Z) (pos sr ch : Z)
    (foundFS foundCHNL : bool) (s : DsdStreamReader)
    : option ((Z * Z * bool * bool * option (Z * Z)) + DsdStreamReader) :=
  match fuel with
  | O => None
  | S fuel =>
    if negb (u64 (pos + 12) <=? len p)
    then Some (inl (sr, ch, foundFS, foundCHNL, None)) else
    let chunkSize := rd_be64 p (pos + 4) in
    if magic_atZ p pos "FVER" then
      dff_scan fuel p (u64 (pos + 12 + chunkSize)) sr ch foundFS foundCHNL s
    else if magic_atZ p pos "PROP" then
      if len p <? u64 (pos + 16) then Some (inr s)
      else if negb (magic_atZ p (pos + 12) "SND ") then
        dff_scan fuel p (u64 (pos + 12 + chunkSize)) sr ch foundFS foundCHNL s
      else
        let propEnd := u64 (pos + 12 + chunkSize) in
        match prop_scan (length p + 2) p propEnd (u64 (pos + 16)) sr ch
                foundFS foundCHNL s with
        | None => None
        | Some (inr s') => Some (inr s')
        | Some (inl (sr, ch, foundFS, foundCHNL)) =>
          let pos := if Z.odd propEnd then u64 (propEnd + 1) else propEnd in
          dff_scan fuel p pos sr ch foundFS foundCHNL s
        end
    else if magic_atZ p pos "DSD " then
      Some (inl (sr, ch, foundFS, foundCHNL, Some (u64 (pos + 12), chunkSize)))
    else
      let pos := u64 (pos + 12 + chunkSize) in
      let pos := if Z.odd pos then u64 (pos + 1) else pos in
      dff_scan fuel p pos sr ch foundFS foundCHNL s
  end.

(** [DsdStreamReader::parseDffHeader]; [None] when a scan loop does not end. *)
Definition parseDffHeader (s : DsdStreamReader) : option (bool * DsdStreamReader) :=
  let p := m_headerBuf s in
  if len p <? 16 then Some (false, s) else
  if negb (magic_atZ p 0 "FRM8" && magic_atZ p 12 "DSD ") then Some (false, fail_state s) else
  match dff_scan (length p + 2) p 16 0 0 false false s with
  | None => None
  | Some (inr s') => Some (false, s')
  | Some (inl (_, _, _, _, None)) => Some (false, s)
  | Some (inl (sr, ch, foundFS, foundCHNL, Some (dataStart, dataSize))) =>
    if negb foundFS || (sr =? 0) then Some (false, fail_state s) else
    if negb foundCHNL || (ch =? 0) then Some (false, fail_state s) else
    let s := set_formatReady true (set_dataRemaining dataSize
               (set_format (mkDsdFormat sr ch 0 dataSize DFF false) s)) in
    Some (true, move_excess p dataStart s)
  end.

(** [DsdStreamReader::feed]; [None] when the header parser does not return. *)
Definition feed (s : DsdStreamReader) (data : list Z) : option DsdStreamReader :=
  match m_state s with
  | DONE | ERROR => Some s
  | DETECT | PARSE_DSF | PARSE_DFF =>
    let s := set_headerBuf (m_headerBuf s ++ data) s in
    let s := if bool_decide (m_state s = DETECT) then snd (detectContainer s) else s in
    match m_state s with
    | PARSE_DSF => Some (snd (parseDsfHeader s))
    | PARSE_DFF => option_map snd (parseDffHeader s)
    | _ => Some s
    end
  | DATA =>
    let dr := m_dataRemaining s in
    let toAdd := if (0 <? dr) && (dr <? len data) then dr else len data in
    let s := set_dataBuf (m_dataBuf s ++ firstn (Z.to_nat toAdd) data) s in
    Some (if 0 <? dr then set_dataRemaining (dr - toAdd) s else s)
  end.

(** [std::memcpy(dst, src, n)] on the caller's output buffer [dst]. *)
Definition memcpy (dst src : list Z) (n : Z) : list Z :=
  firstn (Z.to_nat n) src ++ skipn (Z.to_nat n) dst.

(** [DsdProcessor::deinterleaveToPlaynar], the two loops writing [dst] in
    place (the caller's buffer holds at least [numBytes] bytes). *)
Definition deinterleaveToPlaynar (src dst : list Z) (numBytes channels : Z) : list Z :=
  if channels <? 2 then memcpy dst src numBytes else
  let bytesPerChannel := Z.to_nat (numBytes / channels) in
  let C := Z.to_nat channels in
  fold_left (fun (dst : list Z) (i : nat) =>
    fold_left (fun (dst : list Z) (ch : nat) =>
      <[(ch * bytesPerChannel + i)%nat := at_ src (Z.of_nat (i * C + ch))]> dst)
      (seq 0 C) dst)
    (seq 0 bytesPerChannel) dst.

(** Emitting [n] bytes: drop them from the data buffer, count them. *)
Definition consume (n : Z) (s : DsdStreamReader) : DsdStreamReader :=
  set_totalBytesOutput (u64 (m_totalBytesOutput s + n))
    (set_dataBuf (skipn (Z.to_nat n) (m_dataBuf s)) s).

(** [DsdStreamReader::processDsfBlocks].  [blockGroup] is a [uint32_t]
    product.  In the end-of-file branch the channel count is the one
    validated (1..8) by [parseDsfHeader], the only place setting the DSF
    container with a ready format. *)
Definition processDsfBlocks (s : DsdStreamReader) (out : list Z) (maxBytes : Z)
    : Z * list Z * DsdStreamReader :=
  let f := m_format s in
  let blockGroup := u32 (blockSizePerChannel f * channels f) in
  if blockGroup =? 0 then (0, out, s) else
  let avail := len (m_dataBuf s) in
  let groups := Z.min (maxBytes / blockGroup) (avail / blockGroup) in
  if groups =? 0 then
    if m_eof s && (0 <? avail) && (m_dataRemaining s =? 0) then
      let usable := avail / channels f * channels f in
      let usable := if maxBytes <? usable then maxBytes / channels f * channels f
                    else usable in
      if usable =? 0 then (0, out, s)
      else (usable, memcpy out (m_dataBuf s) usable, consume usable s)
    else (0, out, s)
  else
    let bytes := groups * blockGroup in
    (bytes, memcpy out (m_dataBuf s) bytes, consume bytes s).

(** [DsdStreamReader::processDffData] (also [processRawData]). *)
Definition processDffData (s : DsdStreamReader) (out : list Z) (maxBytes : Z)
    : Z * list Z * DsdStreamReader :=
  let avail := len (m_dataBuf s) in
  if avail =? 0 then (0, out, s) else
  let ch := channels (m_format s) in
  if ch =? 0 then (0, out, s) else
  let usable := Z.min avail maxBytes / ch * ch in
  if usable =? 0 then (0, out, s) else
  (usable, deinterleaveToPlaynar (m_dataBuf s) out usable ch, consume usable s).

Definition processRawData := processDffData.

(** [DsdStreamReader::readPlanar]: (return value, output buffer, state). *)
Definition readPlanar (s : DsdStreamReader) (out : list Z) (maxBytes : Z)
    : Z * list Z * DsdStreamReader :=
  if bool_decide (m_state s = DONE) || bool_decide (m_state s = ERROR) then (0, out, s) else
  if negb (bool_decide (m_state s = DATA)) then (0, out, s) else
  if negb (m_formatReady s) then (0, out, s) else
  let '(result, out, s) :=
    match container (m_format s) with
    | DSF => processDsfBlocks s out maxBytes
    | DFF => processDffData s out maxBytes
    | RAW => processRawData s out maxBytes
    end in
  if (result =? 0) && bool_decide (m_dataBuf s = []) && m_eof s
  then (result, out, set_state DONE (set_finished true s))
  else (result, out, s).

(** Example inputs.  Little- and big-endian field encodings. *)
Definition le32 (v : Z) : list Z :=
  [Z.land v 255; Z.land (Z.shiftr v 8) 255;
   Z.land (Z.shiftr v 16) 255; Z.land (Z.shiftr v 24) 255].
Definition le64 (v : Z) : list Z := le32 v ++ le32 (Z.shiftr v 32).
Definition be64 (v : Z) : list Z := be32 (Z.shiftr v 32) ++ be32 v.
Definition tag (s : string) : list Z := bytes_of_string s.

(** A DFF (DSDIFF) stereo DSD128 header: FRM8/DSD, FVER, a PROP/SND chunk
    with FS (5644800 Hz), CHNL (2 channels) and CMPR ("DSD "), then the
    header of a 256-byte "DSD " data chunk (114 bytes in all). *)
Definition dff_header : list Z :=
  tag "FRM8" ++ be64 358 ++ tag "DSD " ++
  tag "FVER" ++ be64 4 ++ be32 0x01050000 ++
  tag "PROP" ++ be64 58 ++ tag "SND " ++
    tag "FS  " ++ be64 4 ++ be32 5644800 ++
    tag "CHNL" ++ be64 10 ++ be16 2 ++ tag "SLFT" ++ tag "SRGT" ++
    tag "CMPR" ++ be64 4 ++ tag "DSD " ++
  tag "DSD " ++ be64 256.

(** Byte-interleaved stereo data [L0 R0 L1 R1 ...]. *)
Fixpoint interleave (Ls Rs : list Z) : list Z :=
  match Ls, Rs with
  | l :: Ls, r :: Rs => l :: r :: interleave Ls Rs
  | _, _ => []
  end.

(** Planar layout of the first [bpc * C] bytes of [src]: channel 0's bytes
    [src[0], src[C], src[2C], ...], then channel 1's, and so on. *)
Definition planar (src : list Z) (bpc C : nat) : list Z :=
  concat (map (fun ch => map (fun i => at_ src (Z.of_nat (i * C + ch))) (seq 0 bpc))
              (seq 0 C)).

(** A DSF file with 3 channels and blockSizePerChannel 1431655766, so that
    blockSizePerChannel * channels = 4294967298 wraps to 2 in 32 bits; its
    data chunk holds the 2 bytes 7 and 9. *)
Definition dsf_overflow : list Z :=
  tag "DSD " ++ le64 28 ++ le64 94 ++ le64 0 ++
  tag "fmt " ++ le64 52 ++ le32 1 ++ le32 0 ++ le32 2 ++ le32 3 ++
    le32 2822400 ++ le32 1 ++ le64 0 ++ le32 1431655766 ++ le32 0 ++
  tag "data" ++ le64 14 ++
  [7; 9].

(** Feed [data] to a fresh reader, then call [readPlanar] once with an
    output buffer of [maxBytes] bytes. *)
Definition feed_then_read (data : list Z) (maxBytes : Z) : option (Z * DsdStreamReader) :=
  match feed reader0 data with
  | Some s => let '(n, _, s') := readPlanar s (repeat 0 (Z.to_nat maxBytes)) maxBytes in
              Some (n, s')
  | None => None
  end.

(** [feed] applied to successive input chunks, stopping at the first
    failed call (a [feed] returning [false]). *)
Fixpoint feed_all (s : DsdStreamReader) (ds : list (list Z)) : option DsdStreamReader :=
  match ds with
  | [] => Some s
  | d :: ds => match feed s d with Some s' => feed_all s' ds | None => None end
  end.


(** A DSF reader in the data state: two channels, 2-byte blocks, six
    bytes buffered. *)
Definition dsf_reading : DsdStreamReader :=
  set_formatReady true (set_state DATA (set_dataBuf [1; 2; 3; 4; 5; 6]
    (set_format (mkDsdFormat 2822400 2 2 0 DSF true) reader0))).

End Dsd.

(* ================================================================== *)
(** ** Slimproto receive loop (FlacDecoder.cpp: [run], [readExact]) *)

Module SlimprotoRecv.
Import Slimproto Http.

(** The control socket seen by [SlimprotoClient::readExact]: the bytes
    the server has yet to deliver, and the outcome of each [recv] call,
    with the same environment model as [Http.recv]. *)
Record Sock := { sbytes : list Z; sevs : list recv_ev }.

(** [recv(m_socket, ptr, n, 0)] on the control socket. *)
Definition sock_recv (s : Sock) (n : Z) : RecvRes * Sock :=
  match sevs s with
  | [] => (RErr false, {| sbytes := sbytes s; sevs := [] |})
  | e :: es =>
      match e with
      | Intr => (RErr true, {| sbytes := sbytes s; sevs := es |})
      | Fail => (RErr false, {| sbytes := sbytes s; sevs := es |})
      | Chunk k =>
          match sbytes s with
          | [] => (RZero, {| sbytes := []; sevs := es |})
          | _ =>
              if n <=? 0 then (RZero, {| sbytes := sbytes s; sevs := es |}) else
              let m := Nat.min (S k) (Nat.min (Z.to_nat n) (length (sbytes s))) in
              (RBytes (firstn m (sbytes s)), {| sbytes := skipn m (sbytes s); sevs := es |})
          end
      end
  end.

(** The loop of [SlimprotoClient::readExact]: [Some] with the bytes
    written to [buf] when [remaining] reached 0, [None] for [return
    false].  Each iteration consumes one [recv] outcome, so
    [length (sevs s) + 1] iterations always suffice. *)
Fixpoint readExact_loop (fuel : nat) (remaining : Z) (acc : list Z) (s : Sock)
    : option (list Z) * Sock :=
  match fuel with
  | O => (None, s)
  | S f =>
      if 0 <? remaining then
        match sock_recv s remaining with
        | (RBytes bs, s') =>
            readExact_loop f (remaining - Z.of_nat (length bs)) (acc ++ bs) s'
        | (RErr true, s') => readExact_loop f remaining acc s'
        | (_, s') => (None, s')
        end
      else (Some acc, s)
  end.

(** [SlimprotoClient::readExact(buf, len)] *)
Definition readExact (s : Sock) (len : Z) : option (list Z) * Sock :=
  readExact_loop (S (length (sevs s))) len [] s.

(** The loop of [SlimprotoClient::run] (the [m_running] flag stays set:
    [stop()] from another thread is not modelled).  Returns the client
    state, the effects of the dispatched messages in order, and the
    socket.  Each iteration consumes at least one [recv] outcome. *)
Fixpoint run_loop (fuel : nat) (c : Client) (s : Sock) : Client * list effect * Sock :=
  match fuel with
  | O => (c, [], s)
  | S f =>
      match readExact s 2 with
      | (None, s1) => (c, [], s1)
      | (Some hdr, s1) =>
          let frameLen := rd_be16 hdr 0 in
          if frameLen <? 4 then run_loop f c s1 else
          match readExact s1 4 with
          | (None, s2) => (c, [], s2)
          | (Some opcode, s2) =>
              let payloadLen := frameLen - 4 in
              let r := if 0 <? payloadLen then readExact s2 payloadLen
                       else (Some [], s2) in
              match r with
              | (None, s3) => (c, [], s3)
              | (Some payload, s3) =>
                  let '(c', es) := processServerMessage c opcode payload in
                  let '(c'', es', s4) := run_loop f c' s3 in
                  (c'', es ++ es', s4)
              end
          end
      end
  end.

(** [SlimprotoClient::run] *)
Definition run (c : Client) (s : Sock) : Client * list effect * Sock :=
  run_loop (S (length (sevs s))) c s.

(** What the server sends on the control socket: a frame
    [2-byte length BE][4-byte opcode][payload], or a bare length field
    below 4, which [run] skips. *)
Inductive wire_item := Frame (opcode payload : list Z) | Short (frameLen : Z).

(** The bytes of one item on the wire. *)
Definition wire_bytes (w : wire_item) : list Z :=
  match w with
  | Frame o p => be16 (4 + Z.of_nat (length p)) ++ o ++ p
  | Short l => be16 l
  end.

Definition wire (ws : list wire_item) : list Z := concat (map wire_bytes ws).

(** A frame has a 4-byte opcode and a length that fits the 16-bit field. *)
Definition wire_ok (w : wire_item) : Prop :=
  match w with
  | Frame o p => length o = 4%nat /\ 4 + Z.of_nat (length p) < 65536
  | Short l => 0 <= l < 4
  end.

(** [processServerMessage] applied to the frames in order. *)
Fixpoint dispatch (c : Client) (ws : list wire_item) : Client * list effect :=
  match ws with
  | [] => (c, [])
  | Frame o p :: ws' =>
      let '(c', es) := processServerMessage c o p in
      let '(c'', es') := dispatch c' ws' in (c'', es ++ es')
  | Short _ :: ws' => dispatch c ws'
  end.

(** The number of [recv] outcomes that deliver data while bytes are
    pending. *)
Fixpoint chunks (es : list recv_ev) : nat :=
  match es with
  | [] => O
  | Chunk _ :: es' => S (chunks es')
  | _ :: es' => chunks es'
  end.

End SlimprotoRecv.

(* ================================================================== *)
(* THEOREMS *)
(* ================================================================== *)

Module SlimprotoFacts.
Import Slimproto.

(** Helper: the memory image of a STAT payload, field by field. *)
Lemma stat_bytes_layout (c : Client) (code : EventCode) (ts : Z) :
  let p := stat_bytes (stat_payload c code ts) in
  length p = 53%nat /\
  sub 0 4 p = ec_bytes code /\
  sub 4 3 p = [0; 0; 0] /\
  sub 7 4 p = be32 (c_streamBufSize c) /\
  sub 11 4 p = be32 (c_streamBufFull c) /\
  sub 15 4 p = be32 (Z.land (Z.shiftr (c_bytesReceived c) 32) (Z.ones 32)) /\
  sub 19 4 p = be32 (Z.land (c_bytesReceived c) 4294967295) /\
  sub 23 2 p = be16 65535 /\
  sub 25 4 p = be32 (c_jiffies c) /\
  sub 29 4 p = be32 (c_outputBufSize c) /\
  sub 33 4 p = be32 (c_outputBufFull c) /\
  sub 37 4 p = be32 (c_elapsedSeconds c) /\
  sub 41 2 p = be16 0 /\
  sub 43 4 p = be32 (c_elapsedMs c) /\
  sub 47 4 p = be32 ts /\
  sub 51 2 p = be16 0.
Proof. cbn. repeat split. Qed.

(** C1 (amended).  Every STAT message [sendStat] emits is the frame
    "STAT", a big-endian length of 53, and a payload of exactly 53 bytes:
    event code (4), three zero reserved bytes, stream-buffer size and
    fullness (u32 each), bytes received as high and low u32, signal
    strength 0xFFFF (u16), jiffies (u32), output-buffer size and fullness
    (u32 each), elapsed seconds (u32), voltage 0 (u16), elapsed
    milliseconds (u32), server timestamp (u32) and error code 0 (u16). *)
Theorem sendStat_payload_53 (c : Client) (code : EventCode) (ts : Z) :
  exists p,
    sendStat c code ts = Sent (bytes_of_string "STAT" ++ be32 53 ++ p) /\
    length p = 53%nat /\
    sub 0 4 p = ec_bytes code /\
    sub 4 3 p = [0; 0; 0] /\
    sub 7 4 p = be32 (c_streamBufSize c) /\
    sub 11 4 p = be32 (c_streamBufFull c) /\
    sub 15 4 p = be32 (Z.land (Z.shiftr (c_bytesReceived c) 32) (Z.ones 32)) /\
    sub 19 4 p = be32 (Z.land (c_bytesReceived c) 4294967295) /\
    sub 23 2 p = be16 65535 /\
    sub 25 4 p = be32 (c_jiffies c) /\
    sub 29 4 p = be32 (c_outputBufSize c) /\
    sub 33 4 p = be32 (c_outputBufFull c) /\
    sub 37 4 p = be32 (c_elapsedSeconds c) /\
    sub 41 2 p = be16 0 /\
    sub 43 4 p = be32 (c_elapsedMs c) /\
    sub 47 4 p = be32 ts /\
    sub 51 2 p = be16 0.
Proof.
  exists (stat_bytes (stat_payload c code ts)).
  split; [reflexivity |].
  exact (stat_bytes_layout c code ts).
Qed.

(** C1 (counterexample).  The STAT payload of a heartbeat reply is not
    57 bytes long: it is 53. *)
Lemma sendStat_payload_not_57 :
  length (stat_bytes (stat_payload client0 STMt 0)) <> 57%nat /\
  sendStat client0 STMt 0 =
    Sent (bytes_of_string "STAT" ++ be32 53 ++ stat_bytes (stat_payload client0 STMt 0)).
Proof. split; [cbn; lia | reflexivity]. Qed.

(** C4.  A strm command whose sub-command byte is 't' invokes no stream
    callback: the only effect is one STAT frame with event code "STMt"
    whose server-timestamp field (payload bytes 47..50) carries the
    32-bit value of the command's replay-gain-or-interval field. *)
Theorem strm_t_sends_one_STMt (c : Client) (data : list Z) :
  (sizeof_StrmCommand <= length data)%nat ->
  at_ data 0 = STRM_STATUS ->
  let ts := getReplayGain (strm_of_bytes data) in
  exists p,
    snd (handleStrm c data) = [Sent (bytes_of_string "STAT" ++ be32 53 ++ p)] /\
    length p = 53%nat /\
    sub 0 4 p = bytes_of_string "STMt" /\
    sub 47 4 p = be32 ts /\
    c_serverTimestamp (fst (handleStrm c data)) = ts.
Proof.
  intros Hlen Ht ts.
  exists (stat_bytes (stat_payload (set_serverTimestamp ts c) STMt ts)).
  unfold handleStrm.
  destruct (Nat.ltb_spec (length data) sizeof_StrmCommand) as [Hlt | _]; [lia |].
  cbn [command strm_of_bytes]. rewrite Ht.
  cbn -[stat_bytes stat_payload set_serverTimestamp].
  repeat split.
Qed.

(** Witness for C4: the heartbeat of scenario S6 (timestamp 0xDEADBEEF). *)
Lemma strm_t_sends_one_STMt_witness :
  (sizeof_StrmCommand <= length strm_t_example)%nat /\
  at_ strm_t_example 0 = STRM_STATUS /\
  getReplayGain (strm_of_bytes strm_t_example) = 3735928559 /\
  exists p,
    snd (handleStrm client0 strm_t_example) =
      [Sent (bytes_of_string "STAT" ++ be32 53 ++ p)] /\
    length p = 53%nat /\
    sub 0 4 p = bytes_of_string "STMt" /\
    sub 47 4 p = be32 (getReplayGain (strm_of_bytes strm_t_example)) /\
    c_serverTimestamp (fst (handleStrm client0 strm_t_example)) =
      getReplayGain (strm_of_bytes strm_t_example).
Proof.
  split; [unfold sizeof_StrmCommand; cbn; lia |]. split; [reflexivity |]. split; [reflexivity |].
  apply (strm_t_sends_one_STMt client0 strm_t_example); [unfold sizeof_StrmCommand; cbn; lia | reflexivity].
Defined.

(** C5 (amended).  For the strm-s head 73 31 66 33 33 32 30 20 20 20,
    ten zero bytes, 23 28 00 00, followed by an HTTP request, the
    dispatcher reads command 's', format 'f', rate code '3' (44100 Hz),
    channel code '2' (2 channels), and invokes the stream callback with
    the request (bytes 24..end); the packed header puts the server port
    at bytes 18..19, which are zero here, so the port decodes to 0, and
    the bytes 23 28 land in the server address, 0x23280000. *)
Theorem strm_s_example_dispatch (c : Client) (http : list Z) :
  c_hasStreamCb c = true ->
  let cmd := strm_of_bytes (strm_s_example ++ http) in
  handleStrm c (strm_s_example ++ http) = (c, [StreamCallback cmd http]) /\
  http = skipn 24 (strm_s_example ++ http) /\
  command cmd = STRM_START /\
  format cmd = 102 /\
  sampleRateFromCode (pcmSampleRate cmd) = 44100 /\
  channelsFromCode (pcmChannels cmd) = 2 /\
  getServerPort cmd = 0 /\
  getServerIp cmd = 589824000.
Proof.
  intros Hcb cmd.
  split; [| split; [reflexivity | repeat split]].
  unfold handleStrm.
  rewrite length_app. cbn [length strm_s_example repeat app].
  destruct (Nat.ltb_spec (24 + length http) sizeof_StrmCommand) as [Hlt | _];
    [unfold sizeof_StrmCommand in Hlt; lia |].
  rewrite Hcb.
  destruct (Nat.ltb_spec sizeof_StrmCommand (24 + length http)) as [_ | Hge].
  - reflexivity.
  - unfold sizeof_StrmCommand in Hge.
    destruct http; [reflexivity | cbn in Hge; lia].
Qed.

(** Witness for C5. *)
Lemma strm_s_example_dispatch_witness :
  let http := bytes_of_string "GET /stream.mp3?player=00:11:22:33:44:55 HTTP/1.0" in
  c_hasStreamCb client0 = true /\
  handleStrm client0 (strm_s_example ++ http) =
    (client0, [StreamCallback (strm_of_bytes (strm_s_example ++ http)) http]).
Proof.
  intros http. split; [reflexivity |].
  exact (proj1 (strm_s_example_dispatch client0 http eq_refl)).
Defined.

(** C5 (counterexample).  The server port of the example does not decode
    to 0x2328 = 9000. *)
Lemma strm_s_example_port_not_9000 :
  getServerPort (strm_of_bytes (strm_s_example ++ bytes_of_string "GET / HTTP/1.0")) <> 9000.
Proof. vm_compute. discriminate. Qed.

End SlimprotoFacts.

(* ------------------------------------------------------------------ *)
Module HttpFacts.
Import Http.

Section IcyStrip.
Variable M : Z.

Lemma icy_audio_fuel f1 f2 u raw :
  (length raw <= f1)%nat -> (length raw <= f2)%nat ->
  icy_audio M f1 u raw = icy_audio M f2 u raw.
Proof.
  revert f2 u raw; induction f1 as [|f1 IH]; intros f2 u raw H1 H2.
  - destruct raw; [destruct f2; reflexivity | cbn in H1; lia].
  - destruct f2 as [|f2]; [destruct raw; [reflexivity | cbn in H2; lia] |].
    destruct raw as [|b r]; [reflexivity |]. cbn in H1, H2 |- *.
    destruct (0 <? u); [f_equal |]; apply IH;
      rewrite ?length_skipn; lia.
Qed.

Lemma icy_strip_nil u : icy_strip M u [] = [].
Proof. reflexivity. Qed.

Lemma icy_strip_cons_audio u b r :
  0 < u -> icy_strip M u (b :: r) = b :: icy_strip M (u - 1) r.
Proof.
  intros Hu. unfold icy_strip. cbn. replace (0 <? u) with true by lia.
  reflexivity.
Qed.

Lemma icy_strip_cons_meta u b r :
  u <= 0 -> icy_strip M u (b :: r) = icy_strip M M (skipn (Z.to_nat (b * 16)) r).
Proof.
  intros Hu. unfold icy_strip. cbn. replace (0 <? u) with false by lia.
  apply icy_audio_fuel; rewrite ?length_skipn; lia.
Qed.

Lemma icy_strip_app u bs r :
  Z.of_nat (length bs) <= u ->
  icy_strip M u (bs ++ r) = bs ++ icy_strip M (u - Z.of_nat (length bs)) r.
Proof.
  revert u; induction bs as [|b bs IH]; intros u Hu; cbn [app length] in *.
  - f_equal. lia.
  - rewrite icy_strip_cons_audio by lia. rewrite IH by lia. do 3 f_equal. lia.
Qed.

End IcyStrip.

Lemma cfg_eq_refl h : cfg_eq h h.
Proof. unfold cfg_eq; auto. Qed.

Lemma cfg_eq_trans h1 h2 h3 : cfg_eq h1 h2 -> cfg_eq h2 h3 -> cfg_eq h1 h3.
Proof. unfold cfg_eq; intuition congruence. Qed.

Lemma cfg_eq_set_connected h h' b : cfg_eq h h' -> cfg_eq h (set_connected b h').
Proof. unfold cfg_eq; cbn; auto. Qed.

Lemma recv_cases h n r h' :
  recv h n = (r, h') ->
  cfg_eq h h' /\ evs h' = tail (evs h) /\
  (evs h = [] -> r = RErr false) /\
  ((dead h' = true /\ r = RErr false /\ sock h' = sock h)
   \/ (dead h = false /\ dead h' = false /\ sock h' = sock h /\ r = RErr true)
   \/ (dead h = false /\ dead h' = false /\ sock h' = sock h /\ r = RZero /\
       (sock h = [] \/ n <= 0))
   \/ (dead h = false /\ dead h' = false /\
       exists m, (0 < m)%nat /\ Z.of_nat m <= n /\ (m <= length (sock h))%nat /\
         r = RBytes (firstn m (sock h)) /\ sock h' = skipn m (sock h))).
Proof.
  unfold recv. intros E.
  destruct (evs h) as [|e es] eqn:Hev.
  { inversion E; subst. unfold cfg_eq; cbn. intuition. }
  destruct (dead h) eqn:Hd.
  { inversion E; subst. unfold cfg_eq; cbn. intuition congruence. }
  destruct e as [k| |].
  - destruct (sock h) as [|b r0] eqn:Hs.
    + inversion E; subst. unfold cfg_eq; cbn.
      intuition congruence.
    + destruct (n <=? 0) eqn:Hn.
      * inversion E; subst. unfold cfg_eq; cbn.
        split; [intuition|]. split; [reflexivity|]. split; [congruence|].
        right; right; left. intuition lia.
      * inversion E; subst. unfold cfg_eq; cbn.
        split; [intuition|]. split; [reflexivity|]. split; [congruence|].
        right; right; right. split; [reflexivity|]. split; [reflexivity|].
        exists (Nat.min (S k) (Nat.min (Z.to_nat n) (length (b :: r0)))).
        split; [|split; [|split; [|split; reflexivity]]];
          cbn [length] in *; lia.
  - inversion E; subst. unfold cfg_eq; cbn. intuition congruence.
  - inversion E; subst. unfold cfg_eq; cbn. intuition congruence.
Qed.

Lemma recv_dead h n r h' : recv h n = (r, h') -> dead h = true -> dead h' = true.
Proof.
  intros E Hd. apply recv_cases in E as (_ & _ & _ & C). intuition congruence.
Qed.

Ltac recv_case R :=
  let Hc := fresh "Hc" in let Hev := fresh "Hev" in let Hemp := fresh "Hemp" in
  let C := fresh "C" in
  apply recv_cases in R as (Hc & Hev & Hemp & C);
  destruct C as [(?Hd' & -> & ?Hs')
               | [(?Hd & ?Hd' & ?Hs' & ->)
               | [(?Hd & ?Hd' & ?Hs' & -> & ?Hz)
               | (?Hd & ?Hd' & ?m & ?Hm0 & ?Hmn & ?Hml & -> & ?Hs')]]].

Lemma recv_progress h n r h' f :
  recv h n = (r, h') -> r <> RErr false -> (length (evs h) < S f)%nat ->
  (length (evs h') < f)%nat.
Proof.
  intros R Hr Hl. apply recv_cases in R as (_ & Hev & Hemp & _).
  destruct (evs h) as [|e es]; [specialize (Hemp eq_refl); congruence|].
  rewrite Hev. cbn in *. lia.
Qed.

Lemma skip_len_loop_spec fuel h r h' :
  (length (evs h) < fuel)%nat -> skip_len_loop fuel h = (r, h') ->
  cfg_eq h h' /\ (dead h = true -> dead h' = true) /\
  match r with
  | Some b => dead h = false /\ dead h' = false /\ sock h = b :: sock h'
  | None => sock h' = sock h /\ (dead h' = true \/ sock h = [])
  end.
Proof.
  revert h; induction fuel as [|f IH]; intros h Hl E; [lia|].
  cbn in E. destruct (recv h 1) as [r0 h0] eqn:R.
  pose proof R as R'. recv_case R.
  - inversion E; subst. cbn. split; [apply cfg_eq_set_connected; auto|].
    split; [auto|]. auto.
  - assert (Hp : (length (evs h0) < f)%nat)
      by (apply (recv_progress h 1 (RErr true) h0 f); congruence).
    destruct (IH h0 Hp E) as (Hc2 & Hd2 & Hr).
    split; [eapply cfg_eq_trans; eauto|]. split; [congruence|].
    destruct r; [intuition congruence | rewrite Hs' in Hr; intuition].
  - assert (sock h = []) by (destruct Hz; [auto | lia]). inversion E; subst. cbn.
    split; [apply cfg_eq_set_connected; auto|]. split; [congruence|]. auto.
  - assert (m = 1%nat) by lia. subst m.
    destruct (sock h) as [|b rest] eqn:Hs; [cbn in Hml; lia|].
    cbn in E. inversion E; subst. split; [auto|]. split; [congruence|].
    rewrite Hs'. auto.
Qed.

Lemma skipn_skipn_Z (m : nat) (rem : Z) (s : list Z) :
  Z.of_nat m <= rem ->
  skipn (Z.to_nat (rem - Z.of_nat m)) (skipn m s) = skipn (Z.to_nat rem) s.
Proof. intros H. rewrite skipn_skipn. f_equal. lia. Qed.

Lemma discard_loop_spec fuel rem h ok h' :
  (length (evs h) < fuel)%nat -> discard_loop fuel rem h = (ok, h') ->
  cfg_eq h h' /\ (dead h = true -> dead h' = true) /\
  (ok = true -> dead h' = dead h /\
     (dead h = false -> sock h' = skipn (Z.to_nat rem) (sock h))) /\
  (ok = false -> dead h' = true \/
     (sock h' = [] /\ skipn (Z.to_nat rem) (sock h) = [])).
Proof.
  revert rem h; induction fuel as [|f IH]; intros rem h Hl E; [lia|].
  cbn in E. destruct (rem <=? 0) eqn:Hrem.
  { inversion E; subst. split; [apply cfg_eq_refl|]. split; [auto|].
    split; [|discriminate]. intros _. split; [reflexivity|].
    intros _. replace (Z.to_nat rem) with 0%nat by lia. reflexivity. }
  destruct (recv h (Z.min rem 256)) as [r0 h0] eqn:R.
  pose proof R as R'. recv_case R.
  - inversion E; subst. split; [apply cfg_eq_set_connected; auto|].
    split; [auto|]. split; [discriminate|]. auto.
  - assert (Hp : (length (evs h0) < f)%nat)
      by (apply (recv_progress h (Z.min rem 256) (RErr true) h0 f); congruence).
    destruct (IH rem h0 Hp E) as (Hc2 & Hd2 & Ht & Hf).
    split; [eapply cfg_eq_trans; eauto|]. split; [congruence|].
    split.
    + intros Hok. destruct (Ht Hok) as [Hd3 Hs3]. split; [congruence|].
      intros _. rewrite Hs3 by auto. congruence.
    + intros Hok. destruct (Hf Hok) as [|[Hs3 Hs4]]; [auto|].
      right. rewrite <- Hs'. auto.
  - assert (Hs : sock h = []) by (destruct Hz; [auto | lia]). inversion E; subst. cbn.
    split; [apply cfg_eq_set_connected; auto|]. split; [congruence|].
    split; [discriminate|]. right. rewrite Hs', Hs. rewrite skipn_nil. auto.
  - rewrite length_firstn in E.
    replace (Nat.min m (length (sock h))) with m in E by lia.
    assert (Hp : (length (evs h0) < f)%nat)
      by (apply (recv_progress h (Z.min rem 256) (RBytes (firstn m (sock h))) h0 f); congruence).
    destruct (IH _ h0 Hp E) as (Hc2 & Hd2 & Ht & Hf).
    split; [eapply cfg_eq_trans; eauto|]. split; [congruence|].
    split.
    + intros Hok. destruct (Ht Hok) as [Hd3 Hs3]. split; [congruence|].
      intros _. rewrite Hs3 by auto. rewrite Hs'.
      apply skipn_skipn_Z. lia.
    + intros Hok. destruct (Hf Hok) as [|[Hs3 Hs4]]; [auto|].
      right. split; [auto|]. rewrite Hs', skipn_skipn_Z in Hs4 by lia. auto.
Qed.

Lemma skipIcyMetadata_spec h ok h' :
  skipIcyMetadata h = (ok, h') ->
  cfg_eq h h' /\ (dead h = true -> dead h' = true) /\
  (ok = true -> dead h = false /\ dead h' = false /\
     exists b r, sock h = b :: r /\ sock h' = skipn (Z.to_nat (b * 16)) r) /\
  (ok = false -> dead h' = true \/
     (sock h' = [] /\ (sock h = [] \/
        exists b r, sock h = b :: r /\ skipn (Z.to_nat (b * 16)) r = []))).
Proof.
  unfold skipIcyMetadata. intros E.
  destruct (skip_len_loop (S (length (evs h))) h) as [[b|] h1] eqn:E1;
    apply skip_len_loop_spec in E1 as (Hc1 & Hd1 & Hr1); try lia.
  - destruct Hr1 as (Hd & Hd1' & Hs1).
    destruct (b * 16 =? 0) eqn:Hz.
    + inversion E; subst. split; [auto|]. split; [auto|].
      split; [|discriminate]. intros _. split; [auto|]. split; [auto|].
      exists b, (sock h'). split; [auto|].
      replace (Z.to_nat (b * 16)) with 0%nat by lia. reflexivity.
    + apply discard_loop_spec in E as (Hc2 & Hd2 & Ht & Hf); [|lia].
      split; [eapply cfg_eq_trans; eauto|]. split; [congruence|].
      split.
      * intros Hok. destruct (Ht Hok) as [Hd3 Hs3]. split; [auto|].
        split; [congruence|]. exists b, (sock h1). split; [auto|]. auto.
      * intros Hok. destruct (Hf Hok) as [|[Hs3 Hs4]]; [auto|].
        right. split; [auto|]. right. exists b, (sock h1). auto.
  - inversion E; subst. split; [auto|]. split; [auto|].
    split; [discriminate|]. intros _. destruct Hr1 as [Hs1 [|]]; [auto|].
    right. split; [congruence|]. auto.
Qed.

Lemma readRaw_icy M full d h c n bs h2 :
  icy_inv M full d h -> 0 < c <= icyBytesUntilMeta h ->
  readRaw h c = (n, bs, h2) ->
  icy_inv M full (d ++ bs)
    (if 0 <? n then set_counters (u64 (bytesReceived h2 + n)) (icyBytesUntilMeta h2 - n) h2
     else h2).
Proof.
  intros (Hm & Hu & [t Ht] & Ha) Hcr E. unfold readRaw in E.
  destruct (negb (sockOpen h)).
  { inversion E; subst n bs h2. unfold icy_inv; cbn. rewrite app_nil_r.
    split; [auto|]. split; [auto|]. split; [eauto|]. auto. }
  destruct (recv h c) as [r0 h0] eqn:R. recv_case R;
    destruct Hc as (Ho & Hmi & Hu0 & Hbi).
  - inversion E; subst n bs h2. unfold icy_inv; cbn. rewrite app_nil_r.
    split; [congruence|]. split; [lia|]. split; [eauto|]. cbn; congruence.
  - inversion E; subst n bs h2. unfold icy_inv; cbn. rewrite app_nil_r.
    split; [congruence|]. split; [lia|]. split; [eauto|].
    intros _. rewrite Hu0, Hs'. auto.
  - assert (Hs : sock h = []) by (destruct Hz; [auto | lia]).
    inversion E; subst n bs h2. unfold icy_inv; cbn. rewrite app_nil_r.
    split; [congruence|]. split; [lia|]. split; [eauto|].
    intros _. rewrite Hu0, Hs', Hs. rewrite <- Hs. auto.
  - rewrite length_firstn in E.
    replace (Nat.min m (length (sock h))) with m in E by lia.
    inversion E; subst n bs h2. replace (0 <? Z.of_nat m) with true by lia. unfold icy_inv; cbn.
    assert (Hsplit : full = (d ++ firstn m (sock h)) ++
                            icy_strip M (icyBytesUntilMeta h - Z.of_nat m) (skipn m (sock h))).
    { rewrite Ha by auto. rewrite <- app_assoc. f_equal.
      pose proof (icy_strip_app M (icyBytesUntilMeta h) (firstn m (sock h))
                    (skipn m (sock h))) as X.
      rewrite length_firstn, take_drop in X.
      replace (Nat.min m (length (sock h))) with m in X by lia.
      apply X. lia. }
    split; [congruence|]. split; [lia|]. split; [eauto|].
    intros _. rewrite Hu0, Hs'. auto.
Qed.

Lemma read_icy M full d h maxLen n bs h' :
  0 < M -> 0 < maxLen -> icy_inv M full d h -> read h maxLen = (n, bs, h') ->
  icy_inv M full (d ++ bs) h'.
Proof.
  intros HM Hmax Inv E. pose proof Inv as (Hm & Hu & [t Ht] & Ha).
  unfold read in E.
  destruct (negb (sockOpen h)).
  { inversion E; subst n bs h'. rewrite app_nil_r. auto. }
  replace (icyMetaInt h =? 0) with false in E by lia.
  destruct (Z.min maxLen (icyBytesUntilMeta h) =? 0) eqn:Hc0.
  - destruct (skipIcyMetadata h) as [ok h1] eqn:S.
    apply skipIcyMetadata_spec in S as (Hc1 & Hd1 & Ht1 & Hf1).
    destruct Hc1 as (Ho1 & Hm1 & Hu1 & Hb1).
    assert (Hu0 : icyBytesUntilMeta h = 0) by lia.
    destruct ok.
    + destruct (Ht1 eq_refl) as (Hd & Hd1' & b & r & Hs & Hs1).
      cbn [negb] in E.
      destruct (readRaw (set_counters (bytesReceived h1) (icyMetaInt h1) h1)
                  (Z.min maxLen (icyBytesUntilMeta
                     (set_counters (bytesReceived h1) (icyMetaInt h1) h1))))
        as [[n0 bs0] h2] eqn:RR.
      inversion E; subst n0 bs0 h'.
      eapply readRaw_icy; [| | exact RR].
      * unfold icy_inv; cbn. split; [congruence|]. split; [lia|].
        split; [eauto|]. intros _. rewrite Ha by auto. f_equal.
        rewrite Hu0, Hs, Hm1, Hm, Hs1. apply icy_strip_cons_meta. lia.
      * cbn. lia.
    + cbn [negb] in E. inversion E; subst n bs h'.
      rewrite app_nil_r. unfold icy_inv. split; [congruence|]. split; [lia|].
      split; [eauto|]. intros Hd1'.
      assert (Hd : dead h = false)
        by (destruct (dead h); [specialize (Hd1 eq_refl); congruence | reflexivity]).
      destruct (Hf1 eq_refl) as [|[Hs1 Hs]]; [congruence|].
      rewrite Ha by auto. rewrite Hu1, Hu0, Hs1, icy_strip_nil. f_equal.
      destruct Hs as [-> | (b & r & -> & Hr)]; [reflexivity|].
      rewrite icy_strip_cons_meta, Hr by lia. reflexivity.
  - cbn [negb] in E.
    destruct (readRaw h (Z.min maxLen (icyBytesUntilMeta h))) as [[n0 bs0] h2] eqn:RR.
    inversion E; subst n0 bs0 h'.
    refine (readRaw_icy M full d h _ n bs h2 Inv _ RR). lia.
Qed.

Ltac destruct_ifs_in E :=
  repeat match type of E with
         | context [if ?b then _ else _] => destruct b eqn:?
         end.

Lemma header_loop_spec fuel rb size es h hdr h' :
  header_loop fuel rb size es h = (Some hdr, h') -> cfg_eq h h' /\ dead h' = false.
Proof.
  revert rb size es h; induction fuel as [|f IH]; intros rb size es h E;
    [discriminate|].
  cbn in E. destruct (recv h 1) as [r0 h0] eqn:R. recv_case R.
  - discriminate.
  - destruct (IH _ _ _ _ E) as [Hc2 Hd2]. split; [eapply cfg_eq_trans; eauto | auto].
  - discriminate.
  - destruct (sock h) as [|b rest]; [cbn in Hml; lia|].
    destruct m as [|m]; [lia|]. cbn in E. destruct_ifs_in E;
      try discriminate;
      try (inversion E; subst; auto; fail);
      try (destruct (IH _ _ _ _ E) as [Hc2 Hd2]; split; [eapply cfg_eq_trans; eauto | auto]).
Qed.

Lemma connect_icy h h0 :
  connect h = (true, h0) -> icyMetaInt h0 <> 0 ->
  icyBytesUntilMeta h0 = icyMetaInt h0 /\ 0 < icyMetaInt h0 /\
  dead h0 = false /\ sockOpen h0 = true.
Proof.
  unfold connect, parseResponseHeaders. intros E Hm.
  destruct (header_loop _ [] 0 0 _) as [[hdr|] h1] eqn:E1; [|discriminate].
  apply header_loop_spec in E1 as [(Ho & Hmi & Hu & _) Hd]. cbn in Ho, Hmi, Hu.
  destruct (parse_metaint hdr) as [m|] eqn:Hp.
  - destruct (0 <? m) eqn:Hpos; inversion E; subst h0; cbn in *; repeat split; auto; lia.
  - inversion E; subst h0; cbn in *; repeat split; auto; lia.
Qed.

Lemma do_read_icy M full d h o n bs h' :
  0 < M -> 0 < op_maxLen o -> icy_inv M full d h -> do_read h o = (n, bs, h') ->
  icy_inv M full (d ++ bs) h'.
Proof.
  intros HM Hmax Inv E. destruct o as [m | p m]; cbn in Hmax, E.
  - eapply read_icy; eauto.
  - unfold readWithTimeout in E. destruct (negb (sockOpen h)).
    { inversion E; subst. rewrite app_nil_r. auto. }
    destruct p; try (eapply read_icy; eauto; fail);
      inversion E; subst; rewrite app_nil_r; auto;
      destruct Inv as (? & ? & ? & Ha); unfold icy_inv; cbn; auto.
Qed.

Lemma run_reads_icy M full ops d h out h' :
  0 < M -> Forall (fun o => 0 < op_maxLen o) ops -> icy_inv M full d h ->
  run_reads h ops = (out, h') -> icy_inv M full (d ++ out) h'.
Proof.
  revert d h out; induction ops as [|o os IH]; intros d h out HM Hall Inv E.
  - inversion E; subst. rewrite app_nil_r. auto.
  - cbn in E. destruct (do_read h o) as [[n bs] h1] eqn:D.
    destruct (run_reads h1 os) as [rest h2] eqn:RR. inversion E; subst.
    inversion Hall; subst. rewrite app_assoc. eapply IH; eauto.
    eapply do_read_icy; eauto.
Qed.

(** C3: after [connect] has accepted a response whose headers give
    [icy-metaint] = M (M non-zero), the bytes that any sequence of
    [read] / [readWithTimeout] calls with a positive buffer size hands to
    the caller form a prefix of [icy_strip M M raw], the raw socket
    stream after the headers with every block (length byte L and L*16
    metadata bytes, after each M audio bytes) removed.  While the
    connection has not failed, the remaining stripped stream is exactly
    what the socket still holds, and once the socket stream is exhausted
    the delivered bytes are the whole stripped stream. *)
Theorem icy_reads_deliver_stripped_stream h h0 M ops out h1 :
  connect h = (true, h0) -> icyMetaInt h0 = M -> M <> 0 ->
  Forall (fun o => 0 < op_maxLen o) ops ->
  run_reads h0 ops = (out, h1) ->
  (exists rest, icy_strip M M (sock h0) = out ++ rest) /\
  (dead h1 = false ->
     icy_strip M M (sock h0) = out ++ icy_strip M (icyBytesUntilMeta h1) (sock h1)) /\
  (dead h1 = false -> sock h1 = [] -> out = icy_strip M M (sock h0)).
Proof.
  intros Hc HM HM0 Hall Hr.
  destruct (connect_icy h h0 Hc) as (Hu & Hpos & Hd & Ho); [congruence|].
  assert (Inv : icy_inv M (icy_strip M M (sock h0)) [] h0).
  { unfold icy_inv. split; [auto|]. split; [lia|]. split; [exists (icy_strip M M (sock h0)); reflexivity|].
    intros _. rewrite Hu, HM. reflexivity. }
  destruct (run_reads_icy M _ ops [] h0 out h1 ltac:(lia) Hall Inv Hr)
    as (_ & _ & [t Ht] & Ha).
  split; [eauto|]. split; [auto|].
  intros Hd1 Hs1. rewrite (Ha Hd1), Hs1, icy_strip_nil, app_nil_r. reflexivity.
Qed.

(** Instance: the example ICY response with interval 4 and two
    metadata blocks; the reads deliver exactly bytes 1..10. *)
Lemma icy_reads_deliver_stripped_stream_witness :
  fst (run_reads (snd (connect icy_client)) icy_ops) = [1; 2; 3; 4; 5; 6; 7; 8; 9; 10] /\
  ((exists rest, icy_strip 4 4 (sock (snd (connect icy_client))) =
                 fst (run_reads (snd (connect icy_client)) icy_ops) ++ rest) /\
   (dead (snd (run_reads (snd (connect icy_client)) icy_ops)) = false ->
      icy_strip 4 4 (sock (snd (connect icy_client))) =
      fst (run_reads (snd (connect icy_client)) icy_ops) ++
      icy_strip 4 (icyBytesUntilMeta (snd (run_reads (snd (connect icy_client)) icy_ops)))
        (sock (snd (run_reads (snd (connect icy_client)) icy_ops)))) /\
   (dead (snd (run_reads (snd (connect icy_client)) icy_ops)) = false ->
      sock (snd (run_reads (snd (connect icy_client)) icy_ops)) = [] ->
      fst (run_reads (snd (connect icy_client)) icy_ops) =
      icy_strip 4 4 (sock (snd (connect icy_client))))).
Proof.
  split; [vm_compute; reflexivity|].
  apply (icy_reads_deliver_stripped_stream icy_client (snd (connect icy_client)) 4 icy_ops).
  - vm_compute. reflexivity.
  - vm_compute. reflexivity.
  - lia.
  - repeat constructor.
  - vm_compute. reflexivity.
Defined.

(** C10: a response whose header terminator ends at byte 16385, so it is
    not within the first 16384 bytes read, is accepted by [connect]:
    the socket stays open and the headers are taken as parsed.  The
    size check runs after the terminator test, so only a header block
    of 16385 bytes or more without a terminator is refused. *)
Theorem connect_accepts_terminator_at_16385 :
  find [13; 10; 13; 10] (firstn 16384 big_header) = None /\
  let (ok, h) := connect (client_on big_header 16385) in
  ok = true /\ sockOpen h = true /\ httpStatus h = 200 /\
  length (responseHeaders h) = 16385%nat.
Proof.
  split; [vm_compute; reflexivity|].
  vm_compute. repeat split.
Qed.

End HttpFacts.

(* ------------------------------------------------------------------ *)
Module PcmFacts.
Import Pcm.

Lemma fe_eq_refl s : fe_eq s s.
Proof. split; reflexivity. Qed.

Lemma fe_eq_trans s1 s2 s3 : fe_eq s1 s2 -> fe_eq s2 s3 -> fe_eq s1 s3.
Proof. unfold fe_eq; intuition congruence. Qed.

#[local] Hint Resolve fe_eq_refl : core.

Ltac fe_simpl := unfold fe_eq, fail_state; cbn; auto.

Lemma wav_scan_fe fuel p pos ff fd ds s r :
  wav_scan fuel p pos ff fd ds s = Some r -> fe_eq s (scan_state r).
Proof.
  revert pos ff fd ds s; induction fuel as [|f IH]; intros pos ff fd ds s E;
    cbn in E; [discriminate|].
  repeat case_match; simplify_eq; try fe_simpl;
    match goal with
    | H : wav_scan f _ _ _ _ _ _ = Some _ |- _ =>
        eapply fe_eq_trans; [|exact (IH _ _ _ _ _ H)]; fe_simpl
    end.
Qed.

Lemma aiff_scan_fe ext fuel p pos fc fs ds s r :
  aiff_scan ext fuel p pos fc fs ds s = Some r -> fe_eq s (scan_state r).
Proof.
  revert pos fc fs ds s; induction fuel as [|f IH]; intros pos fc fs ds s E;
    cbn in E; [discriminate|].
  repeat case_match; simplify_eq; try fe_simpl;
    match goal with
    | H : aiff_scan _ f _ _ _ _ _ _ = Some _ |- _ =>
        eapply fe_eq_trans; [|exact (IH _ _ _ _ _ H)]; fe_simpl
    end.
Qed.

Lemma detectContainer_fe s ok s' : detectContainer s = (ok, s') -> fe_eq s s'.
Proof. unfold detectContainer. intros E. repeat case_match; simplify_eq; fe_simpl. Qed.

Lemma parseWavHeader_fe s b s' : parseWavHeader s = Some (b, s') -> fe_eq s s'.
Proof.
  unfold parseWavHeader. intros E. repeat case_match; simplify_eq; try fe_simpl;
    match goal with
    | H : wav_scan _ _ _ _ _ _ _ = Some _ |- _ =>
        apply wav_scan_fe in H; cbn in H; eapply fe_eq_trans; [exact H|]; fe_simpl
    end.
Qed.

Lemma parseAiffHeader_fe ext s b s' : parseAiffHeader ext s = Some (b, s') -> fe_eq s s'.
Proof.
  unfold parseAiffHeader. intros E. repeat case_match; simplify_eq; try fe_simpl;
    match goal with
    | H : aiff_scan _ _ _ _ _ _ _ _ = Some _ |- _ =>
        apply aiff_scan_fe in H; cbn in H; eapply fe_eq_trans; [exact H|]; fe_simpl
    end.
Qed.

Lemma prepare_fe ext s b s' :
  prepare ext s = Some (b, s') -> fe_eq s s' /\ (b = true -> m_state s' = DATA).
Proof.
  unfold prepare. intros E.
  destruct (if bool_decide (m_state s = DETECT) then detectContainer s else (true, s))
    as [ok s1] eqn:D.
  assert (H1 : fe_eq s s1).
  { destruct (bool_decide _); [eapply detectContainer_fe; eauto | simplify_eq; auto]. }
  destruct ok; cbn in E; [|simplify_eq; split; [auto | discriminate]].
  destruct (match m_state s1 with
            | PARSE_WAV => parseWavHeader s1
            | PARSE_AIFF => parseAiffHeader ext s1
            | _ => Some (true, s1)
            end) as [[b2 s2]|] eqn:P; [|discriminate].
  assert (H2 : fe_eq s1 s2).
  { destruct (m_state s1); simplify_eq; auto;
      [eapply parseWavHeader_fe | eapply parseAiffHeader_fe]; eauto. }
  destruct b2; simplify_eq; (split; [eapply fe_eq_trans; eauto|]).
  - intros Hb. apply bool_decide_eq_true in Hb. auto.
  - discriminate.
Qed.

Lemma bytes_per_frame_nonneg s : 0 <= bytes_per_frame s.
Proof. unfold bytes_per_frame, u32. apply Z.mod_pos_bound. lia. Qed.

Lemma avail_bytes_nonneg s : 0 <= avail_bytes s.
Proof. unfold avail_bytes, len. destruct (0 <? m_dataRemaining s) eqn:D; lia. Qed.

(** C8: [readDecoded] turns [is_finished()] on in exactly two
    situations.  (a) EOF has been signalled and the call reached the
    conversion code without a whole frame to convert: fewer bytes are
    available (within the data-chunk limit) than one frame, or
    [maxFrames] is 0; the bytes of a trailing partial frame may stay
    buffered.  (b) The call converted [n > 0] frames that were exactly
    the bytes left in the container's data chunk, so [m_dataRemaining]
    dropped from [n * bytesPerFrame] to 0. *)
Theorem readDecoded_finish_cases ext s maxFrames n out s' :
  0 <= maxFrames -> m_finished s = false ->
  readDecoded ext s maxFrames = Some (n, out, s') -> m_finished s' = true ->
  (m_eof s = true /\ m_eof s' = true /\ n = 0 /\ m_state s' = DATA /\
   (avail_bytes s' < bytes_per_frame s' \/ maxFrames = 0))
  \/ (exists s2, prepare ext s = Some (true, s2) /\ 0 < n /\
        m_dataRemaining s2 = n * bytes_per_frame s2 /\ m_dataRemaining s' = 0).
Proof.
  intros Hm Hf E Hf'. unfold readDecoded in E. rewrite Hf in E.
  destruct (m_error s) eqn:He; cbn in E; [simplify_eq; congruence|].
  destruct (prepare ext s) as [[b s2]|] eqn:P; [|discriminate].
  pose proof (prepare_fe ext s b s2 P) as [[Hf2 He2] Hst].
  destruct b; [|simplify_eq; congruence].
  specialize (Hst eq_refl).
  pose proof (bytes_per_frame_nonneg s2). pose proof (avail_bytes_nonneg s2).
  destruct (bytes_per_frame s2 =? 0) eqn:B0; [simplify_eq; congruence|].
  destruct (Z.min (avail_bytes s2 / bytes_per_frame s2) maxFrames =? 0) eqn:F0.
  - destruct (m_eof s2) eqn:Ee; simplify_eq; cbn in Hf'; [|congruence].
    left. split; [congruence|]. split; [cbn; congruence|]. split; [reflexivity|].
    split; [cbn; exact Hst|].
    assert (0 <= avail_bytes s2 / bytes_per_frame s2) by (apply Z.div_pos; lia).
    change (avail_bytes s2 < bytes_per_frame s2 \/ maxFrames = 0).
    destruct (Z.lt_ge_cases (avail_bytes s2) (bytes_per_frame s2)); [auto|].
    right. assert (0 < avail_bytes s2 / bytes_per_frame s2)
      by (apply Z.div_str_pos; lia). lia.
  - simplify_eq. cbn in Hf' |- *.
    destruct (0 <? m_dataRemaining s2) eqn:D; cbn in Hf' |- *; [|congruence].
    rewrite Hf2, Hf in Hf'. cbn in Hf'.
    right. exists s2. split; [reflexivity|].
    assert (0 <= avail_bytes s2 / bytes_per_frame s2) by (apply Z.div_pos; lia).
    lia.
Qed.

(** Instance: the second [readDecoded] of [raw_ops] (raw 16-bit
    stereo, one byte of a partial frame left, EOF signalled). *)
Lemma readDecoded_finish_cases_witness :
  m_finished (snd c8_result) = true /\
  ((m_eof c8_state = true /\ m_eof (snd c8_result) = true /\ fst (fst c8_result) = 0 /\
    m_state (snd c8_result) = DATA /\
    (avail_bytes (snd c8_result) < bytes_per_frame (snd c8_result) \/ 1024 = 0))
   \/ (exists s2, prepare ext0 c8_state = Some (true, s2) /\ 0 < fst (fst c8_result) /\
         m_dataRemaining s2 = fst (fst c8_result) * bytes_per_frame s2 /\
         m_dataRemaining (snd c8_result) = 0)).
Proof.
  split; [vm_compute; reflexivity|].
  apply (readDecoded_finish_cases ext0 c8_state 1024 (fst (fst c8_result))
           (snd (fst c8_result)) (snd c8_result)).
  - lia.
  - vm_compute. reflexivity.
  - vm_compute. reflexivity.
  - vm_compute. reflexivity.
Defined.

(** C8, counterexample: raw 16-bit stereo PCM, five bytes, EOF.  The
    first [readDecoded] converts one frame; the second finds one byte,
    less than a frame, and sets [is_finished()] with that byte still
    buffered. *)
Lemma raw_pcm_finishes_with_partial_frame :
  match run ext0 pcm0 raw_ops with
  | Some (outs, s) =>
      outs = [(1, [33619968; 67305472]); (0, [])] /\
      m_eof s = true /\ m_finished s = true /\ m_dataBuf s = [5]
  | None => False
  end.
Proof. vm_compute. repeat split. Qed.





(** C2: a WAVE_FORMAT_EXTENSIBLE file with 20 valid bits in 24-bit
    containers (mono; samples 1 and 2).  [parseWavHeader] takes
    [bitDepth = 20] (and computes [m_shift = 12]), but [convertSamples]
    reads [20 / 8 = 2]-byte samples shifted by 16: three outputs, none
    of them the 20-bit samples shifted left by 12. *)
Theorem wav_20bit_samples_misaligned ext :
  match readDecoded ext (feed pcm0 wav20_example) 1024 with
  | Some (n, out, s) =>
      bitDepth (m_format s) = 20 /\ m_shift s = 12 /\ n = 3 /\
      out = [1048576; 536870912; 0] /\
      map (msb_aligned 20) [1; 2] = [4096; 8192] /\ out <> map (msb_aligned 20) [1; 2]
  | None => False
  end.
Proof. vm_compute. repeat split; try discriminate. Qed.

End PcmFacts.

(* ================================================================== *)
(** ** DSD stream reader *)

Module DsdFacts.
Import Dsd.

Section NatIndices.
Local Open Scope nat_scope.

Lemma lookup_map_list {A B : Type} (f : A -> B) (l : list A) (i : nat) :
  map f l !! i = option_map f (l !! i).
Proof. revert i; induction l as [|x l IH]; intros [|i]; cbn; auto. Qed.

Lemma lookup_map_seq (f : nat -> Z) (n i : nat) :
  (i < n)%nat -> map f (seq 0 n) !! i = Some (f i).
Proof. intros Hi. rewrite lookup_map_list, lookup_seq_lt by exact Hi. reflexivity. Qed.

(** [k] written as [B * q + r] with [r < B]. *)
Lemma div_mod_of (B q r k : nat) :
  (r < B)%nat -> k = (B * q + r)%nat -> k / B = q /\ k mod B = r.
Proof.
  intros Hr ->. split.
  - symmetry. apply (Nat.div_unique _ _ _ r); lia.
  - symmetry. apply (Nat.mod_unique _ _ q); lia.
Qed.

Lemma div_mod_bounds (B k : nat) :
  (0 < B)%nat -> k = (B * (k / B) + k mod B)%nat /\ (k mod B < B)%nat.
Proof.
  intros HB. split; [apply Nat.div_mod_eq | apply Nat.mod_upper_bound; lia].
Qed.

(** The two loops of [deinterleaveToPlaynar], for any stored value [v i ch]
    and channel stride [B]. *)
Section Loops.
Variable v : nat -> nat -> Z.
Variable B : nat.

Lemma inner_length (n i : nat) (dst : list Z) :
  length (fold_left (fun (d : list Z) (ch : nat) => <[(ch * B + i)%nat := v i ch]> d)
            (seq 0 n) dst) = length dst.
Proof.
  induction n as [|n IH]; [reflexivity|].
  rewrite seq_S, fold_left_app. cbn [fold_left]. rewrite length_insert. exact IH.
Qed.

Lemma inner_lookup (n i : nat) (dst : list Z) (k : nat) :
  (i < B)%nat -> (k < length dst)%nat ->
  fold_left (fun (d : list Z) (ch : nat) => <[(ch * B + i)%nat := v i ch]> d)
    (seq 0 n) dst !! k =
  if decide (k mod B = i /\ (k / B < n)%nat) then Some (v i (k / B)) else dst !! k.
Proof.
  intros Hi Hk.
  destruct (div_mod_bounds B k) as [Hkq Hkr]; [lia|].
  induction n as [|n IH].
  - cbn [seq fold_left]. case_decide; [lia | reflexivity].
  - rewrite seq_S, fold_left_app. cbn [fold_left].
    rewrite list_lookup_insert, inner_length, IH. clear IH.
    rewrite Nat.add_0_l.
    destruct (decide (n * B + i = k)) as [Heq|Hne].
    + destruct (div_mod_of B n i k) as [Hq Hr]; [lia | lia|].
      rewrite Hq, Hr. subst k.
      repeat case_decide; try lia. reflexivity.
    + repeat case_decide; try reflexivity; try lia.
      assert (k / B = n) as Hq by lia.
      rewrite Hq in Hkq. lia.
Qed.

Lemma outer_length (m C : nat) (dst : list Z) :
  length (fold_left (fun (d : list Z) (i : nat) =>
            fold_left (fun (d : list Z) (ch : nat) => <[(ch * B + i)%nat := v i ch]> d)
              (seq 0 C) d) (seq 0 m) dst) = length dst.
Proof.
  induction m as [|m IH]; [reflexivity|].
  rewrite seq_S, fold_left_app. cbn [fold_left]. rewrite inner_length. exact IH.
Qed.

Lemma outer_lookup (m C : nat) (dst : list Z) (k : nat) :
  (m <= B)%nat -> (k < length dst)%nat ->
  fold_left (fun (d : list Z) (i : nat) =>
    fold_left (fun (d : list Z) (ch : nat) => <[(ch * B + i)%nat := v i ch]> d)
      (seq 0 C) d) (seq 0 m) dst !! k =
  if decide (k mod B < m /\ k / B < C)%nat then Some (v (k mod B) (k / B)) else dst !! k.
Proof.
  intros Hm Hk.
  induction m as [|m IH].
  - cbn [seq fold_left]. case_decide; [lia | reflexivity].
  - rewrite seq_S, fold_left_app. cbn [fold_left].
    rewrite inner_lookup by (rewrite ?outer_length; lia).
    rewrite IH by lia. clear IH. rewrite Nat.add_0_l.
    repeat case_decide; try reflexivity; try lia.
    match goal with H : k mod B = m /\ _ |- _ => rewrite (proj1 H) end.
    reflexivity.
Qed.

End Loops.

End NatIndices.

Section Planar.
Local Open Scope nat_scope.

Lemma concat_blocks_length (g : nat -> nat -> Z) (bpc n : nat) :
  length (concat (map (fun ch => map (g ch) (seq 0 bpc)) (seq 0 n))) = bpc * n.
Proof.
  induction n as [|n IH]; [cbn; lia|].
  rewrite seq_S, map_app, concat_app, length_app, IH. cbn [map concat].
  rewrite app_nil_r, length_map, length_seq. lia.
Qed.

Lemma concat_blocks_lookup (g : nat -> nat -> Z) (bpc n k : nat) :
  k < bpc * n ->
  concat (map (fun ch => map (g ch) (seq 0 bpc)) (seq 0 n)) !! k =
  Some (g (k / bpc) (k mod bpc)).
Proof.
  intros Hk. induction n as [|n IH]; [lia|].
  rewrite seq_S, map_app, concat_app. cbn [map concat]. rewrite app_nil_r, Nat.add_0_l.
  destruct (decide (k < bpc * n)) as [Hlt|Hge].
  - rewrite lookup_app_l by (rewrite concat_blocks_length; lia). exact (IH Hlt).
  - rewrite lookup_app_r by (rewrite concat_blocks_length; lia).
    rewrite concat_blocks_length, lookup_map_seq by lia.
    destruct (div_mod_of bpc n (k - bpc * n) k) as [-> ->]; [lia | lia | reflexivity].
Qed.

Lemma planar_length (src : list Z) (bpc C : nat) :
  length (planar src bpc C) = bpc * C.
Proof. exact (concat_blocks_length (fun ch i => at_ src (Z.of_nat (i * C + ch))) bpc C). Qed.

Lemma planar_lookup (src : list Z) (bpc C k : nat) :
  k < bpc * C ->
  planar src bpc C !! k = Some (at_ src (Z.of_nat (k mod bpc * C + k / bpc))).
Proof.
  intros Hk.
  exact (concat_blocks_lookup (fun ch i => at_ src (Z.of_nat (i * C + ch))) bpc C k Hk).
Qed.

Lemma at_lookup (src : list Z) (k : nat) :
  k < length src -> src !! k = Some (at_ src (Z.of_nat k)).
Proof.
  intros Hk. destruct (lookup_lt_is_Some_2 src k Hk) as [x Hx].
  rewrite Hx. unfold at_. rewrite Nat2Z.id, (nth_lookup_Some src k 0%Z x Hx). reflexivity.
Qed.

(** [deinterleaveToPlaynar] on [bpc * C] bytes writes the planar layout of
    those bytes to the front of [dst] and leaves the rest of [dst] alone. *)
Lemma deinterleave_planar (src dst : list Z) (bpc C : nat) :
  1 <= C -> bpc * C <= length src -> bpc * C <= length dst ->
  deinterleaveToPlaynar src dst (Z.of_nat (bpc * C)) (Z.of_nat C) =
  planar src bpc C ++ drop (bpc * C) dst.
Proof.
  intros HC Hsrc Hdst. unfold deinterleaveToPlaynar.
  destruct (Z.of_nat C <? 2)%Z eqn:EC.
  - apply Z.ltb_lt in EC. assert (C = 1) as -> by lia.
    rewrite Nat.mul_1_r in *. unfold memcpy. rewrite Nat2Z.id. f_equal.
    apply list_eq. intros k. rewrite lookup_take.
    case_decide as Hk.
    + rewrite planar_lookup by lia.
      rewrite Nat.mod_small, Nat.div_small by lia.
      rewrite Nat.mul_1_r, Nat.add_0_r. apply at_lookup. lia.
    + symmetry. apply lookup_ge_None_2. rewrite planar_length. lia.
  - apply Z.ltb_ge in EC. cbv zeta.
    rewrite <- Nat2Z.inj_div, !Nat2Z.id, Nat.div_mul by lia.
    apply list_eq. intros k.
    destruct (decide (k < length dst)) as [Hk|Hk].
    + pose proof (outer_lookup (fun i ch => at_ src (Z.of_nat (i * C + ch))) bpc bpc C dst k)
        as E.
      cbv beta in E. rewrite E by lia. clear E.
      destruct (decide (k < bpc * C)) as [Hlt|Hge].
      * assert (0 < bpc) by lia.
        destruct (div_mod_bounds bpc k) as [Hq Hr]; [lia|].
        case_decide as D; [|exfalso; apply D; split; [lia | nia]].
        rewrite lookup_app_l by (rewrite planar_length; lia).
        rewrite planar_lookup by lia. reflexivity.
      * case_decide as D.
        -- exfalso. destruct (div_mod_bounds bpc k) as [Hq Hr]; [lia|]. nia.
        -- rewrite lookup_app_r by (rewrite planar_length; lia).
           rewrite lookup_drop, planar_length. f_equal. lia.
    + rewrite !lookup_ge_None_2; [reflexivity| |].
      * rewrite length_app, length_drop, planar_length. lia.
      * rewrite outer_length. lia.
Qed.

End Planar.

(** One [readPlanar] call on a DFF stream: it emits the channel-aligned
    prefix of [min(buffered, maxBytes)] bytes in planar layout. *)
Lemma readPlanar_dff_planar (s : DsdStreamReader) (out : list Z) (maxBytes : Z) :
  m_state s = DATA -> m_formatReady s = true -> container (m_format s) = DFF ->
  0 < channels (m_format s) -> 0 <= maxBytes ->
  Z.min (len (m_dataBuf s)) maxBytes <= len out ->
  let ch := channels (m_format s) in
  let usable := Z.min (len (m_dataBuf s)) maxBytes / ch * ch in
  exists s', readPlanar s out maxBytes =
    (usable, planar (m_dataBuf s) (Z.to_nat (usable / ch)) (Z.to_nat ch)
               ++ drop (Z.to_nat usable) out, s') /\
    m_dataBuf s' = drop (Z.to_nat usable) (m_dataBuf s).
Proof.
  intros Hst Hfr Hc Hch Hmax Hout. cbv zeta.
  unfold readPlanar. rewrite Hst, Hfr, Hc.
  change (bool_decide (DATA = DONE)) with false.
  change (bool_decide (DATA = ERROR)) with false.
  change (bool_decide (DATA = DATA)) with true.
  cbn [orb negb processDffData]. unfold processDffData.
  set (buf := m_dataBuf s) in *.
  set (ch := channels (m_format s)) in *.
  set (usable := Z.min (len buf) maxBytes / ch * ch).
  assert (Hlen : 0 <= len buf) by (unfold len; lia).
  assert (Hdiv : usable / ch = Z.min (len buf) maxBytes / ch)
    .
  { unfold usable. apply Z.div_mul. lia. }
  assert (Hub : 0 <= usable <= Z.min (len buf) maxBytes).
  { unfold usable. split.
    - apply Z.mul_nonneg_nonneg; [apply Z.div_pos|]; lia.
    - rewrite Z.mul_comm. apply Z.mul_div_le. lia. }
  assert (Hzero : forall C, planar buf 0 C = []).
  { intros C. apply nil_length_inv. rewrite planar_length. lia. }
  assert (Hcase0 : usable = 0 ->
    exists s', (let '(result, out0, s0) := (0, out, s) in
       if (result =? 0) && bool_decide (m_dataBuf s0 = []) && m_eof s0
       then (result, out0, set_state DONE (set_finished true s0))
       else (result, out0, s0)) =
      (usable, planar buf (Z.to_nat (usable / ch)) (Z.to_nat ch) ++ drop (Z.to_nat usable) out, s')
    /\ m_dataBuf s' = drop (Z.to_nat usable) buf).
  { intros ->. rewrite Zdiv_0_l. cbn [Z.to_nat]. rewrite Hzero, drop_0.
    cbn -[bool_decide]. case_match; eexists; split; reflexivity. }
  destruct (len buf =? 0) eqn:E1.
  { apply Hcase0. apply Z.eqb_eq in E1. unfold usable. rewrite E1, Z.min_l by lia.
    rewrite Zdiv_0_l. lia. }
  destruct (ch =? 0) eqn:E2; [apply Z.eqb_eq in E2; lia|].
  destruct (usable =? 0) eqn:E3; [apply Hcase0; apply Z.eqb_eq in E3; exact E3|].
  apply Z.eqb_neq in E3.
  rewrite (proj2 (Z.eqb_neq _ _) E3). cbn [andb].
  exists (consume usable s). split; [|reflexivity].
  do 2 f_equal.
  set (bpc := Z.to_nat (usable / ch)). set (C := Z.to_nat ch).
  assert (Hn : usable = Z.of_nat (bpc * C)).
  { unfold bpc, C. rewrite Nat2Z.inj_mul, !Z2Nat.id by (try apply Z.div_pos; lia).
    rewrite Hdiv. reflexivity. }
  assert (Hc' : ch = Z.of_nat C) by (unfold C; rewrite Z2Nat.id; lia).
  rewrite Hn, Nat2Z.id, Hc'. unfold len in *.
  apply deinterleave_planar; lia.
Qed.

Lemma interleave_length (Ls Rs : list Z) :
  length Ls = length Rs -> length (interleave Ls Rs) = (2 * length Ls)%nat.
Proof.
  revert Rs. induction Ls as [|l Ls IH]; intros [|r Rs] H; cbn in *; try lia.
  rewrite IH by lia. lia.
Qed.

Lemma interleave_nth (Ls Rs : list Z) (i : nat) :
  length Ls = length Rs -> (i < length Ls)%nat ->
  nth (i * 2) (interleave Ls Rs) 0 = nth i Ls 0 /\
  nth (i * 2 + 1) (interleave Ls Rs) 0 = nth i Rs 0.
Proof.
  revert Rs i. induction Ls as [|l Ls IH]; intros [|r Rs] [|i] H Hi; cbn in *; try lia;
    auto.
  apply IH; lia.
Qed.

Lemma map_seq_nth (f : nat -> Z) (l : list Z) :
  (forall i, (i < length l)%nat -> f i = nth i l 0) -> map f (seq 0 (length l)) = l.
Proof.
  intros Hf. apply list_eq. intros k.
  destruct (decide (k < length l)%nat) as [Hk|Hk].
  - rewrite lookup_map_seq, (at_lookup l k) by exact Hk.
    unfold at_. rewrite Nat2Z.id, Hf by exact Hk. reflexivity.
  - rewrite !lookup_ge_None_2; [reflexivity | lia |].
    rewrite length_map, length_seq. lia.
Qed.

(** Planar layout of byte-interleaved stereo data: the left bytes, then
    the right bytes. *)
Lemma planar_stereo (Ls Rs : list Z) :
  length Ls = length Rs -> planar (interleave Ls Rs) (length Ls) 2 = Ls ++ Rs.
Proof.
  intros H. unfold planar. cbn [seq map concat]. rewrite app_nil_r. f_equal.
  - apply map_seq_nth. intros i Hi. unfold at_. rewrite Nat2Z.id, Nat.add_0_r.
    apply (interleave_nth Ls Rs i H Hi).
  - rewrite H. apply map_seq_nth. intros i Hi. unfold at_. rewrite Nat2Z.id.
    apply (interleave_nth Ls Rs i H). lia.
Qed.

(** [feed] in the DATA state with exactly the remaining data-chunk bytes. *)
Lemma feed_data_all (s : DsdStreamReader) (data : list Z) :
  m_state s = DATA -> 0 < len data -> m_dataRemaining s = len data ->
  feed s data = Some (set_dataRemaining 0 (set_dataBuf (m_dataBuf s ++ data) s)).
Proof.
  intros Hst Hpos Hdr. unfold feed. rewrite Hst. cbv zeta. rewrite Hdr.
  rewrite (proj2 (Z.ltb_lt 0 _) Hpos), Z.ltb_irrefl. cbn [andb].
  rewrite firstn_all2 by (unfold len; lia). rewrite Z.sub_diag. reflexivity.
Qed.

(** The example DFF header parses to a stereo DFF stream of 256 data bytes. *)
Lemma dff_header_parsed :
  exists s1, feed reader0 dff_header = Some s1 /\ m_state s1 = DATA /\
    m_formatReady s1 = true /\ m_format s1 = mkDsdFormat 5644800 2 0 256 DFF false /\
    m_dataBuf s1 = [] /\ m_dataRemaining s1 = 256.
Proof. eexists. split; [vm_compute; reflexivity|]. vm_compute. repeat split. Qed.

Lemma mul_mod_self (a c : Z) : (a * c) mod c = 0.
Proof. destruct (Z.eq_dec c 0) as [->|E]; [rewrite Z.mul_0_r; reflexivity | apply Z.mod_mul; exact E]. Qed.

(** Every [readPlanar] return value is a multiple of the channel count on
    the DFF and raw paths, and on the DSF path (end-of-file tail included)
    as long as [blockSizePerChannel * channels] fits in 32 bits. *)
Lemma readPlanar_multiple_of_channels (s : DsdStreamReader) (out : list Z) (maxBytes : Z) :
  (container (m_format s) = DSF ->
     0 <= blockSizePerChannel (m_format s) /\ 0 <= channels (m_format s) /\
     blockSizePerChannel (m_format s) * channels (m_format s) < 2 ^ 32) ->
  fst (fst (readPlanar s out maxBytes)) mod channels (m_format s) = 0.
Proof.
  intros Hdsf.
  unfold readPlanar, processRawData, processDffData, processDsfBlocks.
  set (ch := channels (m_format s)) in *.
  destruct (container (m_format s)) eqn:Ec.
  - destruct (Hdsf eq_refl) as (Hbs & Hch & Hov).
    assert (Hbg : u32 (blockSizePerChannel (m_format s) * ch) =
                  blockSizePerChannel (m_format s) * ch)
      by (unfold u32; apply Z.mod_small; nia).
    rewrite Hbg.
    repeat case_match; simplify_eq/=; rewrite ?Z.mul_assoc; apply mul_mod_self || apply Zmod_0_l.
  - repeat case_match; simplify_eq/=; apply mul_mod_self || apply Zmod_0_l.
  - repeat case_match; simplify_eq/=; apply mul_mod_self || apply Zmod_0_l.
Qed.

(** C6: each [readPlanar] call on a DFF stream (format ready, C > 0
    channels) returns the channel-aligned count
    [usable = min(buffered, maxBytes) / C * C], writes the planar layout of
    the first [usable] buffered bytes (channel 0's bytes, then channel
    1's, ...) to the front of the output buffer, leaves the rest of the
    buffer untouched, and drops those bytes from the data buffer.  For the
    example DFF stereo header followed by the 256 bytes
    [L0 R0 L1 R1 ... L127 R127], one [readPlanar(out, 256)] returns 256 and
    writes [L0 ... L127] then [R0 ... R127]. *)
Theorem dff_readPlanar_deinterleaves :
  (forall (s : DsdStreamReader) (out : list Z) (maxBytes : Z),
    m_state s = DATA -> m_formatReady s = true -> container (m_format s) = DFF ->
    0 < channels (m_format s) -> 0 <= maxBytes ->
    Z.min (len (m_dataBuf s)) maxBytes <= len out ->
    let ch := channels (m_format s) in
    let usable := Z.min (len (m_dataBuf s)) maxBytes / ch * ch in
    exists s', readPlanar s out maxBytes =
      (usable, planar (m_dataBuf s) (Z.to_nat (usable / ch)) (Z.to_nat ch)
                 ++ drop (Z.to_nat usable) out, s') /\
      m_dataBuf s' = drop (Z.to_nat usable) (m_dataBuf s)) /\
  (forall (Ls Rs out : list Z),
    length Ls = 128%nat -> length Rs = 128%nat -> length out = 256%nat ->
    exists s1 s2 s3,
      feed reader0 dff_header = Some s1 /\
      feed s1 (interleave Ls Rs) = Some s2 /\
      readPlanar s2 out 256 = (256, Ls ++ Rs, s3)).
Proof.
  split; [exact readPlanar_dff_planar|].
  intros Ls Rs out HL HR HO.
  destruct dff_header_parsed as (s1 & F1 & St & Fr & Fm & Db & Dr).
  assert (Hlen : len (interleave Ls Rs) = 256).
  { unfold len. rewrite interleave_length by lia. lia. }
  set (s2 := set_dataRemaining 0 (set_dataBuf (m_dataBuf s1 ++ interleave Ls Rs) s1)).
  assert (F2 : feed s1 (interleave Ls Rs) = Some s2)
    by (apply feed_data_all; [exact St | lia | rewrite Dr, Hlen; reflexivity]).
  assert (Eb : m_dataBuf s2 = interleave Ls Rs) by (cbn; rewrite Db; reflexivity).
  assert (Ec : channels (m_format s2) = 2) by (cbn; rewrite Fm; reflexivity).
  destruct (readPlanar_dff_planar s2 out 256) as [s3 [R _]];
    [cbn; auto | cbn; auto | cbn; rewrite Fm; reflexivity | rewrite Ec; lia | lia
    | rewrite Eb, Hlen; unfold len; rewrite HO; reflexivity |].
  rewrite Eb, Ec, Hlen in R.
  change (Z.min 256 256 / 2 * 2) with 256 in R.
  change (Z.to_nat (256 / 2)) with 128%nat in R.
  change (Z.to_nat 2) with 2%nat in R.
  change (Z.to_nat 256) with 256%nat in R.
  rewrite <- HL, planar_stereo in R by lia.
  rewrite drop_ge, app_nil_r in R by lia.
  exists s1, s2, s3. auto.
Qed.

Lemma dff_readPlanar_deinterleaves_witness :
  exists s1 s2 s3,
    feed reader0 dff_header = Some s1 /\
    feed s1 (interleave (map Z.of_nat (seq 0 128)) (map Z.of_nat (seq 128 128))) = Some s2 /\
    readPlanar s2 (repeat 0 256) 256 =
      (256, map Z.of_nat (seq 0 128) ++ map Z.of_nat (seq 128 128), s3).
Proof.
  apply (proj2 dff_readPlanar_deinterleaves); reflexivity.
Defined.

(** C7: a DSF file with 3 channels and a per-channel block size of
    1431655766 passes [parseDsfHeader]; the [uint32_t] product
    [blockSizePerChannel * channels] wraps to 2, so one [readPlanar] call
    emits 2 bytes and [m_totalBytesOutput] becomes 2, not a multiple of the
    3 channels. *)
Theorem dsf_blockgroup_overflow_total_not_multiple :
  exists s s',
    feed reader0 dsf_overflow = Some s /\
    m_state s = DATA /\ m_formatReady s = true /\
    container (m_format s) = DSF /\ channels (m_format s) = 3 /\
    blockSizePerChannel (m_format s) = 1431655766 /\
    u32 (blockSizePerChannel (m_format s) * channels (m_format s)) = 2 /\
    m_dataBuf s = [7; 9] /\ m_totalBytesOutput s = 0 /\
    readPlanar s (repeat 0 16384) 16384 = (2, [7; 9] ++ repeat 0 16382, s') /\
    channels (m_format s') = 3 /\
    m_totalBytesOutput s' = 2 /\
    m_totalBytesOutput s' mod channels (m_format s') <> 0.
Proof.
  eexists. eexists.
  split; [vm_compute; reflexivity|].
  do 8 (split; [vm_compute; reflexivity|]).
  split; [vm_compute; reflexivity|].
  vm_compute. repeat split; discriminate.
Qed.

End DsdFacts.

Module ByteFacts.

Lemma lor_low_add (x y k : Z) :
  0 <= k -> 0 <= x < 2 ^ k -> 0 <= y -> y mod 2 ^ k = 0 -> Z.lor x y = x + y.
Proof.
  intros Hk Hx Hy Hm.
  assert (Hl : Z.land x y = 0).
  { apply Z.bits_inj'. intros i Hi. rewrite Z.land_spec, Z.bits_0.
    destruct (Z.lt_ge_cases i k) as [Hlt|Hge].
    - replace y with (Z.shiftl (y / 2 ^ k) k).
      + rewrite Z.shiftl_spec_low by lia. apply andb_false_r.
      + rewrite Z.shiftl_mul_pow2 by lia. pose proof (Z.div_mod y (2 ^ k)) as D.
        rewrite Hm, Z.add_0_r in D. lia.
    - rewrite <- (Z.mod_small x (2 ^ k)) by lia.
      rewrite Z.mod_pow2_bits_high by lia. reflexivity. }
  pose proof (Z.add_lor_land x y) as H. lia.
Qed.

Lemma at_byte (p : list Z) (i : Z) :
  Forall (fun b => 0 <= b < 256) p -> 0 <= at_ p i < 256.
Proof.
  intros Hp. unfold at_. destruct (nth_in_or_default (Z.to_nat i) p 0) as [Hin|Heq].
  - rewrite List.Forall_forall in Hp. apply Hp, Hin.
  - rewrite Heq. lia.
Qed.

Lemma rd_le32_value (p : list Z) (off : Z) :
  Forall (fun b => 0 <= b < 256) p ->
  rd_le32 p off = at_ p off + at_ p (off + 1) * 2 ^ 8 +
                  at_ p (off + 2) * 2 ^ 16 + at_ p (off + 3) * 2 ^ 24.
Proof.
  intros Hp. unfold rd_le32. rewrite !Z.shiftl_mul_pow2 by lia.
  pose proof (at_byte p off Hp). pose proof (at_byte p (off + 1) Hp).
  pose proof (at_byte p (off + 2) Hp). pose proof (at_byte p (off + 3) Hp).
  rewrite (lor_low_add (at_ p (off + 2) * 2 ^ 16) _ 24); try lia.
  2: { apply Z.mod_divide; [lia|]. exists (at_ p (off + 3)). reflexivity. }
  rewrite (lor_low_add (at_ p (off + 1) * 2 ^ 8) _ 16); try lia.
  2: { apply Z.mod_divide; [lia|]. exists (at_ p (off + 2) + at_ p (off + 3) * 2 ^ 8). lia. }
  rewrite (lor_low_add (at_ p off) _ 8); try lia.
  apply Z.mod_divide; [lia|].
  exists (at_ p (off + 1) + at_ p (off + 2) * 2 ^ 8 + at_ p (off + 3) * 2 ^ 16). lia.
Qed.


Lemma rd_be32_value (p : list Z) (off : Z) :
  Forall (fun b => 0 <= b < 256) p ->
  rd_be32 p off = at_ p off * 2 ^ 24 + at_ p (off + 1) * 2 ^ 16 +
                  at_ p (off + 2) * 2 ^ 8 + at_ p (off + 3).
Proof.
  intros Hp. unfold rd_be32. rewrite !Z.shiftl_mul_pow2 by lia.
  pose proof (at_byte p off Hp). pose proof (at_byte p (off + 1) Hp).
  pose proof (at_byte p (off + 2) Hp). pose proof (at_byte p (off + 3) Hp).
  rewrite (Z.lor_comm (at_ p (off + 2) * 2 ^ 8)).
  rewrite (lor_low_add (at_ p (off + 3)) _ 8); try lia.
  2: { apply Z.mod_divide; [lia|]. exists (at_ p (off + 2)). reflexivity. }
  rewrite (Z.lor_comm (at_ p (off + 1) * 2 ^ 16)).
  rewrite (lor_low_add (at_ p (off + 3) + _) _ 16); try lia.
  2: { apply Z.mod_divide; [lia|]. exists (at_ p (off + 1)). reflexivity. }
  rewrite (Z.lor_comm (at_ p off * 2 ^ 24)).
  rewrite (lor_low_add (at_ p (off + 3) + _ + _) _ 24); try lia.
  apply Z.mod_divide; [lia|]. exists (at_ p off). reflexivity.
Qed.

Lemma rd_le16_value (p : list Z) (off : Z) :
  Forall (fun b => 0 <= b < 256) p ->
  rd_le16 p off = at_ p off + at_ p (off + 1) * 2 ^ 8.
Proof.
  intros Hp. unfold rd_le16. rewrite !Z.shiftl_mul_pow2 by lia.
  pose proof (at_byte p off Hp). pose proof (at_byte p (off + 1) Hp).
  apply (lor_low_add _ _ 8); try lia.
  apply Z.mod_divide; [lia|]. exists (at_ p (off + 1)). reflexivity.
Qed.

Lemma rd_be16_value (p : list Z) (off : Z) :
  Forall (fun b => 0 <= b < 256) p ->
  rd_be16 p off = at_ p off * 2 ^ 8 + at_ p (off + 1).
Proof.
  intros Hp. unfold rd_be16. rewrite !Z.shiftl_mul_pow2 by lia.
  pose proof (at_byte p off Hp). pose proof (at_byte p (off + 1) Hp).
  rewrite Z.lor_comm, (lor_low_add _ _ 8); try lia.
  apply Z.mod_divide; [lia|]. exists (at_ p off). reflexivity.
Qed.

Lemma rd_le32_range (p : list Z) (off : Z) :
  Forall (fun b => 0 <= b < 256) p -> 0 <= rd_le32 p off < 2 ^ 32.
Proof.
  intros Hp. rewrite rd_le32_value by exact Hp.
  pose proof (at_byte p off Hp). pose proof (at_byte p (off + 1) Hp).
  pose proof (at_byte p (off + 2) Hp). pose proof (at_byte p (off + 3) Hp). lia.
Qed.

Lemma rd_be32_range (p : list Z) (off : Z) :
  Forall (fun b => 0 <= b < 256) p -> 0 <= rd_be32 p off < 2 ^ 32.
Proof.
  intros Hp. rewrite rd_be32_value by exact Hp.
  pose proof (at_byte p off Hp). pose proof (at_byte p (off + 1) Hp).
  pose proof (at_byte p (off + 2) Hp). pose proof (at_byte p (off + 3) Hp). lia.
Qed.

(** The byte readers ([readLE16]/[readLE32]/[readLE64],
    [readBE32]/[readBE64], [ntohs]) compute the unsigned little- or
    big-endian value of the bytes they read: the OR of the shifted bytes
    never overlaps. *)
Theorem byte_readers_value (p : list Z) (off : Z) :
  Forall (fun b => 0 <= b < 256) p ->
  rd_le16 p off = at_ p off + at_ p (off + 1) * 2 ^ 8 /\
  rd_be16 p off = at_ p off * 2 ^ 8 + at_ p (off + 1) /\
  rd_le32 p off = at_ p off + at_ p (off + 1) * 2 ^ 8 +
                  at_ p (off + 2) * 2 ^ 16 + at_ p (off + 3) * 2 ^ 24 /\
  rd_be32 p off = at_ p off * 2 ^ 24 + at_ p (off + 1) * 2 ^ 16 +
                  at_ p (off + 2) * 2 ^ 8 + at_ p (off + 3) /\
  rd_le64 p off = rd_le32 p off + rd_le32 p (off + 4) * 2 ^ 32 /\
  rd_be64 p off = rd_be32 p off * 2 ^ 32 + rd_be32 p (off + 4).
Proof.
  intros Hp. split; [apply rd_le16_value, Hp|]. split; [apply rd_be16_value, Hp|].
  split; [apply rd_le32_value, Hp|]. split; [apply rd_be32_value, Hp|].
  pose proof (rd_le32_range p off Hp). pose proof (rd_le32_range p (off + 4) Hp).
  pose proof (rd_be32_range p off Hp). pose proof (rd_be32_range p (off + 4) Hp).
  split.
  - unfold rd_le64. rewrite Z.shiftl_mul_pow2 by lia. apply (lor_low_add _ _ 32); try lia.
    apply Z.mod_divide; [lia|]. exists (rd_le32 p (off + 4)). reflexivity.
  - unfold rd_be64. rewrite Z.shiftl_mul_pow2 by lia.
    rewrite Z.lor_comm, (lor_low_add _ _ 32); try lia.
    apply Z.mod_divide; [lia|]. exists (rd_be32 p off). reflexivity.
Qed.

Lemma byte_readers_value_witness :
  Forall (fun b => 0 <= b < 256) [1; 2; 3; 4; 5; 6; 7; 8] /\
  rd_le64 [1; 2; 3; 4; 5; 6; 7; 8] 0 = 578437695752307201.
Proof.
  assert (H : Forall (fun b => 0 <= b < 256) [1; 2; 3; 4; 5; 6; 7; 8])
    by (repeat constructor; lia).
  split; [exact H|].
  destruct (byte_readers_value [1; 2; 3; 4; 5; 6; 7; 8] 0 H) as (_ & _ & Hl & _ & H64 & _).
  rewrite H64, Hl. vm_compute. reflexivity.
Defined.

End ByteFacts.

Module DsdReaderFacts.
Import Dsd ByteFacts.

Lemma len_app (a b : list Z) : len (a ++ b) = len a + len b.
Proof. unfold len. rewrite length_app. lia. Qed.

Lemma len_sub (m n : nat) (p : list Z) :
  (m + n <= length p)%nat -> len (sub m n p) = Z.of_nat n.
Proof. intros H. unfold len, sub. rewrite length_take, length_drop. lia. Qed.

(** The common tail of the header parsers keeps the data-chunk
    accounting: bytes moved to the data buffer plus the bytes still
    expected make up the chunk size. *)
Lemma move_excess_spec (p : list Z) (ds : Z) (s : DsdStreamReader) :
  let s' := move_excess p ds s in
  m_state s' = DATA /\ m_headerBuf s' = [] /\ m_format s' = m_format s /\
  m_formatReady s' = m_formatReady s /\
  (0 <= ds -> 0 < m_dataRemaining s ->
   len (m_dataBuf s') - len (m_dataBuf s) + m_dataRemaining s' = m_dataRemaining s /\
   0 <= m_dataRemaining s').
Proof.
  cbv zeta. unfold move_excess.
  destruct (ds <? len p) eqn:E; cbn -[len sub];
    [|repeat split; auto; lia].
  set (dr := m_dataRemaining s).
  set (toMove := if (0 <? dr) && (dr <? len p - ds) then dr else len p - ds).
  split; [reflexivity|]. split; [reflexivity|].
  split; [destruct (0 <? dr); reflexivity|]. split; [destruct (0 <? dr); reflexivity|].
  intros Hds Hdr.
  assert (Ht : 0 <= toMove <= len p - ds /\ toMove <= dr).
  { apply Z.ltb_lt in E. unfold toMove.
    destruct (0 <? dr) eqn:E1, (dr <? len p - ds) eqn:E2; cbn;
      rewrite ?Z.ltb_lt, ?Z.ltb_ge in *; lia. }
  rewrite (proj2 (Z.ltb_lt 0 dr) Hdr). cbn -[len sub].
  rewrite len_app, len_sub by (unfold len in *; lia).
  split; lia.
Qed.

Lemma u64_range (x : Z) : 0 <= u64 x < 2 ^ 64.
Proof. unfold u64. apply Z.mod_pos_bound. lia. Qed.

Lemma u64_nonneg (x : Z) : 0 <= u64 x.
Proof. apply u64_range. Qed.

(** The bytes [move_excess] moves and the bytes still expected. *)
Lemma move_excess_exact (p : list Z) (ds : Z) (s : DsdStreamReader) :
  0 <= ds ->
  let s' := move_excess p ds s in
  let T := m_dataRemaining s in
  let excess := drop (Z.to_nat ds) p in
  m_dataBuf s' = m_dataBuf s ++ (if 0 <? T then take (Z.to_nat T) excess else excess) /\
  m_dataRemaining s' = (if 0 <? T then T - len (take (Z.to_nat T) excess) else T).
Proof.
  intros Hds. cbv zeta. unfold move_excess.
  destruct (ds <? len p) eqn:E; cbn -[len sub].
  - apply Z.ltb_lt in E. unfold sub.
    set (dr := m_dataRemaining s).
    assert (Hl : len (drop (Z.to_nat ds) p) = len p - ds)
      by (unfold len in *; rewrite length_drop; lia).
    destruct (0 <? dr) eqn:E1; cbn [andb].
    + apply Z.ltb_lt in E1.
      destruct (dr <? len p - ds) eqn:E2; cbn -[len].
      * apply Z.ltb_lt in E2. split; [reflexivity|].
        unfold len. rewrite length_take, length_drop. unfold len in E2. lia.
      * apply Z.ltb_ge in E2.
        rewrite !take_ge by (unfold len in *; rewrite ?length_drop; lia).
        split; [reflexivity|]. rewrite <- Hl. reflexivity.
    + rewrite take_ge by (unfold len in *; rewrite ?length_drop; lia). split; reflexivity.
  - apply Z.ltb_ge in E. rewrite drop_ge by (unfold len in *; lia).
    rewrite take_nil. destruct (0 <? _); rewrite app_nil_r; (split; [reflexivity|]); [|reflexivity].
    unfold len. cbn. lia.
Qed.

(** [parseDsfHeader] accepts a header only with format id 0, 1 to 8
    channels, a non-zero block size and a "data" chunk at offset 28 plus
    the fmt chunk size (64-bit arithmetic); it then leaves the reader in
    the data state with the DSF format ready: sample rate, channels and
    block size from the fmt chunk, LSB first, and [totalDsdBytes] the data
    chunk's size field minus its 12-byte header.  The header bytes after
    the data-chunk header move to the data buffer: at most [totalDsdBytes]
    of them, [m_dataRemaining] keeping the count still expected, or all of
    them when [totalDsdBytes] is 0 (no limit). *)
Theorem parseDsfHeader_accepts_valid (s s' : DsdStreamReader) :
  Forall (fun b => 0 <= b < 256) (m_headerBuf s) ->
  parseDsfHeader s = (true, s') ->
  let p := m_headerBuf s in
  let off := u64 (28 + rd_le64 p 32) in
  let T := totalDsdBytes (m_format s') in
  let excess := drop (Z.to_nat (u64 (off + 12))) p in
  rd_le32 p 44 = 0 /\
  m_state s' = DATA /\ m_formatReady s' = true /\ m_headerBuf s' = [] /\
  container (m_format s') = DSF /\ isLSBFirst (m_format s') = true /\
  sampleRate (m_format s') = rd_le32 p 56 /\
  channels (m_format s') = rd_le32 p 52 /\ 1 <= channels (m_format s') <= 8 /\
  blockSizePerChannel (m_format s') = rd_le32 p 72 /\
  1 <= blockSizePerChannel (m_format s') < 2 ^ 32 /\
  magic_atZ p off "data" = true /\ T = u64 (rd_le64 p (off + 4) - 12) /\
  m_dataBuf s' = m_dataBuf s ++ (if 0 <? T then take (Z.to_nat T) excess else excess) /\
  m_dataRemaining s' = (if 0 <? T then T - len (take (Z.to_nat T) excess) else 0).
Proof.
  intros Hb E. cbv zeta. unfold parseDsfHeader in E. cbv zeta in E.
  set (p := m_headerBuf s) in *.
  destruct (len p <? 92); [discriminate|].
  destruct (negb (magic_atZ p 0 "DSD ")); [discriminate|].
  destruct (negb (magic_atZ p 28 "fmt ")); [discriminate|].
  destruct (negb (rd_le32 p 44 =? 0)) eqn:Eid; [discriminate|].
  apply negb_false_iff, Z.eqb_eq in Eid.
  destruct ((rd_le32 p 52 =? 0) || (8 <? rd_le32 p 52)) eqn:Ech; [discriminate|].
  destruct (rd_le32 p 72 =? 0) eqn:Ebs; [discriminate|].
  destruct (len p <? u64 (u64 (28 + rd_le64 p 32) + 12)); [discriminate|].
  destruct (negb (magic_atZ p (u64 (28 + rd_le64 p 32)) "data")) eqn:Emag; [discriminate|].
  apply negb_false_iff in Emag.
  injection E as <-.
  match goal with |- context [move_excess p ?ds ?s1] =>
    destruct (move_excess_spec p ds s1) as (H1 & H2 & H3 & H4 & _);
    destruct (move_excess_exact p ds s1 (u64_nonneg _)) as (H6 & H7) end.
  rewrite H1, H2, H3, H4, H6, H7. cbn [m_format set_formatReady set_dataRemaining set_format
    container isLSBFirst channels blockSizePerChannel totalDsdBytes sampleRate m_formatReady
    m_dataRemaining m_dataBuf].
  apply orb_false_iff in Ech as [Ech1 Ech2]. apply Z.eqb_neq in Ech1, Ebs.
  apply Z.ltb_ge in Ech2.
  pose proof (rd_le32_range p 52 Hb). pose proof (rd_le32_range p 72 Hb).
  do 12 (split; [first [reflexivity | assumption | lia]|]).
  split; [reflexivity|].
  pose proof (u64_nonneg (rd_le64 p (u64 (28 + rd_le64 p 32) + 4) - 12)) as HT.
  set (T := u64 (rd_le64 p (u64 (28 + rd_le64 p 32) + 4) - 12)) in *.
  split; [reflexivity|].
  destruct (0 <? T) eqn:Et; [reflexivity|]. apply Z.ltb_ge in Et. lia.
Qed.

Lemma parseDsfHeader_accepts_valid_witness :
  exists s', parseDsfHeader (set_headerBuf dsf_overflow reader0) = (true, s') /\
    1 <= channels (m_format s') <= 8 /\ m_state s' = DATA.
Proof.
  destruct (parseDsfHeader (set_headerBuf dsf_overflow reader0)) as [ok s'] eqn:E.
  pose proof E as G. vm_compute in G. injection G as <- _.
  assert (Hb : Forall (fun b => 0 <= b < 256) (m_headerBuf (set_headerBuf dsf_overflow reader0)))
    by (apply (bool_decide_unpack _); vm_compute; reflexivity).
  pose proof (parseDsfHeader_accepts_valid _ _ Hb E) as H. cbv zeta in H.
  destruct H as (_ & Hst & _ & _ & _ & _ & _ & _ & Hch & _).
  exists s'. split; [reflexivity|]. split; assumption.
Defined.




Lemma feed_all_unlimited (s : DsdStreamReader) (ds : list (list Z)) :
  m_state s = DATA -> m_dataRemaining s = 0 ->
  exists s', feed_all s ds = Some s' /\ m_state s' = DATA /\ m_dataRemaining s' = 0 /\
    m_dataBuf s' = m_dataBuf s ++ concat ds /\ m_format s' = m_format s /\
    m_formatReady s' = m_formatReady s.
Proof.
  revert s. induction ds as [|d ds IH]; intros s Hst Hdr.
  - exists s. cbn [concat feed_all]. rewrite app_nil_r. repeat split; auto.
  - cbn [feed_all]. unfold feed at 1. rewrite Hst, Hdr. cbv zeta. cbn [Z.ltb Z.compare andb].
    rewrite take_ge by (unfold len; rewrite Nat2Z.id; lia).
    destruct (IH (set_dataBuf (m_dataBuf s ++ d) s)) as (s' & E & H1 & H2 & H3 & H4 & H5);
      [exact Hst | exact Hdr|].
    exists s'. rewrite E. cbn in H3, H4, H5. rewrite H3, <- app_assoc. cbn [concat]. repeat split; auto.
Qed.

(** [feed] in the data state honours [m_dataRemaining] only for the call
    that crosses the end of the data chunk: once the chunk is complete
    ([m_dataRemaining] reaches 0, which also means "unlimited"), every
    byte of every later call, such as a metadata chunk after the audio,
    is appended to the data buffer. *)
Theorem feed_after_data_chunk_appends_all (s s1 : DsdStreamReader) (d1 : list Z)
    (ds : list (list Z)) :
  m_state s = DATA -> 0 < m_dataRemaining s <= len d1 -> feed s d1 = Some s1 ->
  exists s2, feed_all s1 ds = Some s2 /\
    m_dataBuf s2 = m_dataBuf s ++ take (Z.to_nat (m_dataRemaining s)) d1 ++ concat ds /\
    m_dataRemaining s2 = 0 /\ m_state s2 = DATA.
Proof.
  intros Hst Hdr F1. unfold feed in F1. rewrite Hst in F1. cbv zeta in F1.
  assert (Ht : (if (0 <? m_dataRemaining s) && (m_dataRemaining s <? len d1)
                then m_dataRemaining s else len d1) = m_dataRemaining s).
  { destruct (m_dataRemaining s <? len d1) eqn:E;
      rewrite (proj2 (Z.ltb_lt 0 _) (proj1 Hdr)); cbn; [reflexivity|].
    apply Z.ltb_ge in E. lia. }
  rewrite Ht, (proj2 (Z.ltb_lt 0 _) (proj1 Hdr)), Z.sub_diag in F1.
  injection F1 as <-.
  destruct (feed_all_unlimited
              (set_dataRemaining 0 (set_dataBuf (m_dataBuf s ++ take (Z.to_nat (m_dataRemaining s)) d1) s))
              ds Hst eq_refl) as (s2 & E & H1 & H2 & H3 & _).
  exists s2. split; [exact E|]. rewrite H3. cbn. rewrite <- app_assoc. auto.
Qed.

Lemma feed_after_data_chunk_appends_all_witness :
  exists s1 s2, feed (set_state DATA (set_dataRemaining 2 reader0)) [1; 2; 3] = Some s1 /\
    feed_all s1 [[4; 5]; []; [6]] = Some s2 /\ m_dataBuf s2 = [1; 2; 4; 5; 6].
Proof.
  set (s := set_state DATA (set_dataRemaining 2 reader0)).
  destruct (feed s [1; 2; 3]) as [s1|] eqn:F1; [|vm_compute in F1; discriminate].
  destruct (feed_after_data_chunk_appends_all s s1 [1; 2; 3] [[4; 5]; []; [6]]
              eq_refl ltac:(vm_compute; split; congruence) F1) as (s2 & E & Hb & _).
  exists s1, s2. split; [reflexivity|]. split; [exact E|]. rewrite Hb. reflexivity.
Defined.

Lemma div_mul_bounds (a c : Z) : 0 <= a -> 0 <= c -> 0 <= a / c * c <= a.
Proof.
  intros Ha Hc. destruct (Z.eq_dec c 0) as [->|Hc0].
  - rewrite Z.mul_0_r. lia.
  - split; [apply Z.mul_nonneg_nonneg; [apply Z.div_pos|]; lia|].
    rewrite Z.mul_comm. apply Z.mul_div_le. lia.
Qed.

Lemma u32_nonneg (x : Z) : 0 <= u32 x.
Proof. unfold u32. apply Z.mod_pos_bound. lia. Qed.

Lemma len_nonneg (p : list Z) : 0 <= len p.
Proof. unfold len. lia. Qed.

Lemma drop_0_Z (p : list Z) : drop (Z.to_nat 0) p = p.
Proof. reflexivity. Qed.

Local Abbreviation consumes s maxBytes n s1 :=
  (0 <= n <= maxBytes /\ n <= len (m_dataBuf s) /\
   m_dataBuf s1 = drop (Z.to_nat n) (m_dataBuf s) /\
   m_totalBytesOutput s1 = u64 (m_totalBytesOutput s + n)).

Lemma consumes_zero s maxBytes :
  0 <= maxBytes -> 0 <= m_totalBytesOutput s < 2 ^ 64 -> consumes s maxBytes 0 s.
Proof.
  intros Hm Ht. pose proof (len_nonneg (m_dataBuf s)).
  rewrite Z.add_0_r. unfold u64. rewrite Z.mod_small by lia. repeat split; lia.
Qed.

Lemma consumes_consume s maxBytes n :
  0 <= n <= maxBytes -> n <= len (m_dataBuf s) -> consumes s maxBytes n (consume n s).
Proof. intros H1 H2. repeat split; lia. Qed.

Ltac eqb_facts := repeat match goal with
  | H : (_ =? _) = false |- _ => apply Z.eqb_neq in H
  | H : (_ =? _) = true |- _ => apply Z.eqb_eq in H
  | H : (_ <? _) = false |- _ => apply Z.ltb_ge in H
  | H : (_ <? _) = true |- _ => apply Z.ltb_lt in H
  end.

Lemma processDffData_consumes s out maxBytes n o s1 :
  0 <= maxBytes -> 0 <= channels (m_format s) -> 0 <= m_totalBytesOutput s < 2 ^ 64 ->
  processDffData s out maxBytes = (n, o, s1) -> consumes s maxBytes n s1.
Proof.
  intros Hm Hc Ht E. unfold processDffData in E. cbv zeta in E.
  pose proof (len_nonneg (m_dataBuf s)).
  repeat case_match; simplify_eq; try (apply consumes_zero; assumption).
  eqb_facts. apply consumes_consume;
    pose proof (div_mul_bounds (Z.min (len (m_dataBuf s)) maxBytes) (channels (m_format s)));
    lia.
Qed.

Lemma processDsfBlocks_consumes s out maxBytes n o s1 :
  0 <= maxBytes -> 0 <= channels (m_format s) -> 0 <= m_totalBytesOutput s < 2 ^ 64 ->
  processDsfBlocks s out maxBytes = (n, o, s1) -> consumes s maxBytes n s1.
Proof.
  intros Hm Hc Ht E. unfold processDsfBlocks in E. cbv zeta in E.
  pose proof (len_nonneg (m_dataBuf s)) as Hl.
  pose proof (u32_nonneg (blockSizePerChannel (m_format s) * channels (m_format s))) as Hbg.
  set (bg := u32 (blockSizePerChannel (m_format s) * channels (m_format s))) in *.
  set (ch := channels (m_format s)) in *.
  set (avail := len (m_dataBuf s)) in *.
  repeat case_match; simplify_eq; try (apply consumes_zero; assumption); eqb_facts.
  - (* end-of-file tail, capped by maxBytes *)
    apply consumes_consume;
      pose proof (div_mul_bounds maxBytes ch Hm Hc);
      pose proof (div_mul_bounds avail ch Hl Hc); lia.
  - apply consumes_consume;
      pose proof (div_mul_bounds avail ch Hl Hc); lia.
  - (* whole block groups *)
    assert (0 < bg) by lia.
    pose proof (div_mul_bounds maxBytes bg Hm Hbg).
    pose proof (div_mul_bounds avail bg Hl Hbg).
    assert (Hg : 0 <= Z.min (maxBytes / bg) (avail / bg))
      by (apply Z.min_glb; apply Z.div_pos; lia).
    assert (Z.min (maxBytes / bg) (avail / bg) * bg <= maxBytes / bg * bg)
      by (apply Z.mul_le_mono_nonneg_r; lia).
    assert (Z.min (maxBytes / bg) (avail / bg) * bg <= avail / bg * bg)
      by (apply Z.mul_le_mono_nonneg_r; lia).
    apply consumes_consume; nia.
Qed.

(** [readPlanar] never returns more than [maxBytes] nor more than the
    buffered bytes, removes exactly the bytes it returns from the front
    of the data buffer, and adds them to [m_totalBytesOutput]. *)
Theorem readPlanar_consumes_returned_bytes (s : DsdStreamReader) (out : list Z)
    (maxBytes n : Z) (o : list Z) (s' : DsdStreamReader) :
  0 <= maxBytes -> 0 <= channels (m_format s) -> 0 <= m_totalBytesOutput s < 2 ^ 64 ->
  readPlanar s out maxBytes = (n, o, s') ->
  0 <= n <= maxBytes /\ n <= len (m_dataBuf s) /\
  m_dataBuf s' = drop (Z.to_nat n) (m_dataBuf s) /\
  m_totalBytesOutput s' = u64 (m_totalBytesOutput s + n).
Proof.
  intros Hm Hc Ht E.
  unfold readPlanar in E.
  assert (Hz : consumes s maxBytes 0 s) by (apply consumes_zero; assumption).
  destruct (bool_decide (m_state s = DONE) || bool_decide (m_state s = ERROR));
    [simplify_eq; exact Hz|].
  destruct (negb (bool_decide (m_state s = DATA))); [simplify_eq; exact Hz|].
  destruct (negb (m_formatReady s)); [simplify_eq; exact Hz|].
  destruct (match container (m_format s) with
            | DSF => processDsfBlocks s out maxBytes
            | DFF => processDffData s out maxBytes
            | RAW => processRawData s out maxBytes
            end) as [[r o1] s1] eqn:P.
  assert (Hs1 : consumes s maxBytes r s1).
  { destruct (container (m_format s));
      [eapply processDsfBlocks_consumes | eapply processDffData_consumes
      | eapply processDffData_consumes]; eauto. }
  destruct ((r =? 0) && bool_decide (m_dataBuf s1 = []) && m_eof s1);
    simplify_eq; exact Hs1.
Qed.

Lemma readPlanar_consumes_returned_bytes_witness :
  exists n o s', readPlanar (set_dataBuf [1; 2; 3] (set_format (mkDsdFormat 0 2 0 0 DFF false)
                   (set_formatReady true (set_state DATA reader0)))) [0; 0; 0] 3 = (n, o, s') /\
    n = 2 /\ m_dataBuf s' = [3].
Proof.
  set (s := set_dataBuf [1; 2; 3] (set_format (mkDsdFormat 0 2 0 0 DFF false)
              (set_formatReady true (set_state DATA reader0)))).
  destruct (readPlanar s [0; 0; 0] 3) as [[n o] s'] eqn:E.
  pose proof E as G. vm_compute in G. injection G as <- <- <-.
  destruct (readPlanar_consumes_returned_bytes s [0; 0; 0] 3 _ _ _
              ltac:(lia) ltac:(vm_compute; congruence) ltac:(vm_compute; split; congruence) E)
    as (_ & _ & Hb & _).
  do 3 eexists. split; [exact E|]. split; [reflexivity|]. rewrite Hb. reflexivity.
Defined.

(** A tail shorter than one frame stalls [readPlanar]: on the DFF and raw
    paths, fewer buffered bytes than channels; on the DSF path, fewer
    bytes than one block group while the data chunk is incomplete
    ([m_dataRemaining > 0], e.g. a truncated download) or fewer bytes
    than channels.  Each call then returns 0 and leaves the reader
    unchanged, so, even after [setEof], it never reaches [DONE]. *)
Theorem readPlanar_partial_frame_stalls (s : DsdStreamReader) (out : list Z) (maxBytes : Z) :
  m_state s = DATA -> m_formatReady s = true -> 0 <= maxBytes ->
  0 <= channels (m_format s) -> 0 < len (m_dataBuf s) ->
  (container (m_format s) <> DSF -> len (m_dataBuf s) < channels (m_format s)) ->
  (container (m_format s) = DSF ->
     len (m_dataBuf s) < u32 (blockSizePerChannel (m_format s) * channels (m_format s)) /\
     (0 < m_dataRemaining s \/ len (m_dataBuf s) < channels (m_format s))) ->
  readPlanar s out maxBytes = (0, out, s).
Proof.
  intros Hst Hfr Hm Hc Hl Hdff Hdsf.
  assert (Hp : match container (m_format s) with
               | DSF => processDsfBlocks s out maxBytes
               | DFF => processDffData s out maxBytes
               | RAW => processRawData s out maxBytes
               end = (0, out, s)).
  { destruct (container (m_format s)) eqn:Ec.
    - destruct (Hdsf eq_refl) as [Hlt Hor].
      unfold processDsfBlocks. cbv zeta.
      set (bg := u32 (blockSizePerChannel (m_format s) * channels (m_format s))) in *.
      set (ch := channels (m_format s)) in *.
      set (avail := len (m_dataBuf s)) in *.
      rewrite (proj2 (Z.eqb_neq bg 0)) by lia.
      rewrite (Z.div_small avail bg) by lia.
      rewrite Z.min_r by (apply Z.div_pos; lia). cbn [Z.eqb].
      destruct Hor as [Hdr|Hlc].
      + rewrite (proj2 (Z.eqb_neq (m_dataRemaining s) 0)) by lia.
        rewrite andb_false_r. reflexivity.
      + rewrite (Z.div_small avail ch) by lia. rewrite Z.mul_0_l.
        destruct (maxBytes <? 0) eqn:E0; [apply Z.ltb_lt in E0; lia|].
        destruct (m_eof s && (0 <? avail) && (m_dataRemaining s =? 0)); reflexivity.
    - unfold processDffData. cbv zeta. specialize (Hdff ltac:(congruence)).
      rewrite (proj2 (Z.eqb_neq (len (m_dataBuf s)) 0)) by lia.
      rewrite (proj2 (Z.eqb_neq (channels (m_format s)) 0)) by lia.
      rewrite (Z.div_small (Z.min _ _)) by lia. reflexivity.
    - unfold processRawData, processDffData. cbv zeta. specialize (Hdff ltac:(congruence)).
      rewrite (proj2 (Z.eqb_neq (len (m_dataBuf s)) 0)) by lia.
      rewrite (proj2 (Z.eqb_neq (channels (m_format s)) 0)) by lia.
      rewrite (Z.div_small (Z.min _ _)) by lia. reflexivity. }
  unfold readPlanar. rewrite Hst, Hfr, Hp.
  change (bool_decide (DATA = DONE)) with false.
  change (bool_decide (DATA = ERROR)) with false.
  change (bool_decide (DATA = DATA)) with true. cbn [orb negb].
  rewrite (bool_decide_eq_false_2 (m_dataBuf s = [])); [reflexivity|].
  intros Hn. unfold len in Hl. rewrite Hn in Hl. cbn in Hl. lia.
Qed.

Lemma readPlanar_partial_frame_stalls_witness :
  let s := set_eof true (set_dataBuf [1] (set_format (mkDsdFormat 2822400 2 0 0 DFF false)
             (set_formatReady true (set_state DATA reader0)))) in
  m_eof s = true /\ readPlanar s [0; 0; 0; 0] 4 = (0, [0; 0; 0; 0], s).
Proof.
  cbv zeta. split; [reflexivity|].
  apply readPlanar_partial_frame_stalls; cbn; unfold len; cbn;
    first [reflexivity | lia | intros _; lia | discriminate].
Defined.


(** Raw DSD (no container, announced by [setRawDsdFormat]): when the
    first bytes fed are not a DSF or DFF magic, every byte fed, in this
    and all later calls, lands in the data buffer in order, with no limit
    ([m_dataRemaining] stays 0). *)
Theorem raw_dsd_stream_passes_through (rate ch : Z) (d1 : list Z) (ds : list (list Z)) :
  4 <= len d1 -> magic_atZ d1 0 "DSD " = false -> magic_atZ d1 0 "FRM8" = false ->
  exists s', feed_all (setRawDsdFormat reader0 rate ch) (d1 :: ds) = Some s' /\
    m_state s' = DATA /\ m_formatReady s' = true /\ m_dataRemaining s' = 0 /\
    m_format s' = mkDsdFormat rate ch 0 0 RAW false /\ m_dataBuf s' = d1 ++ concat ds.
Proof.
  intros Hl H1 H2. cbn [feed_all]. unfold feed at 1, detectContainer.
  cbn -[len magic_atZ]. rewrite (proj2 (Z.ltb_ge _ _) Hl), H1, H2. cbn -[len magic_atZ].
  rewrite bool_decide_eq_true_2 by reflexivity. cbn -[len magic_atZ feed_all].
  match goal with |- exists _, feed_all ?s0 _ = _ /\ _ => set (s1 := s0) end.
  destruct (feed_all_unlimited s1 ds) as (s' & E & Hs & Hd & Hb & Hf & Hr);
    [reflexivity | reflexivity |].
  exists s'. rewrite Hb, Hf, Hr. repeat split; auto.
Qed.

Lemma raw_dsd_stream_passes_through_witness :
  exists s', feed_all (setRawDsdFormat reader0 2822400 2) [[1; 2; 3; 4]; [5]; [6; 7]] = Some s' /\
    m_dataBuf s' = [1; 2; 3; 4; 5; 6; 7].
Proof.
  destruct (raw_dsd_stream_passes_through 2822400 2 [1; 2; 3; 4] [[5]; [6; 7]])
    as (s' & E & _ & _ & _ & _ & Hb).
  - vm_compute. congruence.
  - vm_compute. reflexivity.
  - vm_compute. reflexivity.
  - exists s'. split; [exact E|]. rewrite Hb. reflexivity.
Defined.
End DsdReaderFacts.

Module SlimprotoRecvFacts.
Import Slimproto Http SlimprotoRecv ByteFacts.

Lemma readExact_loop_some (fuel : nat) (n : nat) (acc : list Z) (s : Sock) out s' :
  readExact_loop fuel (Z.of_nat n) acc s = (Some out, s') ->
  out = acc ++ take n (sbytes s) /\ sbytes s' = drop n (sbytes s) /\
  (n <= length (sbytes s))%nat.
Proof.
  revert n acc s. induction fuel as [|f IH]; intros n acc s E; cbn in E; [discriminate|].
  destruct (0 <? Z.of_nat n) eqn:Hn.
  2:{ injection E as <- <-. apply Z.ltb_ge in Hn. assert (n = 0%nat) by lia. subst n.
      rewrite app_nil_r. cbn. split; [reflexivity|]. split; [reflexivity|]. lia. }
  apply Z.ltb_lt in Hn. unfold sock_recv in E.
  destruct s as [bytes es]; cbn [sevs sbytes] in *.
  destruct es as [|e es]; [discriminate|].
  destruct e as [k| |].
  - destruct bytes as [|b bs]; [discriminate|].
    rewrite (proj2 (Z.leb_gt _ _) Hn) in E.
    rewrite Nat2Z.id in E.
    set (m := Nat.min (S k) (Nat.min n (length (b :: bs)))) in E.
    rewrite length_take in E.
    assert (Hm : (1 <= m <= n)%nat /\ (m <= length (b :: bs))%nat) by (cbn [length] in *; lia).
    replace (Z.of_nat n - Z.of_nat (Nat.min m (length (b :: bs))))
      with (Z.of_nat (n - m)) in E by lia.
    apply IH in E as (Ho & Hb & Hl). cbn [sbytes] in Ho, Hb, Hl.
    rewrite drop_drop in Hb. rewrite length_drop in Hl.
    replace (m + (n - m))%nat with n in Hb by lia.
    split; [|split; [exact Hb|lia]].
    rewrite Ho, <- app_assoc, take_take_drop. f_equal. f_equal. lia.
  - apply IH in E as (Ho & Hb & Hl). auto.
  - discriminate.
Qed.

Lemma readExact_some (s : Sock) (n : nat) out s' :
  readExact s (Z.of_nat n) = (Some out, s') ->
  out = take n (sbytes s) /\ sbytes s' = drop n (sbytes s) /\ (n <= length (sbytes s))%nat.
Proof. apply readExact_loop_some. Qed.

Lemma readExact_loop_full (fuel n : nat) (acc : list Z) (s : Sock) :
  ~ In Fail (sevs s) -> (n <= length (sbytes s))%nat -> (n <= chunks (sevs s))%nat ->
  (length (sevs s) < fuel)%nat ->
  exists s', readExact_loop fuel (Z.of_nat n) acc s = (Some (acc ++ take n (sbytes s)), s') /\
    sbytes s' = drop n (sbytes s) /\ ~ In Fail (sevs s') /\
    (chunks (sevs s) <= chunks (sevs s') + n)%nat /\
    (length (sevs s') <= length (sevs s))%nat /\
    (0 < n -> length (sevs s') < length (sevs s))%nat.
Proof.
  revert n acc s. induction fuel as [|f IH]; intros n acc s Hf Hb Hc Hl; [lia|].
  cbn [readExact_loop]. destruct (0 <? Z.of_nat n) eqn:Hn.
  2:{ apply Z.ltb_ge in Hn. assert (n = 0%nat) by lia. subst n. exists s.
      rewrite app_nil_r. cbn [take drop]. repeat split; auto; lia. }
  apply Z.ltb_lt in Hn. unfold sock_recv.
  destruct s as [bytes es]; cbn [sevs sbytes length chunks] in *.
  destruct es as [|e es]; [cbn in Hc; lia|].
  destruct e as [k| |]; cbn [chunks length] in Hc, Hl.
  - destruct bytes as [|b bs]; [cbn in Hb; lia|].
    rewrite (proj2 (Z.leb_gt _ _) Hn), Nat2Z.id.
    set (m := Nat.min (S k) (Nat.min n (length (b :: bs)))).
    rewrite length_take.
    assert (Hm : (1 <= m <= n)%nat /\ (m <= length (b :: bs))%nat) by (cbn [length] in *; lia).
    replace (Z.of_nat n - Z.of_nat (Nat.min m (length (b :: bs))))
      with (Z.of_nat (n - m)) by lia.
    destruct (IH (n - m)%nat (acc ++ take m (b :: bs)) {| sbytes := drop m (b :: bs); sevs := es |})
      as (s' & E & Hb' & Hf' & Hc' & Hl' & _); cbn [sbytes sevs] in *.
    + intros Hi. apply Hf. right. exact Hi.
    + rewrite length_drop. lia.
    + lia.
    + lia.
    + exists s'. rewrite E, <- app_assoc, take_take_drop, Hb', drop_drop.
      replace (m + (n - m))%nat with n by lia. cbn [chunks length]. repeat split; auto; lia.
  - destruct (IH n acc {| sbytes := bytes; sevs := es |})
      as (s' & E & Hb' & Hf' & Hc' & Hl' & _); cbn [sbytes sevs] in *.
    + intros Hi. apply Hf. right. exact Hi.
    + exact Hb.
    + exact Hc.
    + lia.
    + exists s'. rewrite E. cbn [chunks length]. repeat split; auto; lia.
  - exfalso. apply Hf. left. reflexivity.
Qed.

Lemma rd_be16_be16 (x : Z) : 0 <= x < 65536 -> rd_be16 (be16 x) 0 = x.
Proof.
  intros Hx. unfold rd_be16, be16, at_.
  change (Z.to_nat 0) with 0%nat. change (Z.to_nat (0 + 1)) with 1%nat. cbn [nth].
  change 255 with (Z.ones 8). rewrite !Z.land_ones, Z.shiftr_div_pow2, Z.shiftl_mul_pow2 by lia.
  change (2 ^ 8) with 256.
  assert (Hq : 0 <= x / 256 < 256).
  { split; [apply Z.div_pos; lia | apply Z.div_lt_upper_bound; lia]. }
  rewrite (Z.mod_small (x / 256)) by exact Hq.
  pose proof (Z.mod_pos_bound x 256 ltac:(lia)) as Hr.
  rewrite Z.lor_comm, (lor_low_add _ _ 8).
  - pose proof (Z.div_mod x 256). lia.
  - lia.
  - exact Hr.
  - lia.
  - apply Z.mod_mul. lia.
Qed.

Lemma wire_cons (w : wire_item) (ws : list wire_item) :
  wire (w :: ws) = wire_bytes w ++ wire ws.
Proof. reflexivity. Qed.

Lemma run_loop_prefix (fuel : nat) (c : Client) (ws : list wire_item) (es : list recv_ev) :
  Forall wire_ok ws ->
  exists k, (k <= length ws)%nat /\
    fst (run_loop fuel c {| sbytes := wire ws; sevs := es |}) = dispatch c (take k ws).
Proof.
  revert fuel c es. induction ws as [|w ws IH]; intros fuel c es Hok.
  { exists 0%nat. split; [lia|]. destruct fuel as [|f]; [reflexivity|]. cbn [run_loop].
    destruct (readExact _ 2) as [[hdr|] s1] eqn:E1; [|reflexivity].
    exfalso. apply (readExact_some _ 2%nat) in E1 as (_ & _ & Hl). cbn in Hl. lia. }
  inversion Hok as [|? ? Hw Hok']; subst.
  destruct fuel as [|f]; [exists 0%nat; split; [lia|reflexivity]|]. cbn [run_loop].
  destruct (readExact _ 2) as [[hdr|] s1] eqn:E1; [|exists 0%nat; split; [lia|reflexivity]].
  apply (readExact_some _ 2%nat) in E1 as (Hh & Hb1 & _). cbn [sbytes] in Hh, Hb1.
  rewrite wire_cons in Hh, Hb1.
  destruct s1 as [b1 e1]; cbn [sbytes] in Hb1; subst b1.
  destruct w as [o p|l]; cbn [wire_ok wire_bytes] in Hw, Hh |- *.
  - destruct Hw as [Ho Hp].
    rewrite <- !app_assoc, take_app_length' in Hh by reflexivity.
    rewrite <- !app_assoc, drop_app_length' by reflexivity. subst hdr.
    rewrite rd_be16_be16 by lia. cbv zeta.
    rewrite (proj2 (Z.ltb_ge _ _)) by lia.
    destruct (readExact _ 4) as [[o'|] s2] eqn:E2; [|exists 0%nat; split; [lia|reflexivity]].
    apply (readExact_some _ 4%nat) in E2 as (Ho' & Hb2 & _). cbn [sbytes] in Ho', Hb2.
    rewrite take_app_length' in Ho' by auto. rewrite drop_app_length' in Hb2 by auto.
    subst o'. destruct s2 as [b2 e2]; cbn [sbytes] in Hb2; subst b2.
    replace (4 + Z.of_nat (length p) - 4) with (Z.of_nat (length p)) by lia.
    assert (Hpay : exists s3, (if 0 <? Z.of_nat (length p)
        then readExact {| sbytes := p ++ wire ws; sevs := e2 |} (Z.of_nat (length p))
        else (Some [], {| sbytes := p ++ wire ws; sevs := e2 |})) = (None, s3) \/
      ((if 0 <? Z.of_nat (length p)
        then readExact {| sbytes := p ++ wire ws; sevs := e2 |} (Z.of_nat (length p))
        else (Some [], {| sbytes := p ++ wire ws; sevs := e2 |})) = (Some p, s3) /\
       sbytes s3 = wire ws)).
    { destruct (0 <? Z.of_nat (length p)) eqn:Hz.
      - destruct (readExact _ _) as [[p'|] s3] eqn:E3; [|exists s3; left; reflexivity].
        apply readExact_some in E3 as (Hp' & Hb3 & _). cbn [sbytes] in Hp', Hb3.
        rewrite take_app_length' in Hp' by auto. rewrite drop_app_length' in Hb3 by auto.
        subst p'. exists s3. right. auto.
      - apply Z.ltb_ge in Hz. destruct p; [|cbn [length] in Hz; lia].
        eexists. right. split; reflexivity. }
    destruct Hpay as (s3 & [E3 | [E3 Hb3]]); rewrite E3; [exists 0%nat; split; [lia|reflexivity]|].
    destruct (processServerMessage c o p) as [c' es1] eqn:Ep.
    destruct s3 as [b3 e3]; cbn [sbytes] in Hb3; subst b3.
    destruct (IH f c' e3 Hok') as (k & Hk & Ek).
    destruct (run_loop f c' _) as [[c'' es2] s4] eqn:Er. cbn [fst] in Ek |- *.
    exists (S k). split; [cbn [length]; lia|]. cbn [take dispatch]. rewrite Ep, <- Ek. reflexivity.
  - rewrite take_app_length' in Hh by reflexivity. rewrite drop_app_length' by reflexivity.
    subst hdr. rewrite rd_be16_be16 by lia. cbv zeta.
    rewrite (proj2 (Z.ltb_lt _ _)) by lia.
    destruct (IH f c e1 Hok') as (k & Hk & Ek).
    exists (S k). split; [cbn [length]; lia|]. cbn [take dispatch]. exact Ek.
Qed.

Lemma readExact_step (s : Sock) (pre rest : list Z) :
  ~ In Fail (sevs s) -> sbytes s = pre ++ rest -> (length (sbytes s) <= chunks (sevs s))%nat ->
  exists s', readExact s (Z.of_nat (length pre)) = (Some pre, s') /\ sbytes s' = rest /\
    ~ In Fail (sevs s') /\ (length rest <= chunks (sevs s'))%nat /\
    (length (sevs s') <= length (sevs s))%nat /\
    (0 < length pre -> length (sevs s') < length (sevs s))%nat.
Proof.
  intros Hf Hb Hc. rewrite Hb, length_app in Hc.
  destruct (readExact_loop_full (S (length (sevs s))) (length pre) [] s)
    as (s' & E & Hb' & Hf' & Hc' & Hl' & Hlt'); rewrite ?Hb, ?length_app; try lia; auto.
  exists s'. unfold readExact. rewrite E, Hb', Hb, take_app_length, drop_app_length.
  repeat split; auto; lia.
Qed.

Lemma run_loop_all (fuel : nat) (c : Client) (ws : list wire_item) (es : list recv_ev) :
  Forall wire_ok ws -> ~ In Fail es -> (length (wire ws) <= chunks es)%nat ->
  (length es < fuel)%nat ->
  fst (run_loop fuel c {| sbytes := wire ws; sevs := es |}) = dispatch c ws.
Proof.
  revert fuel c es. induction ws as [|w ws IH]; intros fuel c es Hok Hf Hc Hl.
  { destruct fuel as [|f]; [reflexivity|]. cbn [run_loop].
    destruct (readExact _ 2) as [[hdr|] s1] eqn:E1; [|reflexivity].
    exfalso. apply (readExact_some _ 2%nat) in E1 as (_ & _ & Hl'). cbn in Hl'. lia. }
  inversion Hok as [|? ? Hw Hok']; subst.
  destruct fuel as [|f]; [lia|]. cbn [run_loop].
  rewrite wire_cons in Hc.
  destruct w as [o p|l]; cbn [wire_ok wire_bytes] in Hw, Hc |- *.
  - destruct Hw as [Ho Hp].
    destruct (readExact_step {| sbytes := wire (Frame o p :: ws); sevs := es |}
      (be16 (4 + Z.of_nat (length p))) (o ++ p ++ wire ws))
      as (s1 & E1 & Hb1 & Hf1 & Hc1 & Hl1 & Hlt1); cbn [sbytes sevs];
      [exact Hf | rewrite wire_cons; cbn [wire_bytes]; rewrite <- !app_assoc; reflexivity
      | rewrite wire_cons; exact Hc |].
    change (Z.of_nat (length (be16 _))) with 2 in E1. cbn [length be16] in Hlt1. specialize (Hlt1 ltac:(lia)). rewrite E1. cbv zeta.
    rewrite rd_be16_be16 by lia. rewrite (proj2 (Z.ltb_ge _ _)) by lia.
    destruct (readExact_step s1 o (p ++ wire ws))
      as (s2 & E2 & Hb2 & Hf2 & Hc2 & Hl2 & _); [exact Hf1 | exact Hb1 | rewrite Hb1; exact Hc1 |].
    rewrite Ho in E2. change (Z.of_nat 4) with 4 in E2. rewrite E2.
    replace (4 + Z.of_nat (length p) - 4) with (Z.of_nat (length p)) by lia.
    assert (Hpay : exists s3, (if 0 <? Z.of_nat (length p) then readExact s2 (Z.of_nat (length p))
        else (Some [], s2)) = (Some p, s3) /\ sbytes s3 = wire ws /\ ~ In Fail (sevs s3) /\
        (length (wire ws) <= chunks (sevs s3))%nat /\ (length (sevs s3) <= length (sevs s2))%nat).
    { destruct (0 <? Z.of_nat (length p)) eqn:Hz.
      - destruct (readExact_step s2 p (wire ws))
          as (s3 & E3 & Hb3 & Hf3 & Hc3 & Hl3 & _); [exact Hf2 | exact Hb2 | rewrite Hb2; exact Hc2 |].
        exists s3. rewrite E3. auto.
      - apply Z.ltb_ge in Hz. destruct p; [|cbn [length] in Hz; lia].
        exists s2. cbn [app] in Hb2, Hc2. auto. }
    destruct Hpay as (s3 & E3 & Hb3 & Hf3 & Hc3 & Hl3). rewrite E3.
    destruct (processServerMessage c o p) as [c' es1] eqn:Ep.
    destruct s3 as [b3 e3]; cbn [sbytes sevs] in Hb3, Hf3, Hc3, Hl3; subst b3.
    cbn [sevs] in Hlt1. pose proof (IH f c' e3 Hok' Hf3 Hc3 ltac:(lia)) as Ek.
    destruct (run_loop f c' _) as [[c'' es2] s4] eqn:Er. cbn [fst] in Ek |- *.
    cbn [dispatch]. rewrite Ep, <- Ek. reflexivity.
  - destruct (readExact_step {| sbytes := wire (Short l :: ws); sevs := es |}
      (be16 l) (wire ws)) as (s1 & E1 & Hb1 & Hf1 & Hc1 & Hl1 & Hlt1); cbn [sbytes sevs];
      [exact Hf | reflexivity | rewrite wire_cons; exact Hc |].
    change (Z.of_nat (length (be16 _))) with 2 in E1. cbn [length be16] in Hlt1. specialize (Hlt1 ltac:(lia)). rewrite E1. cbv zeta.
    rewrite rd_be16_be16 by lia. rewrite (proj2 (Z.ltb_lt _ _)) by lia.
    destruct s1 as [b1 e1]; cbn [sbytes sevs] in Hb1, Hf1, Hc1, Hlt1; subst b1.
    cbn [dispatch]. apply IH; auto. lia.
Qed.

(** [SlimprotoClient::run] with [readExact] delivers well-formed server
    frames to [processServerMessage] exactly: whatever the socket does
    ([recv] returning short reads, [EINTR], errors, or the peer
    closing), the messages handled and their effects are those of the
    first [k] frames sent, in order, and never of a partial frame; length
    fields below 4 are skipped.  When no [recv] fails and enough reads
    deliver data, every frame is handled. *)
Theorem run_dispatches_frames (c : Client) (ws : list wire_item) (es : list recv_ev) :
  Forall wire_ok ws ->
  (exists k, (k <= length ws)%nat /\
     fst (run c {| sbytes := wire ws; sevs := es |}) = dispatch c (take k ws)) /\
  (~ In Fail es -> (length (wire ws) <= chunks es)%nat ->
     fst (run c {| sbytes := wire ws; sevs := es |}) = dispatch c ws).
Proof.
  intros Hok. split.
  - apply run_loop_prefix. exact Hok.
  - intros Hf Hc. apply run_loop_all; auto.
Qed.

Lemma run_dispatches_frames_witness :
  fst (run client0 {| sbytes := wire [Short 2; Frame (bytes_of_string "setd") [0];
                                      Frame (bytes_of_string "vers") [55]];
                      sevs := repeat (Chunk 0) 20 ++ [Intr] ++ repeat (Chunk 2) 10 |}) =
  (client0, [sendMessage "SETD" (0 :: c_playerName client0)]).
Proof.
  rewrite (proj2 (run_dispatches_frames client0 [Short 2; Frame (bytes_of_string "setd") [0];
                   Frame (bytes_of_string "vers") [55]]
                   (repeat (Chunk 0) 20 ++ [Intr] ++ repeat (Chunk 2) 10)
                   ltac:(repeat constructor; cbn; lia))).
  - vm_compute. reflexivity.
  - simpl. intuition discriminate.
  - vm_compute. lia.
Defined.

End SlimprotoRecvFacts.

Module HttpReadFacts.
Import Http HttpFacts.

Lemma readRaw_spec h c n bs h2 :
  readRaw h c = (n, bs, h2) ->
  cfg_eq h h2 /\
  ((bs = [] /\ (n = 0 \/ n = -1)) \/ (n = Z.of_nat (length bs) /\ 0 < n /\ n <= c)).
Proof.
  unfold readRaw. intros E. destruct (negb (sockOpen h)).
  { inversion E; subst. split; [apply cfg_eq_refl | auto]. }
  destruct (recv h c) as [r0 h0] eqn:R. recv_case R.
  - inversion E; subst. split; [apply cfg_eq_set_connected; auto | auto].
  - inversion E; subst. split; [auto | auto].
  - inversion E; subst. split; [apply cfg_eq_set_connected; auto | auto].
  - rewrite length_firstn in E. inversion E; subst. split; [auto|]. right. rewrite length_firstn. lia.
Qed.

Lemma u64_nil b : 0 <= b < 2 ^ 64 -> b = u64 (b + Z.of_nat (length (@nil Z))).
Proof. intros Hb. unfold u64. cbn. rewrite Z.add_0_r, Z.mod_small by lia. reflexivity. Qed.

Lemma read_spec h maxLen n bs h' :
  0 <= bytesReceived h < 2 ^ 64 ->
  read h maxLen = (n, bs, h') ->
  bytesReceived h' = u64 (bytesReceived h + Z.of_nat (length bs)) /\
  ((bs = [] /\ (n = 0 \/ n = -1)) \/ (n = Z.of_nat (length bs) /\ 0 < n /\ n <= maxLen)).
Proof.
  unfold read. intros H64 E. destruct (negb (sockOpen h)).
  { inversion E; subst. split; [apply u64_nil, H64 | auto]. }
  destruct (icyMetaInt h =? 0).
  { destruct (readRaw h maxLen) as [[n0 bs0] h2] eqn:RR.
    apply readRaw_spec in RR as ((_ & _ & _ & Hb) & C). inversion E; subst n0 bs0 h'.
    destruct C as [(-> & Hn) | (Hn & Hp & Hm)].
    - replace (0 <? n) with false by lia. split; [rewrite Hb; apply u64_nil, H64 | auto].
    - replace (0 <? n) with true by lia. cbn. split; [rewrite Hb, Hn; reflexivity | auto]. }
  destruct (Z.min maxLen (icyBytesUntilMeta h) =? 0) eqn:Hc0.
  - destruct (skipIcyMetadata h) as [ok h1] eqn:S.
    apply skipIcyMetadata_spec in S as ((_ & _ & _ & Hb1) & _).
    destruct ok; cbn [negb] in E.
    + destruct (readRaw _ _) as [[n0 bs0] h2] eqn:RR.
      apply readRaw_spec in RR as ((_ & _ & _ & Hb) & C). inversion E; subst n0 bs0 h'.
      cbn in Hb. destruct C as [(-> & Hn) | (Hn & Hp & Hm)].
      * replace (0 <? n) with false by lia. split; [rewrite Hb, Hb1; apply u64_nil, H64 | auto].
      * replace (0 <? n) with true by lia. cbn. split; [rewrite Hb, Hb1, Hn; reflexivity | right; lia].
    + inversion E; subst. split; [rewrite Hb1; apply u64_nil, H64 | auto].
  - destruct (readRaw h _) as [[n0 bs0] h2] eqn:RR.
    apply readRaw_spec in RR as ((_ & _ & _ & Hb) & C). inversion E; subst n0 bs0 h'.
    destruct C as [(-> & Hn) | (Hn & Hp & Hm)].
    + replace (0 <? n) with false by lia. split; [rewrite Hb; apply u64_nil, H64 | auto].
    + replace (0 <? n) with true by lia. cbn. split; [rewrite Hb, Hn; reflexivity | right; lia].
Qed.

Lemma do_read_spec h o n bs h' :
  0 <= bytesReceived h < 2 ^ 64 ->
  do_read h o = (n, bs, h') ->
  bytesReceived h' = u64 (bytesReceived h + Z.of_nat (length bs)) /\
  ((bs = [] /\ (n = 0 \/ n = -1)) \/
   (n = Z.of_nat (length bs) /\ 0 < n /\ n <= op_maxLen o)).
Proof.
  intros H64. destruct o as [m | p m]; cbn [do_read op_maxLen]; [apply read_spec, H64|].
  unfold readWithTimeout. intros E. destruct (negb (sockOpen h)).
  { inversion E; subst. split; [apply u64_nil, H64 | auto]. }
  destruct p; try (apply read_spec; [exact H64 | exact E]);
    inversion E; subst; (split; [apply u64_nil, H64 | auto]).
Qed.

Local Abbreviation endseq_ok es rb :=
  (es = 0 \/ (es = 1 /\ exists t, rb = 13 :: t) \/ (es = 2 /\ exists t, rb = 10 :: 13 :: t) \/
   (es = 3 /\ exists t, rb = 13 :: 10 :: 13 :: t) \/
   (es = 4 /\ exists t, rb = 10 :: 13 :: 10 :: 13 :: t)).

Lemma endseq_step es rb c :
  endseq_ok es rb ->
  let es' := endSeq_step es c in
  endseq_ok es' (c :: rb) /\ (es' = 4 -> exists t, c :: rb = 10 :: 13 :: 10 :: 13 :: t).
Proof.
  intros H es'. subst es'. unfold endSeq_step.
  destruct H as [-> | [(-> & t & ->) | [(-> & t & ->) | [(-> & t & ->) | (-> & t & ->)]]]];
    destruct (Z.eqb_spec c 13) as [->|H13]; cbn;
    try (destruct (Z.eqb_spec c 10) as [->|H10]; cbn);
    try (split; [|intros; lia]); eauto 10.
Qed.

Lemma header_loop_bytes fuel rb size es h hdr h' :
  endseq_ok es rb -> header_loop fuel rb size es h = (Some hdr, h') ->
  (exists pre, sock h = pre ++ sock h' /\ hdr = rev rb ++ pre) /\
  exists pre, hdr = pre ++ [13; 10; 13; 10].
Proof.
  revert rb size es h; induction fuel as [|f IH]; intros rb size es h Hes E;
    [discriminate|].
  cbn in E. destruct (recv h 1) as [r0 h0] eqn:R. recv_case R.
  - discriminate.
  - destruct (IH _ _ _ _ Hes E) as [(pre & Hs & Hh) Ht]. split; [|exact Ht].
    exists pre. rewrite <- Hs'. auto.
  - discriminate.
  - destruct (sock h) as [|b rest] eqn:Hsh; [cbn in Hml; lia|].
    destruct m as [|m]; [lia|]. destruct m as [|m]; [|lia]. cbn in E, Hs'.
    destruct (endseq_step es rb b Hes) as [Hes' H4].
    set (es' := endSeq_step es b) in *.
    destruct (es' =? 4) eqn:E4.
    + inversion E; subst hdr h'. apply Z.eqb_eq in E4.
      destruct (H4 E4) as (t & Ht). split.
      * exists [b]. rewrite Hs'. auto.
      * change (rev rb ++ [b]) with (rev (b :: rb)). rewrite Ht. exists (rev t). cbn. rewrite <- !app_assoc. reflexivity.
    + destruct (16384 <? size + 1); [discriminate|].
      destruct (IH _ _ _ _ Hes' E) as [(pre & Hs & Hh) Ht]. split; [|exact Ht].
      exists (b :: pre). cbn [app]. rewrite <- Hs, Hs'. split; [reflexivity|].
      rewrite Hh. cbn. rewrite <- app_assoc. reflexivity.
Qed.

Lemma recv_httpStatus h n r h' : recv h n = (r, h') -> httpStatus h' = httpStatus h.
Proof. unfold recv. intros E. repeat case_match; simplify_eq; reflexivity. Qed.

Lemma header_loop_httpStatus fuel rb size es h hdr h' :
  header_loop fuel rb size es h = (Some hdr, h') -> httpStatus h' = httpStatus h.
Proof.
  revert rb size es h; induction fuel as [|f IH]; intros rb size es h E; [discriminate|].
  cbn in E. destruct (recv h 1) as [r0 h0] eqn:R. apply recv_httpStatus in R.
  repeat case_match; simplify_eq; try congruence; rewrite <- R; eapply IH; eauto.
Qed.

(** [HttpStreamClient::read] and [readWithTimeout] either hand the
    caller [n] bytes with [0 < n <= maxLen] and return [n], or hand
    nothing and return 0 (EOF, [EINTR], timeout) or -1 (error); the
    [uint64_t] counter [bytesReceived] grows, modulo 2^64, by exactly the
    bytes handed over, never counting ICY metadata. *)
Theorem read_return_contract (h : Http) (o : ReadOp) (n : Z) (bs : list Z) (h' : Http) :
  0 <= bytesReceived h < 2 ^ 64 ->
  do_read h o = (n, bs, h') ->
  bytesReceived h' = u64 (bytesReceived h + Z.of_nat (length bs)) /\
  ((bs = [] /\ (n = 0 \/ n = -1)) \/
   (n = Z.of_nat (length bs) /\ 0 < n /\ n <= op_maxLen o)).
Proof. apply do_read_spec. Qed.

Lemma read_return_contract_witness :
  exists h', do_read (with_sock [1; 2; 3] [Chunk 5] false (set_header_state true [] 0 0 0 (client_on [] 0))) (OpRead 2)
             = (2, [1; 2], h') /\ bytesReceived h' = 2.
Proof.
  destruct (do_read (with_sock [1; 2; 3] [Chunk 5] false (set_header_state true [] 0 0 0 (client_on [] 0))) (OpRead 2))
    as [[n bs] h'] eqn:E.
  pose proof E as G. vm_compute in G. injection G as <- <- _.
  match type of E with do_read ?x _ = _ =>
    assert (H0 : 0 <= bytesReceived x < 2 ^ 64) by (split; vm_compute; first [reflexivity | intros; discriminate]) end.
  destruct (read_return_contract _ _ _ _ _ H0 E) as [Hb _].
  exists h'. split; [first [exact E | reflexivity]|]. rewrite Hb. vm_compute. reflexivity.
Defined.

(** Over any sequence of [read] / [readWithTimeout] calls, the
    [uint64_t] counter [bytesReceived] grows, modulo 2^64, by exactly
    the number of bytes handed to the caller. *)
Theorem run_reads_bytesReceived (h : Http) (ops : list ReadOp) (out : list Z) (h' : Http) :
  0 <= bytesReceived h < 2 ^ 64 ->
  run_reads h ops = (out, h') ->
  bytesReceived h' = u64 (bytesReceived h + Z.of_nat (length out)).
Proof.
  revert h out; induction ops as [|o os IH]; intros h out H64 E.
  - inversion E; subst. apply u64_nil, H64.
  - cbn in E. destruct (do_read h o) as [[n bs] h1] eqn:D.
    destruct (run_reads h1 os) as [rest h2] eqn:RR. inversion E; subst.
    apply do_read_spec in D as [Hb _]; [|exact H64].
    assert (H1 : 0 <= bytesReceived h1 < 2 ^ 64) by (rewrite Hb; unfold u64; apply Z.mod_pos_bound; lia).
    apply IH in RR; [|exact H1]. rewrite RR, Hb, length_app. unfold u64.
    rewrite Zplus_mod_idemp_l. f_equal. lia.
Qed.

Lemma run_reads_bytesReceived_witness :
  exists h', run_reads (with_sock [1; 2; 3; 4; 5] (repeat (Chunk 1) 5) false
                          (set_header_state true [] 0 0 0 (client_on [] 0)))
               [OpRead 2; OpReadTimeout PTimeout 4; OpRead 4] = ([1; 2; 3; 4], h') /\
    bytesReceived h' = 4.
Proof.
  destruct (run_reads (with_sock [1; 2; 3; 4; 5] (repeat (Chunk 1) 5) false
                          (set_header_state true [] 0 0 0 (client_on [] 0)))
               [OpRead 2; OpReadTimeout PTimeout 4; OpRead 4]) as [out h'] eqn:E.
  pose proof E as G. vm_compute in G. injection G as <- _.
  exists h'. split; [reflexivity|].
  match type of E with run_reads ?x _ = _ =>
    assert (H0 : 0 <= bytesReceived x < 2 ^ 64) by (split; vm_compute; first [reflexivity | intros; discriminate]) end.
  rewrite (run_reads_bytesReceived _ _ _ _ H0 E). reflexivity.
Defined.

Lemma endSeq_after_snoc bs c : endSeq_after (bs ++ [c]) = endSeq_step (endSeq_after bs) c.
Proof. unfold endSeq_after. rewrite fold_left_app. reflexivity. Qed.

Lemma header_loop_first fuel rb size es h hdr h' :
  header_loop fuel rb size es h = (Some hdr, h') ->
  es = endSeq_after (rev rb) -> size = Z.of_nat (length rb) -> size <= 16384 ->
  (forall k, (k <= length rb)%nat -> endSeq_after (take k (rev rb)) <> 4) ->
  endSeq_after hdr = 4 /\
  (forall k, (k < length hdr)%nat -> endSeq_after (take k hdr) <> 4) /\
  Z.of_nat (length hdr) <= 16385.
Proof.
  revert rb size es h; induction fuel as [|f IH]; intros rb size es h E Hes Hsz Hle Hpre;
    [discriminate|].
  cbn in E. destruct (recv h 1) as [[[|c bs]| |[]] h0]; try discriminate.
  2: exact (IH _ _ _ _ E Hes Hsz Hle Hpre).
  assert (Hsnoc : endSeq_after (rev rb ++ [c]) = endSeq_step es c)
    by (rewrite endSeq_after_snoc, Hes; reflexivity).
  assert (Hpre' : forall k, (k <= length rb)%nat -> endSeq_after (take k (rev rb ++ [c])) <> 4).
  { intros k Hk. rewrite take_app_le by (rewrite length_rev; lia). apply Hpre, Hk. }
  destruct (endSeq_step es c =? 4) eqn:E4.
  - inversion E; subst hdr h'. apply Z.eqb_eq in E4. rewrite Hsnoc.
    rewrite length_app, length_rev. cbn [length]. split; [exact E4|]. split; [|lia].
    intros k Hk. apply Hpre'. lia.
  - destruct (16384 <? size + 1) eqn:Hs; [discriminate|]. apply Z.ltb_ge in Hs.
    apply (IH _ _ _ _ E); [cbn [rev]; symmetry; exact Hsnoc | cbn [length]; lia | lia |].
    intros k Hk. cbn [length rev] in *. destruct (decide (k = S (length rb))) as [->|Hne].
    + rewrite take_ge by (rewrite length_app, length_rev; cbn; lia). rewrite Hsnoc. apply Z.eqb_neq, E4.
    + apply Hpre'. lia.
Qed.

(** When [HttpStreamClient::connect] succeeds, the stored response
    headers are the first bytes of the stream up to the shortest prefix
    on which the [endSeq] tracking of [parseResponseHeaders] reaches 4
    (so they end in CR LF CR LF; at most 16385 bytes), and the body is
    left in the socket; [httpStatus] is the number after the first space,
    0 when the first line is too short; [bytesReceived] starts at 0 and the
    client is connected. *)
Theorem connect_success_state (h h' : Http) :
  connect h = (true, h') ->
  sock h = responseHeaders h' ++ sock h' /\
  endSeq_after (responseHeaders h') = 4 /\
  (forall k, (k < length (responseHeaders h'))%nat ->
             endSeq_after (take k (responseHeaders h')) <> 4) /\
  Z.of_nat (length (responseHeaders h')) <= 16385 /\
  (exists pre, responseHeaders h' = pre ++ [13; 10; 13; 10]) /\
  httpStatus h' = parse_status (responseHeaders h') 0 /\
  bytesReceived h' = 0 /\ connected h' = true /\ sockOpen h' = true.
Proof.
  unfold connect, parseResponseHeaders. intros E.
  destruct (header_loop _ [] 0 0 _) as [[hdr|] h1] eqn:E1; [|discriminate].
  pose proof (header_loop_httpStatus _ _ _ _ _ _ _ E1) as Hst.
  pose proof (header_loop_spec _ _ _ _ _ _ _ E1) as [(Ho & _ & _ & Hb) _].
  pose proof (header_loop_first _ _ _ _ _ _ _ E1) as Hf.
  destruct Hf as (Hf4 & Hfk & Hfl);
    [reflexivity | reflexivity | lia | intros k _; cbn [rev]; rewrite take_nil; discriminate |].
  apply header_loop_bytes in E1 as [(pre & Hs & Hh) Ht]; [|left; reflexivity].
  cbn in Ho, Hb, Hst, Hs, Hh. subst hdr.
  destruct (parse_metaint pre) as [m|] eqn:Hp; [destruct (0 <? m)|];
    inversion E; subst h'; cbn; rewrite Hst; repeat split; auto.
Qed.

Lemma connect_success_state_witness :
  exists h', connect (client_on (bytes_of_string "HTTP/1.0 404 Not Found" ++
                                 [13; 10; 13; 10; 1; 2]) 40) = (true, h') /\
    httpStatus h' = 404 /\ sock h' = [1; 2].
Proof.
  destruct (connect (client_on (bytes_of_string "HTTP/1.0 404 Not Found" ++
                                [13; 10; 13; 10; 1; 2]) 40)) as [ok h'] eqn:E.
  pose proof E as G. vm_compute in G. injection G as <- Hh.
  destruct (connect_success_state _ _ E) as (_ & _ & _ & _ & _ & Hst & _).
  exists h'. split; [first [exact E | reflexivity]|]. rewrite Hst, <- Hh. vm_compute. split; reflexivity.
Defined.

End HttpReadFacts.

Module PcmConvFacts.
Import Pcm ByteFacts.

Lemma sext_small w x : 0 < w -> 0 <= x < 2 ^ (w - 1) -> sext w x = x.
Proof.
  intros Hw Hx. unfold sext.
  replace (Z.testbit x (w - 1)) with false; [reflexivity|].
  symmetry. apply Z.testbit_false; [lia|]. rewrite Z.div_small by lia. reflexivity.
Qed.

Lemma sext_big w x : 0 < w -> 2 ^ (w - 1) <= x < 2 ^ w -> sext w x = x - 2 ^ w.
Proof.
  intros Hw Hx. unfold sext.
  assert (Hp : 2 ^ w = 2 * 2 ^ (w - 1)) by (rewrite <- Z.pow_succ_r by lia; f_equal; lia).
  replace (Z.testbit x (w - 1)) with true; [reflexivity|].
  symmetry. apply Z.testbit_true; [lia|].
  assert (x / 2 ^ (w - 1) = 1) as ->; [|reflexivity].
  symmetry. apply Z.div_unique with (r := x - 2 ^ (w - 1)); lia.
Qed.

Lemma sext_shift w s u :
  0 < w -> 0 <= s -> 0 <= u < 2 ^ w -> sext (w + s) (u * 2 ^ s) = sext w u * 2 ^ s.
Proof.
  intros Hw Hs Hu.
  assert (Hp : 2 ^ w = 2 * 2 ^ (w - 1)) by (rewrite <- Z.pow_succ_r by lia; f_equal; lia).
  assert (Hws : 2 ^ (w + s) = 2 ^ w * 2 ^ s) by (apply Z.pow_add_r; lia).
  assert (Hws1 : 2 ^ (w + s - 1) = 2 ^ (w - 1) * 2 ^ s)
    by (rewrite <- Z.pow_add_r by lia; f_equal; lia).
  assert (0 < 2 ^ s) by (apply Z.pow_pos_nonneg; lia).
  assert (0 < 2 ^ (w - 1)) by (apply Z.pow_pos_nonneg; lia).
  destruct (Z.lt_ge_cases u (2 ^ (w - 1))).
  - rewrite !sext_small by (try lia; rewrite Hws1; nia). reflexivity.
  - rewrite !sext_big by (try lia; rewrite ?Hws, ?Hws1; nia). nia.
Qed.

Lemma to_int32_id x : - 2 ^ 31 <= x < 2 ^ 31 -> to_int32 x = x.
Proof.
  intros Hx. unfold to_int32, u32. destruct (Z.lt_ge_cases x 0).
  - rewrite <- (Z.mod_unique x (2 ^ 32) (-1) (x + 2 ^ 32)) by lia.
    rewrite sext_big by lia. lia.
  - rewrite Z.mod_small by lia. apply sext_small; lia.
Qed.

Lemma lor_add_shifted a b k :
  0 <= k -> 0 <= a < 2 ^ k -> 0 <= b -> Z.lor a (b * 2 ^ k) = a + b * 2 ^ k.
Proof.
  intros Hk Ha Hb. assert (0 < 2 ^ k) by (apply Z.pow_pos_nonneg; lia).
  apply lor_low_add with (k := k); [lia | lia | nia | apply Z.mod_mul; lia].
Qed.

Lemma lor3 A B C :
  0 <= A < 256 -> 0 <= B < 256 -> 0 <= C < 256 ->
  Z.lor (Z.shiftl A 24) (Z.lor (Z.shiftl B 16) (Z.shiftl C 8)) = (C + B * 2 ^ 8 + A * 2 ^ 16) * 2 ^ 8.
Proof.
  intros HA HB HC. rewrite !Z.shiftl_mul_pow2 by lia.
  rewrite (Z.lor_comm (B * 2 ^ 16)), lor_add_shifted by (try change (2 ^ 8) with 256; lia).
  rewrite (Z.lor_comm (A * 2 ^ 24)), lor_add_shifted by (try change (2 ^ 8) with 256; lia). lia.
Qed.

Lemma sext_range w x : 0 < w -> 0 <= x < 2 ^ w -> - 2 ^ (w - 1) <= sext w x < 2 ^ (w - 1).
Proof.
  intros Hw Hx.
  assert (Hp : 2 ^ w = 2 * 2 ^ (w - 1)) by (rewrite <- Z.pow_succ_r by lia; f_equal; lia).
  destruct (Z.lt_ge_cases x (2 ^ (w - 1))).
  - rewrite sext_small by lia. lia.
  - rewrite sext_big by lia. lia.
Qed.

Lemma le16_expr b : Z.lor (at_ b 0) (Z.shiftl (at_ b 1) 8) = rd_le16 b 0.
Proof. reflexivity. Qed.
Lemma be16_expr b : Z.lor (Z.shiftl (at_ b 0) 8) (at_ b 1) = rd_be16 b 0.
Proof. reflexivity. Qed.
Lemma le32_expr b :
  Z.lor (at_ b 0) (Z.lor (Z.shiftl (at_ b 1) 8)
    (Z.lor (Z.shiftl (at_ b 2) 16) (Z.shiftl (at_ b 3) 24))) = rd_le32 b 0.
Proof. reflexivity. Qed.
Lemma be32_expr b :
  Z.lor (Z.shiftl (at_ b 0) 24) (Z.lor (Z.shiftl (at_ b 1) 16)
    (Z.lor (Z.shiftl (at_ b 2) 8) (at_ b 3))) = rd_be32 b 0.
Proof. reflexivity. Qed.

Lemma to_int32_word x : 0 <= x < 2 ^ 32 -> to_int32 x = sext 32 x.
Proof. intros Hx. unfold to_int32, u32. rewrite Z.mod_small by lia. reflexivity. Qed.

Local Ltac to_nat_lits :=
  change (Z.to_nat 0) with 0%nat; change (Z.to_nat 1) with 1%nat;
  change (Z.to_nat 2) with 2%nat; change (Z.to_nat 3) with 3%nat.

Lemma convertSample_word be k b :
  1 <= k <= 4 -> length b = Z.to_nat k -> Forall (fun x => 0 <= x < 256) b ->
  convertSample be k b = Some (sext (8 * k) (sample_word be b) * 2 ^ (32 - 8 * k)).
Proof.
  intros Hk Hl Hb.
  assert (k = 1 \/ k = 2 \/ k = 3 \/ k = 4) as [ -> | [ -> | [ -> | -> ] ] ] by lia.
  - destruct b as [|x0 [|? ?]]; cbn in Hl; try discriminate.
    decompose_Forall_hyps.
    change (8 * 1) with 8. change (32 - 8 * 1) with 24. change (2 ^ (8 - 1)) with 128 in *.
    replace (sample_word be [x0]) with x0 by (unfold sample_word; destruct be; cbn [rev app le_val]; lia).
    unfold convertSample, at_; cbn -[sext to_int32 Z.shiftl Z.pow]. f_equal.
    pose proof (sext_range 8 x0 ltac:(lia) ltac:(lia)) as R. change (2 ^ (8 - 1)) with 128 in R.
    rewrite Z.shiftl_mul_pow2 by lia. apply to_int32_id. lia.
  - destruct b as [|x0 [|x1 [|? ?]]]; cbn in Hl; try discriminate.
    decompose_Forall_hyps.
    change (8 * 2) with 16. change (32 - 8 * 2) with 16.
    assert (Hw : convertSample be 2 [x0; x1]
                 = Some (to_int32 (Z.shiftl (sext 16 (sample_word be [x0; x1])) 16))).
    { unfold convertSample, at_, sample_word.
      destruct be; cbn [Z.eqb Pos.eqb]; to_nat_lits; cbn [rev app le_val nth].
      - rewrite Z.lor_comm, (Z.shiftl_mul_pow2 x0), lor_add_shifted by (try change (2 ^ 8) with 256; lia).
        do 4 f_equal. lia.
      - rewrite (Z.shiftl_mul_pow2 x1), lor_add_shifted by (try change (2 ^ 8) with 256; lia).
        do 4 f_equal. lia. }
    rewrite Hw, Z.shiftl_mul_pow2 by lia. f_equal.
    assert (Hu : 0 <= sample_word be [x0; x1] < 2 ^ 16)
      by (unfold sample_word; destruct be; cbn [rev app le_val]; cbn -[le_val] in *; lia).
    pose proof (sext_range 16 _ ltac:(lia) Hu) as R. change (2 ^ (16 - 1)) with 32768 in R.
    apply to_int32_id. change (2 ^ 31) with 2147483648. change (2 ^ 16) with 65536 in *. lia.
  - destruct b as [|x0 [|x1 [|x2 [|? ?]]]]; cbn in Hl; try discriminate.
    decompose_Forall_hyps.
    change (8 * 3) with 24. change (32 - 8 * 3) with 8.
    assert (Hw : convertSample be 3 [x0; x1; x2]
                 = Some (to_int32 (sample_word be [x0; x1; x2] * 2 ^ 8))).
    { unfold convertSample, at_, sample_word.
      destruct be; cbn [Z.eqb Pos.eqb]; to_nat_lits; cbn [rev app le_val nth];
        rewrite lor3 by lia; do 3 f_equal; lia. }
    assert (Hu : 0 <= sample_word be [x0; x1; x2] < 2 ^ 24)
      by (unfold sample_word; destruct be; cbn [rev app le_val]; cbn -[le_val] in *; lia).
    rewrite Hw, to_int32_word by (change (2 ^ 32) with (2 ^ 24 * 2 ^ 8); nia).
    f_equal. replace (sext 32) with (sext (24 + 8)) by reflexivity.
    apply sext_shift; lia.
  - destruct b as [|x0 [|x1 [|x2 [|x3 [|? ?]]]]]; cbn in Hl; try discriminate.
    change (8 * 4) with 32. change (32 - 8 * 4) with 0. rewrite Z.pow_0_r, Z.mul_1_r.
    unfold convertSample. cbv zeta. cbn [Z.eqb Pos.eqb].
    rewrite be32_expr, le32_expr, rd_be32_value, rd_le32_value by exact Hb.
    decompose_Forall_hyps.
    unfold at_, sample_word. change (0 + 1) with 1; change (0 + 2) with 2; change (0 + 3) with 3; to_nat_lits; cbn [rev app le_val nth].
    destruct be; rewrite to_int32_word by (change (2 ^ 32) with 4294967296; change (2 ^ 24) with 16777216; change (2 ^ 16) with 65536; change (2 ^ 8) with 256; lia); do 2 f_equal; lia.
Qed.

Lemma omap_all_some {A B} (f : A -> option B) (g : A -> B) (l : list A) :
  (forall x, In x l -> f x = Some (g x)) -> omap f l = map g l.
Proof.
  induction l as [|x l IH]; intros H; [reflexivity|].
  cbn. rewrite (H x (or_introl eq_refl)). f_equal. apply IH. intros y Hy. apply H. now right.
Qed.

(** [PcmDecoder::convertSamples]: for a bit depth of 8, 16, 24 or 32
    (bitDepth / 8 bytes per sample), sample [i] of the output is the
    sign-extended value of bytes [i*k .. i*k+k-1] read in the stream's
    byte order, shifted left so that it is MSB-aligned in the 32-bit
    word; there are [srcBytes / k] samples, trailing bytes are ignored. *)
Theorem convertSamples_msb_aligned be bitDepth src srcBytes :
  1 <= bitDepth / 8 <= 4 -> Forall (fun x => 0 <= x < 256) src -> 0 <= srcBytes <= len src ->
  convertSamples be bitDepth src srcBytes =
    map (fun i => sext (8 * (bitDepth / 8))
                    (sample_word be (sub (i * Z.to_nat (bitDepth / 8)) (Z.to_nat (bitDepth / 8)) src))
                  * 2 ^ (32 - 8 * (bitDepth / 8)))
        (seq 0 (Z.to_nat (srcBytes / (bitDepth / 8)))).
Proof.
  intros Hk Hb Hn. unfold convertSamples. cbv zeta.
  set (k := bitDepth / 8) in *.
  assert (Hu : u32 k = k) by (unfold u32; apply Z.mod_small; lia).
  rewrite Hu. apply omap_all_some. intros i Hi.
  apply in_seq in Hi. destruct Hi as [_ Hi]. cbn in Hi.
  apply convertSample_word; [lia| |].
  - unfold sub. rewrite length_firstn, length_skipn.
    unfold len in Hn.
    assert (Hd : srcBytes / k * k <= srcBytes)
      by (rewrite Z.mul_comm; apply Z.mul_div_le; lia).
    assert (Hi' : (Z.of_nat i + 1) * k <= srcBytes / k * k)
      by (apply Z.mul_le_mono_nonneg_r; lia).
    lia.
  - unfold sub. apply Forall_take, Forall_drop, Hb.
Qed.

(** 16-bit little-endian samples: 0x8000 and 0x7FFF become the most
    negative and almost the most positive 32-bit values; the odd fifth
    byte is left over. *)
Lemma convertSamples_msb_aligned_witness :
  (1 <= 16 / 8 <= 4 /\ Forall (fun x => 0 <= x < 256) [0; 128; 255; 127; 5]
   /\ 0 <= 5 <= len [0; 128; 255; 127; 5])
  /\ convertSamples false 16 [0; 128; 255; 127; 5] 5 = [-2147483648; 2147418112].
Proof.
  assert (H1 : 1 <= 16 / 8 <= 4) by (vm_compute; split; discriminate).
  assert (H2 : Forall (fun x => 0 <= x < 256) [0; 128; 255; 127; 5])
    by (repeat constructor; lia).
  assert (H3 : 0 <= 5 <= len [0; 128; 255; 127; 5]) by (vm_compute; split; discriminate).
  split; [exact (conj H1 (conj H2 H3))|].
  rewrite (convertSamples_msb_aligned false 16 [0; 128; 255; 127; 5] 5 H1 H2 H3).
  vm_compute. reflexivity.
Defined.

End PcmConvFacts.

Module PcmReadFacts.
Import Pcm.

Lemma prepare_data ext s : m_state s = DATA -> prepare ext s = Some (true, s).
Proof.
  intros H. unfold prepare. rewrite bool_decide_eq_false_2 by (rewrite H; discriminate).
  cbn. rewrite H. rewrite bool_decide_eq_true_2 by exact H. reflexivity.
Qed.

Lemma avail_bytes_le s : 0 <= avail_bytes s <= len (m_dataBuf s).
Proof.
  unfold avail_bytes, len. destruct (0 <? m_dataRemaining s) eqn:E; [apply Z.ltb_lt in E|]; lia.
Qed.

(** [PcmDecoder::readDecoded] on a decoder in the [DATA] state: it
    returns at most [maxFrames] frames, consumes exactly
    [n * bytesPerFrame] bytes from the front of the data buffer (never
    more than are available within the data chunk) and adds [n] to the
    [uint64_t] decoded-frame counter, modulo 2^64. *)
Local Ltac zero_frames :=
  rewrite Z.mul_0_l; change (Z.to_nat 0) with 0%nat; rewrite drop_0;
  split; [lia|]; split; [lia|]; split; [reflexivity|];
  unfold u64; rewrite Z.add_0_r, Z.mod_small by lia; reflexivity.

Theorem readDecoded_data_accounting ext s m n out s' :
  m_state s = DATA -> 0 <= m -> 0 <= m_decodedSamples s < 2 ^ 64 ->
  readDecoded ext s m = Some (n, out, s') ->
  0 <= n <= m /\ n * bytes_per_frame s <= avail_bytes s /\
  m_dataBuf s' = drop (Z.to_nat (n * bytes_per_frame s)) (m_dataBuf s) /\
  m_decodedSamples s' = u64 (m_decodedSamples s + n).
Proof.
  intros Hs Hm H64. unfold readDecoded. rewrite (prepare_data ext s Hs).
  pose proof (avail_bytes_le s) as Ha.
  assert (Hb : 0 <= bytes_per_frame s) by (unfold bytes_per_frame, u32; apply Z.mod_pos_bound; lia).
  destruct (m_error s || m_finished s).
  { intros [= <- <- <-]. zero_frames. }
  destruct (bytes_per_frame s =? 0) eqn:Eb.
  { intros [= <- <- <-]. zero_frames. }
  apply Z.eqb_neq in Eb.
  assert (Hd : 0 <= avail_bytes s / bytes_per_frame s) by (apply Z.div_pos; lia).
  assert (Hdm : avail_bytes s / bytes_per_frame s * bytes_per_frame s <= avail_bytes s)
    by (rewrite Z.mul_comm; apply Z.mul_div_le; lia).
  destruct (Z.min (avail_bytes s / bytes_per_frame s) m =? 0) eqn:Ef.
  { intros [= <- <- <-]. destruct (m_eof s); cbn [m_dataBuf m_decodedSamples set_finished]; zero_frames. }
  intros [= <- <- <-]. apply Z.eqb_neq in Ef.
  assert (Hn : Z.min (avail_bytes s / bytes_per_frame s) m * bytes_per_frame s
               <= avail_bytes s).
  { transitivity (avail_bytes s / bytes_per_frame s * bytes_per_frame s); [|exact Hdm].
    apply Z.mul_le_mono_nonneg_r; lia. }
  split; [lia|]. split; [exact Hn|].
  destruct (0 <? m_dataRemaining _); cbn; split; reflexivity.
Qed.

(** A 16-bit stereo stream with nine bytes buffered but six left in the
    data chunk: one frame is converted, four bytes consumed. *)
Lemma readDecoded_data_accounting_witness :
  (m_state read_example = DATA /\ 0 <= 2 /\ 0 <= m_decodedSamples read_example < 2 ^ 64) /\
  match readDecoded ext0 read_example 2 with
  | Some (n, _, s') => n = 1 /\ m_dataBuf s' = [5; 6; 7; 8; 9] /\ m_decodedSamples s' = 1
  | None => False
  end.
Proof.
  assert (H64 : 0 <= m_decodedSamples read_example < 2 ^ 64)
    by (split; vm_compute; first [reflexivity | intros; discriminate]).
  split; [split; [reflexivity | split; [lia | exact H64]]|].
  destruct (readDecoded ext0 read_example 2) as [[[n out] s']|] eqn:E;
    [|vm_compute in E; discriminate].
  destruct (readDecoded_data_accounting ext0 read_example 2 n out s' eq_refl ltac:(lia) H64 E)
    as (_ & _ & Hd & Hc).
  assert (n = 1) as -> by (vm_compute in E; congruence).
  rewrite Hd, Hc. vm_compute. auto.
Defined.
End PcmReadFacts.

Module PcmHeaderFacts.
Import Pcm ByteFacts.

Lemma rd_le16_range16 (p : list Z) (off : Z) :
  Forall (fun b => 0 <= b < 256) p -> 0 <= rd_le16 p off < 65536.
Proof.
  intros Hp. rewrite rd_le16_value by exact Hp.
  pose proof (at_byte p off Hp). pose proof (at_byte p (off + 1) Hp).
  change (2 ^ 8) with 256. lia.
Qed.

Lemma next_chunk_ge pos cs : pos <= next_chunk pos cs.
Proof.
  unfold next_chunk, u32. pose proof (Z.mod_pos_bound (8 + cs) (2 ^ 32) ltac:(lia)).
  destruct (Z.odd cs); lia.
Qed.

Lemma wav_scan_return fuel p pos ff fd ds s ok s' :
  wav_scan fuel p pos ff fd ds s = Some (ScanReturn ok s') -> ok = false.
Proof.
  revert pos ff fd ds s. induction fuel as [|f IH]; intros pos ff fd ds s E; [discriminate|].
  cbn in E. repeat case_match; simplify_eq; eauto.
Qed.

Local Abbreviation wav_fmt_at p fpos fmt :=
  (12 <= fpos /\ magic_at p (Z.to_nat fpos) "fmt " = true /\
   fpos + 8 + rd_le32 p (fpos + 4) <= len p /\
   (rd_le16 p (fpos + 8) = 1 \/ rd_le16 p (fpos + 8) = 3 \/
    (rd_le16 p (fpos + 8) = 65534 /\ 40 <= rd_le32 p (fpos + 4) /\
     (rd_le16 p (fpos + 32) = 1 \/ rd_le16 p (fpos + 32) = 3))) /\
   sampleRate fmt = rd_le32 p (fpos + 12) /\ channels fmt = rd_le16 p (fpos + 10) /\
   (bitDepth fmt = rd_le16 p (fpos + 22) \/ bitDepth fmt = rd_le16 p (fpos + 26))).

(** What the [wav_scan] loop keeps: the buffers; once the fmt chunk was
    seen, a little-endian format of 16-bit fields read from a fmt chunk
    of [p]; once the data chunk was seen, [dataStart] just past its 8-byte
    header and [m_dataRemaining] its size field. *)
Lemma wav_scan_done fuel p pos ff fd ds s s' ff' fd' ds' :
  Forall (fun b => 0 <= b < 256) p -> 12 <= pos ->
  (ff = true -> m_bigEndian s = false /\ 0 <= bitDepth (m_format s) < 65536 /\
                0 <= channels (m_format s) < 65536 /\ exists fpos, wav_fmt_at p fpos (m_format s)) ->
  (fd = true -> 20 <= ds /\ magic_at p (Z.to_nat (ds - 8)) "data" = true /\
                m_dataRemaining s = rd_le32 p (ds - 4)) ->
  wav_scan fuel p pos ff fd ds s = Some (ScanDone s' ff' fd' ds') ->
  m_dataBuf s' = m_dataBuf s /\
  (ff' = true -> m_bigEndian s' = false /\ 0 <= bitDepth (m_format s') < 65536 /\
                 0 <= channels (m_format s') < 65536 /\ exists fpos, wav_fmt_at p fpos (m_format s')) /\
  (fd' = true -> 20 <= ds' /\ magic_at p (Z.to_nat (ds' - 8)) "data" = true /\
                 m_dataRemaining s' = rd_le32 p (ds' - 4)).
Proof.
  intros Hp. revert pos ff fd ds s.
  induction fuel as [|f IH]; intros pos ff fd ds s Hpos Hff Hfd E; [discriminate|].
  cbn in E.
  destruct (negb (pos + 8 <=? len p)).
  { injection E as <- <- <- <-. auto. }
  pose proof (next_chunk_ge pos (rd_le32 p (pos + 4))) as Hnc.
  destruct (magic_at p (Z.to_nat pos) "fmt ") eqn:Efmt.
  - destruct (len p <? pos + 8 + rd_le32 p (pos + 4)) eqn:Efit; [discriminate|].
    apply Z.ltb_ge in Efit.
    assert (Haf : forall af, (af =? 1) || (af =? 3) = true -> af = 1 \/ af = 3)
      by (intros af; rewrite orb_true_iff, !Z.eqb_eq; tauto).
    match type of E with context [set_bigEndian false (set_format ?fmt s)] =>
      remember (set_bigEndian false (set_format fmt s)) as s1 eqn:Es1 end.
    assert (Hb1 : m_dataBuf s1 = m_dataBuf s) by (subst s1; reflexivity).
    assert (Hd1 : m_dataRemaining s1 = m_dataRemaining s) by (subst s1; reflexivity).
    assert (Hs : m_bigEndian s1 = false /\ 0 <= bitDepth (m_format s1) < 65536 /\
                 0 <= channels (m_format s1) < 65536 /\ exists fpos, wav_fmt_at p fpos (m_format s1)).
    { subst s1. cbn [m_bigEndian m_format set_bigEndian set_format bitDepth channels sampleRate].
      split; [reflexivity|].
      destruct (rd_le16 p (pos + 8) =? 65534) eqn:Ex.
      - cbn [andb] in E. destruct (rd_le32 p (pos + 4) <? 40) eqn:E40; [discriminate|].
        apply Z.ltb_ge in E40. apply Z.eqb_eq in Ex.
        destruct ((rd_le16 p (pos + 8 + 24) =? 1) || (rd_le16 p (pos + 8 + 24) =? 3)) eqn:Eaf;
          cbn [negb] in E; [|discriminate].
        replace (pos + 8 + 24) with (pos + 32) in Eaf by lia.
        replace (pos + 8 + 18) with (pos + 26) by lia.
        split; [destruct (0 <? rd_le16 p (pos + 26)); apply rd_le16_range16; exact Hp|].
        split; [apply rd_le16_range16; exact Hp|].
        exists pos. split; [lia|]. split; [exact Efmt|]. split; [exact Efit|].
        split; [right; right; split; [exact Ex|]; split; [exact E40|]; apply Haf, Eaf|].
        split; [reflexivity|]. split; [reflexivity|].
        destruct (0 <? rd_le16 p (pos + 26)); [right|left]; reflexivity.
      - cbn [andb] in E.
        destruct ((rd_le16 p (pos + 8) =? 1) || (rd_le16 p (pos + 8) =? 3)) eqn:Eaf;
          cbn [negb] in E; [|discriminate].
        split; [apply rd_le16_range16; exact Hp|].
        split; [apply rd_le16_range16; exact Hp|].
        exists pos. split; [lia|]. split; [exact Efmt|]. split; [exact Efit|].
        split; [destruct (Haf _ Eaf); auto|].
        split; [reflexivity|]. split; [reflexivity|]. left; reflexivity. }
    destruct ((rd_le16 p (pos + 8) =? 65534) && (rd_le32 p (pos + 4) <? 40)); [discriminate|].
    match type of E with context [if negb ?c then _ else _] => destruct (negb c) end;
      [discriminate|].
    assert (Hfd1 : fd = true -> 20 <= ds /\ magic_at p (Z.to_nat (ds - 8)) "data" = true /\
                   m_dataRemaining s1 = rd_le32 p (ds - 4))
      by (rewrite Hd1; exact Hfd).
    destruct (true && fd).
    + injection E as <- <- <- <-. rewrite Hb1. auto.
    + apply IH in E as (H1 & H2 & H3); [rewrite H1, Hb1; auto | lia | exact (fun _ => Hs) | exact Hfd1].
  - destruct (magic_at p (Z.to_nat pos) "data") eqn:Edata.
    + set (s1 := set_dataRemaining (rd_le32 p (pos + 4)) s) in E.
      assert (Hd : 20 <= pos + 8 /\ magic_at p (Z.to_nat (pos + 8 - 8)) "data" = true /\
                   m_dataRemaining s1 = rd_le32 p (pos + 8 - 4)).
      { replace (pos + 8 - 8) with pos by lia. replace (pos + 8 - 4) with (pos + 4) by lia.
        split; [lia|]. split; [exact Edata|reflexivity]. }
      assert (Hff1 : ff = true -> m_bigEndian s1 = false /\ 0 <= bitDepth (m_format s1) < 65536 /\
                0 <= channels (m_format s1) < 65536 /\ exists fpos, wav_fmt_at p fpos (m_format s1))
        by exact Hff.
      destruct (ff && true).
      * injection E as <- <- <- <-. split; [reflexivity|]. split; [exact Hff1|].
        intros _. exact Hd.
      * apply IH in E as (H1 & H2 & H3); [rewrite H1; auto | lia | exact Hff1 | exact (fun _ => Hd)].
    + destruct (ff && fd).
      * injection E as <- <- <- <-. auto.
      * apply IH in E as (H1 & H2 & H3); [auto | lia | exact Hff | exact Hfd].
Qed.

(** [PcmDecoder::parseWavHeader] reports success only after it has seen
    both a fmt and a data chunk; it then leaves the decoder in the data
    state with the format ready, little-endian, a non-zero frame size
    [bytesPerFrame] and [m_shift = 32 - bitDepth].  The format comes
    from a fmt chunk of the header: one that lies within the buffer, has
    format code 1 or 3 (directly, or for [0xFFFE] through its SubFormat
    with a chunk of at least 40 bytes), whose sample rate and channel
    count it holds and whose bit depth is either [bitsPerSample] or
    [wValidBitsPerSample].  [m_dataRemaining] is the size field of a data
    chunk, [totalSamples] that size over the frame size, and the header
    bytes following the 8-byte header of that data chunk are appended to
    the data buffer. *)
Theorem parseWavHeader_accepts_valid s s' :
  Forall (fun b => 0 <= b < 256) (m_headerBuf s) ->
  parseWavHeader s = Some (true, s') ->
  m_state s' = DATA /\ m_formatReady s' = true /\ m_headerBuf s' = [] /\
  m_bigEndian s' = false /\ bytes_per_frame s' <> 0 /\
  m_shift s' = to_int32 (u32 (32 - bitDepth (m_format s'))) /\
  (exists fpos, 12 <= fpos /\ magic_at (m_headerBuf s) (Z.to_nat fpos) "fmt " = true /\
     fpos + 8 + rd_le32 (m_headerBuf s) (fpos + 4) <= len (m_headerBuf s) /\
     (rd_le16 (m_headerBuf s) (fpos + 8) = 1 \/ rd_le16 (m_headerBuf s) (fpos + 8) = 3 \/
      (rd_le16 (m_headerBuf s) (fpos + 8) = 65534 /\ 40 <= rd_le32 (m_headerBuf s) (fpos + 4) /\
       (rd_le16 (m_headerBuf s) (fpos + 32) = 1 \/ rd_le16 (m_headerBuf s) (fpos + 32) = 3))) /\
     sampleRate (m_format s') = rd_le32 (m_headerBuf s) (fpos + 12) /\
     channels (m_format s') = rd_le16 (m_headerBuf s) (fpos + 10) /\
     (bitDepth (m_format s') = rd_le16 (m_headerBuf s) (fpos + 22) \/
      bitDepth (m_format s') = rd_le16 (m_headerBuf s) (fpos + 26))) /\
  exists ds, 20 <= ds /\ magic_at (m_headerBuf s) (Z.to_nat (ds - 8)) "data" = true /\
    m_dataRemaining s' = rd_le32 (m_headerBuf s) (ds - 4) /\
    totalSamples (m_format s') = rd_le32 (m_headerBuf s) (ds - 4) / bytes_per_frame s' /\
    m_dataBuf s' = m_dataBuf s ++ drop (Z.to_nat ds) (m_headerBuf s).
Proof.
  intros Hp E. unfold parseWavHeader in E. cbv zeta in E.
  set (p := m_headerBuf s) in *.
  destruct (len p <? 44); [discriminate|].
  destruct (negb (magic_at p 0 "RIFF" && magic_at p 8 "WAVE")); [discriminate|].
  destruct (wav_scan (S (length p)) p 12 false false 0 s) as [[s1 ff fd ds|ok s1]|] eqn:Es;
    [| |discriminate].
  2:{ injection E as -> _. apply wav_scan_return in Es. discriminate. }
  destruct (negb (ff && fd)) eqn:Eff; [discriminate|].
  apply negb_false_iff, andb_true_iff in Eff as [-> ->].
  destruct (wav_scan_done (S (length p)) p 12 false false 0 s s1 true true ds Hp ltac:(lia)
              ltac:(discriminate) ltac:(discriminate) Es)
    as (Hdb & Hf & Hd).
  destruct (Hf eq_refl) as (Hbe & Hbd & Hch & Hfmt). destruct (Hd eq_refl) as (Hds & Hmag & Hdr).
  set (denom := u32 (bitDepth (m_format s1) / 8 * channels (m_format s1))) in E.
  destruct (denom =? 0) eqn:Ed; [discriminate|]. apply Z.eqb_neq in Ed.
  injection E as <-.
  assert (Hbpf : forall s2, m_format s2 = mkFormat (sampleRate (m_format s1))
            (bitDepth (m_format s1)) (channels (m_format s1))
            (m_dataRemaining s1 / denom) -> bytes_per_frame s2 = denom).
  { intros s2 Hs2. unfold bytes_per_frame. rewrite Hs2. cbn [bitDepth channels].
    unfold denom. f_equal. f_equal. unfold u32. apply Z.mod_small.
    split; [apply Z.div_pos|apply (Z.le_lt_trans _ (bitDepth (m_format s1))); [apply Z.div_le_upper_bound|]];
      lia. }
  rewrite Hbpf by reflexivity. cbn.
  split; [reflexivity|]. split; [reflexivity|]. split; [reflexivity|].
  split; [exact Hbe|]. split; [exact Ed|]. split; [reflexivity|]. split; [exact Hfmt|].
  exists ds. split; [exact Hds|]. split; [exact Hmag|]. split; [exact Hdr|].
  split; [rewrite Hdr; reflexivity|].
  rewrite <- Hdb. destruct (ds <? len p) eqn:El; [reflexivity|].
  apply Z.ltb_ge in El. unfold len in El.
  rewrite drop_ge by lia. rewrite app_nil_r. reflexivity.
Qed.

Lemma parseWavHeader_accepts_valid_witness :
  Forall (fun b => 0 <= b < 256) wav16_example /\
  match parseWavHeader (set_headerBuf wav16_example pcm0) with
  | Some (true, s') => m_state s' = DATA /\ totalSamples (m_format s') = 2 /\
                       m_dataBuf s' = [1; 2; 3; 4; 5; 6; 7; 8]
  | _ => False
  end.
Proof.
  assert (Hp : Forall (fun b => 0 <= b < 256) wav16_example)
    by (apply (bool_decide_unpack _); vm_compute; reflexivity).
  split; [exact Hp|].
  destruct (parseWavHeader (set_headerBuf wav16_example pcm0)) as [[[|] s']|] eqn:E;
    [|vm_compute in E; discriminate|vm_compute in E; discriminate].
  destruct (parseWavHeader_accepts_valid (set_headerBuf wav16_example pcm0) s' Hp E)
    as (Hst & _).
  split; [exact Hst|].
  pose proof E as G. vm_compute in G. injection G as <-.
  split; vm_compute; reflexivity.
Defined.

End PcmHeaderFacts.

Module SlimprotoSendFacts.
Import Slimproto ByteFacts.

Lemma be32_bytes x : Forall (fun b => 0 <= b < 256) (be32 x).
Proof.
  unfold be32. change 255 with (Z.ones 8).
  repeat constructor; rewrite Z.land_ones by lia; apply (Z.mod_pos_bound _ (2 ^ 8)); lia.
Qed.

Lemma rd_be32_be32 x : 0 <= x < 2 ^ 32 -> rd_be32 (be32 x) 0 = x.
Proof.
  intros Hx. rewrite rd_be32_value by apply be32_bytes.
  unfold be32, at_.
  change (Z.to_nat 0) with 0%nat. change (Z.to_nat (0 + 1)) with 1%nat.
  change (Z.to_nat (0 + 2)) with 2%nat. change (Z.to_nat (0 + 3)) with 3%nat. cbn [nth].
  change 255 with (Z.ones 8). rewrite !Z.land_ones, !Z.shiftr_div_pow2 by lia.
  replace (2 ^ 24) with (2 ^ 8 * 2 ^ 16) by reflexivity.
  replace (2 ^ 16) with (2 ^ 8 * 2 ^ 8) by reflexivity.
  rewrite <- !Z.div_div by lia.
  set (q1 := x / 2 ^ 8). set (q2 := q1 / 2 ^ 8). set (q3 := q2 / 2 ^ 8).
  pose proof (Z.div_mod x (2 ^ 8) ltac:(lia)).
  pose proof (Z.div_mod q1 (2 ^ 8) ltac:(lia)).
  pose proof (Z.div_mod q2 (2 ^ 8) ltac:(lia)).
  assert (Hq3 : 0 <= q3 < 2 ^ 8).
  { unfold q3, q2, q1. rewrite !Z.div_div by lia.
    split; [apply Z.div_pos; lia | apply Z.div_lt_upper_bound; [lia|]].
    change (2 ^ 8 * (2 ^ 8 * 2 ^ 8) * 2 ^ 8) with (2 ^ 32). lia. }
  rewrite (Z.mod_small q3) by exact Hq3.
  change (2 ^ 8) with 256 in *. lia.
Qed.

Lemma sendMessage_framed op p f :
  length (bytes_of_string op) = 4%nat -> Z.of_nat (length p) < 2 ^ 32 ->
  sendMessage op p = Sent f ->
  take 4 f = bytes_of_string op /\ rd_be32 f 4 = Z.of_nat (length f) - 8.
Proof.
  intros Hop Hp E. unfold sendMessage in E. injection E as <-.
  destruct (bytes_of_string op) as [|a [|b [|c [|d [|]]]]]; try discriminate.
  split; [reflexivity|].
  transitivity (rd_be32 (be32 (Z.of_nat (length p))) 0); [reflexivity|].
  rewrite rd_be32_be32 by lia. rewrite !length_app. cbn [length]. lia.
Qed.

(** What a reply to one server message may be. *)
Local Abbreviation replies_ok c r :=
  (Nat.le (length (snd r)) (S O) /\
   (fst r = c \/ exists ts, fst r = set_serverTimestamp ts c) /\
   (forall f, In (Sent f) (snd r) ->
      exists op, (op = "STAT"%string \/ op = "SETD"%string) /\
        take 4 f = bytes_of_string op /\ rd_be32 f 4 = Z.of_nat (length f) - 8) /\
   (forall cmd req, In (StreamCallback cmd req) (snd r) -> c_hasStreamCb c = true) /\
   (forall l r', In (VolumeCallback l r') (snd r) -> c_hasVolumeCb c = true)).

Local Ltac no_effects :=
  cbn [fst snd length]; split; [lia|]; split; [left; reflexivity|];
  repeat split; intros; match goal with H : In _ _ |- _ => destruct H end.

Lemma handleStrm_replies c d : replies_ok c (handleStrm c d).
Proof.
  unfold handleStrm. cbv zeta.
  destruct (length d <? sizeof_StrmCommand)%nat; [no_effects|].
  match goal with |- context [if ?b then (c, if c_hasStreamCb c then _ else _) else _] =>
    destruct b end.
  - destruct (c_hasStreamCb c) eqn:Ecb; [|no_effects].
    cbn [fst snd length]. split; [lia|]. split; [left; reflexivity|].
    split; [intros f [Hf|[]]; discriminate|].
    split; [intros; first [exact Ecb | reflexivity]|]. intros l r [Hf|[]]; discriminate.
  - destruct (command (strm_of_bytes d) =? STRM_STATUS); [|no_effects].
    cbn [fst snd length]. split; [lia|]. split; [right; eexists; reflexivity|].
    split; [|split; intros ? ? [Hf|[]]; discriminate].
    intros f [Hf|[]]. exists "STAT"%string. split; [left; reflexivity|].
    apply sendMessage_framed with (p := stat_bytes (stat_payload
      (set_serverTimestamp (getReplayGain (strm_of_bytes d)) c) STMt
      (getReplayGain (strm_of_bytes d)))); [reflexivity| |exact Hf].
    unfold stat_bytes, be16, be32, ec_bytes. cbn. lia.
Qed.

Lemma handleAudg_replies c d : replies_ok c (handleAudg c d).
Proof.
  unfold handleAudg.
  destruct (length d <? 18)%nat; [no_effects|].
  destruct (c_hasVolumeCb c) eqn:Ecb; [|no_effects].
  cbn [fst snd length]. split; [lia|]. split; [left; reflexivity|].
  split; [intros f [Hf|[]]; discriminate|].
  split; [intros ? ? [Hf|[]]; discriminate|]. intros; first [exact Ecb | reflexivity].
Qed.

Lemma handleSetd_replies c d :
  Z.of_nat (length (c_playerName c)) < 2 ^ 32 - 1 -> replies_ok c (handleSetd c d).
Proof.
  intros Hn. unfold handleSetd.
  destruct d as [|[| |] [|]]; try solve [no_effects].
  cbn [fst snd length]. split; [lia|]. split; [left; reflexivity|].
  split; [|split; intros ? ? [Hf|[]]; discriminate].
  intros f [Hf|[]]. exists "SETD"%string. split; [right; reflexivity|].
  apply sendMessage_framed with (p := 0 :: c_playerName c); [reflexivity| |exact Hf].
  cbn [length]. lia.
Qed.

(** [SlimprotoClient::processServerMessage] and its handlers: a server
    message gets at most one reaction; the only client field it changes
    is the server timestamp; every frame it writes back is a STAT or
    SETD frame whose 32-bit big-endian length field equals the number of
    payload bytes after the 8-byte header; and the stream and volume
    callbacks are invoked only when registered. *)
Theorem processServerMessage_replies c o d :
  Z.of_nat (length (c_playerName c)) < 2 ^ 32 - 1 ->
  let r := processServerMessage c o d in
  (length (snd r) <= 1)%nat /\
  (fst r = c \/ exists ts, fst r = set_serverTimestamp ts c) /\
  (forall f, In (Sent f) (snd r) ->
     exists op, (op = "STAT"%string \/ op = "SETD"%string) /\
       take 4 f = bytes_of_string op /\ rd_be32 f 4 = Z.of_nat (length f) - 8) /\
  (forall cmd req, In (StreamCallback cmd req) (snd r) -> c_hasStreamCb c = true) /\
  (forall l r', In (VolumeCallback l r') (snd r) -> c_hasVolumeCb c = true).
Proof.
  intros Hn. cbv zeta. unfold processServerMessage.
  destruct (bool_decide (o = bytes_of_string "strm")); [apply handleStrm_replies|].
  destruct (bool_decide (o = bytes_of_string "audg")); [apply handleAudg_replies|].
  destruct (bool_decide (o = bytes_of_string "setd")); [apply handleSetd_replies, Hn|].
  no_effects.
Qed.

(** A setd query (id 0, no data) is answered with one SETD frame that
    carries the player name; its length field says 13 bytes follow. *)
Lemma processServerMessage_replies_witness :
  Z.of_nat (length (c_playerName client0)) < 2 ^ 32 - 1 /\
  exists f, snd (processServerMessage client0 (bytes_of_string "setd") [0]) = [Sent f] /\
    rd_be32 f 4 = 13.
Proof.
  assert (Hn : Z.of_nat (length (c_playerName client0)) < 2 ^ 32 - 1)
    by (vm_compute; reflexivity).
  split; [exact Hn|].
  destruct (processServerMessage_replies client0 (bytes_of_string "setd") [0] Hn)
    as (_ & _ & Hs & _).
  cbv zeta in Hs.
  destruct (snd (processServerMessage client0 (bytes_of_string "setd") [0]))
    as [|[f| |] [|]] eqn:E; try (vm_compute in E; discriminate).
  exists f. split; [reflexivity|].
  destruct (Hs f (or_introl eq_refl)) as (op & _ & _ & Hl). rewrite Hl.
  vm_compute in E. injection E as <-. reflexivity.
Defined.

End SlimprotoSendFacts.

Module PcmAiffFacts.
Import Pcm.

Lemma aiff_scan_return ext fuel p pos fc fs ds s ok s' :
  aiff_scan ext fuel p pos fc fs ds s = Some (ScanReturn ok s') -> ok = false.
Proof.
  revert pos fc fs ds s. induction fuel as [|f IH]; intros pos fc fs ds s E; [discriminate|].
  cbn in E. repeat case_match; simplify_eq; eauto.
Qed.

Section Scan.
Variable ext : list Z -> Z.
Variable p : list Z.

(** The COMM chunk at [q] that the format was read from. *)
Local Abbreviation comm_at s q :=
  (12 <= q /\ magic_at p (Z.to_nat q) "COMM" = true /\ q + 8 + rd_be32 p (q + 4) <= len p /\
   m_bigEndian s = true /\
   m_format s = mkFormat (ext (sub (Z.to_nat (q + 16)) 10 p)) (rd_be16 p (q + 14))
                  (rd_be16 p (q + 8)) (rd_be32 p (q + 10))).

(** The SSND chunk at [q] that gave the data start and size. *)
Local Abbreviation ssnd_at s ds q :=
  (12 <= q /\ magic_at p (Z.to_nat q) "SSND" = true /\ q + 16 <= len p /\
   ds = q + 16 + rd_be32 p (q + 8) /\ m_dataRemaining s = u32 (rd_be32 p (q + 4) - 8)).

Lemma aiff_scan_done fuel pos fc fs ds s s' fc' fs' ds' :
  12 <= pos ->
  (fc = true -> exists q, comm_at s q) ->
  (fs = true -> exists q, ssnd_at s ds q) ->
  aiff_scan ext fuel p pos fc fs ds s = Some (ScanDone s' fc' fs' ds') ->
  m_dataBuf s' = m_dataBuf s /\
  (fc' = true -> exists q, comm_at s' q) /\
  (fs' = true -> exists q, ssnd_at s' ds' q).
Proof.
  revert pos fc fs ds s.
  induction fuel as [|f IH]; intros pos fc fs ds s Hpos Hfc Hfs E; [discriminate|].
  cbn in E.
  destruct (negb (pos + 8 <=? len p)) eqn:Eend.
  { injection E as <- <- <- <-. auto. }
  pose proof (PcmHeaderFacts.next_chunk_ge pos (rd_be32 p (pos + 4))) as Hnext.
  destruct (magic_at p (Z.to_nat pos) "COMM") eqn:Ecomm.
  - destruct (len p <? pos + 8 + rd_be32 p (pos + 4)) eqn:Ein; [discriminate|].
    apply Z.ltb_ge in Ein.
    match type of E with context [set_bigEndian true (set_format ?fmt s)] =>
      remember (set_bigEndian true (set_format fmt s)) as s1 eqn:Es1 end.
    assert (Hc : exists q, comm_at s1 q)
      by (exists pos; subst s1; repeat split; auto; lia).
    assert (Hs : fs = true -> exists q, ssnd_at s1 ds q)
      by (intros Hfs'; destruct (Hfs Hfs') as [q Hq]; exists q; subst s1; exact Hq).
    assert (Hb1 : m_dataBuf s1 = m_dataBuf s) by (subst s1; reflexivity).
    destruct (true && fs).
    + injection E as <- <- <- <-. rewrite Hb1. auto.
    + destruct (IH (next_chunk pos (rd_be32 p (pos + 4))) _ _ _ s1 ltac:(lia)
                  (fun _ => Hc) Hs E) as (H1 & H2 & H3).
      rewrite H1, Hb1. auto.
  - destruct (magic_at p (Z.to_nat pos) "SSND") eqn:Essnd.
    + destruct (len p <? pos + 16) eqn:Ein; [discriminate|].
      apply Z.ltb_ge in Ein.
      set (s1 := set_dataRemaining (u32 (rd_be32 p (pos + 4) - 8)) s) in E.
      assert (Hs : exists q, ssnd_at s1 (pos + 16 + rd_be32 p (pos + 8)) q)
        by (exists pos; repeat split; auto; lia).
      assert (Hc : fc = true -> exists q, comm_at s1 q)
        by (intros Hfc'; destruct (Hfc Hfc') as [q Hq]; exists q; exact Hq).
      destruct (fc && true).
      * injection E as <- <- <- <-. auto.
      * destruct (IH (next_chunk pos (rd_be32 p (pos + 4))) _ _ _ s1 ltac:(lia)
                    Hc (fun _ => Hs) E) as (H1 & H2 & H3).
        rewrite H1. auto.
    + destruct (fc && fs).
      * injection E as <- <- <- <-. auto.
      * destruct (IH (next_chunk pos (rd_be32 p (pos + 4))) _ _ _ s ltac:(lia)
                    Hfc Hfs E) as (H1 & H2 & H3).
        auto.
Qed.

End Scan.

(** [PcmDecoder::parseAiffHeader] reports success only after it has
    seen both a COMM and an SSND chunk; it then leaves the decoder in the
    data state with the format ready and big-endian.  The format is the
    one of a COMM chunk lying within the header (channels, sample size,
    frame count, and the sample rate converted from its 80-bit field),
    [m_shift = 32 - bitDepth], and the data size and start come from an
    SSND chunk: the chunk size minus 8, and the bytes from its data
    offset on are appended to the data buffer. *)
Theorem parseAiffHeader_accepts_valid ext s s' :
  parseAiffHeader ext s = Some (true, s') ->
  let p := m_headerBuf s in
  m_state s' = DATA /\ m_formatReady s' = true /\ m_headerBuf s' = [] /\
  m_bigEndian s' = true /\
  m_shift s' = to_int32 (u32 (32 - bitDepth (m_format s'))) /\
  (exists q, 12 <= q /\ magic_at p (Z.to_nat q) "COMM" = true /\
     q + 8 + rd_be32 p (q + 4) <= len p /\
     m_format s' = mkFormat (ext (sub (Z.to_nat (q + 16)) 10 p)) (rd_be16 p (q + 14))
                     (rd_be16 p (q + 8)) (rd_be32 p (q + 10))) /\
  (exists q, 12 <= q /\ magic_at p (Z.to_nat q) "SSND" = true /\ q + 16 <= len p /\
     m_dataRemaining s' = u32 (rd_be32 p (q + 4) - 8) /\
     m_dataBuf s' = m_dataBuf s ++ drop (Z.to_nat (q + 16 + rd_be32 p (q + 8))) p).
Proof.
  intros E. cbv zeta. unfold parseAiffHeader in E. cbv zeta in E.
  set (p := m_headerBuf s) in *.
  destruct (len p <? 46); [discriminate|].
  destruct (negb (magic_at p 0 "FORM" && (magic_at p 8 "AIFF" || magic_at p 8 "AIFC")));
    [discriminate|].
  destruct (aiff_scan ext (S (length p)) p 12 false false 0 s) as [[s1 fc fs ds|ok s1]|]
    eqn:Es; [| |discriminate].
  2:{ injection E as -> _. apply aiff_scan_return in Es. discriminate. }
  destruct (negb (fc && fs)) eqn:Eff; [discriminate|].
  apply negb_false_iff, andb_true_iff in Eff as [-> ->].
  destruct (aiff_scan_done ext p (S (length p)) 12 false false 0 s s1 true true ds
              ltac:(lia) ltac:(discriminate) ltac:(discriminate) Es)
    as (Hdb & Hc & Hs).
  destruct (Hc eq_refl) as (qc & Hqc & Hmc & Hinc & Hbe & Hfmt).
  destruct (Hs eq_refl) as (qs & Hqs & Hms & Hins & Hds & Hdr).
  injection E as <-. cbn.
  split; [reflexivity|]. split; [reflexivity|]. split; [reflexivity|].
  split; [exact Hbe|]. split; [reflexivity|].
  split; [exists qc; repeat split; assumption|].
  exists qs. split; [exact Hqs|]. split; [exact Hms|]. split; [exact Hins|].
  split; [exact Hdr|].
  rewrite <- Hdb, <- Hds. destruct (ds <? len p) eqn:El; [reflexivity|].
  apply Z.ltb_ge in El. unfold len in El.
  rewrite drop_ge by lia. rewrite app_nil_r. reflexivity.
Qed.

(** A 16-bit stereo AIFF file of two frames. *)
Lemma parseAiffHeader_accepts_valid_witness :
  match parseAiffHeader ext0 (set_headerBuf aiff_example pcm0) with
  | Some (true, s') => m_state s' = DATA /\ m_bigEndian s' = true /\
                       m_dataRemaining s' = 8 /\ m_dataBuf s' = [1; 2; 3; 4; 5; 6; 7; 8]
  | _ => False
  end.
Proof.
  destruct (parseAiffHeader ext0 (set_headerBuf aiff_example pcm0)) as [[[|] s']|] eqn:E;
    [|vm_compute in E; discriminate|vm_compute in E; discriminate].
  destruct (parseAiffHeader_accepts_valid ext0 (set_headerBuf aiff_example pcm0) s' E)
    as (Hst & _ & _ & Hbe & _ & _ & _).
  split; [exact Hst|]. split; [exact Hbe|].
  pose proof E as G. vm_compute in G. injection G as <-.
  split; vm_compute; reflexivity.
Defined.

End PcmAiffFacts.

Module DsfCopyFacts.
Import Dsd.

Lemma memcpy_prefix (dst src : list Z) (n : Z) :
  n <= len src ->
  take (Z.to_nat n) (memcpy dst src n) = take (Z.to_nat n) src /\
  drop (Z.to_nat n) (memcpy dst src n) = drop (Z.to_nat n) dst.
Proof.
  intros Hn. unfold memcpy, len in *.
  assert (Hl : length (firstn (Z.to_nat n) src) = Z.to_nat n)
    by (rewrite length_firstn; lia).
  split.
  - rewrite take_app_length' by (symmetry; exact Hl). reflexivity.
  - rewrite drop_app_length' by (symmetry; exact Hl). reflexivity.
Qed.

Lemma processDsfBlocks_copies s out m n o s' :
  0 <= channels (m_format s) ->
  processDsfBlocks s out m = (n, o, s') ->
  (n = 0 /\ o = out) \/ (n <= len (m_dataBuf s) /\ o = memcpy out (m_dataBuf s) n).
Proof.
  intros Hc E. unfold processDsfBlocks in E. cbv zeta in E.
  set (bg := u32 (blockSizePerChannel (m_format s) * channels (m_format s))) in E.
  set (avail := len (m_dataBuf s)) in E.
  assert (Ha : 0 <= avail) by (unfold avail, len; lia).
  destruct (bg =? 0) eqn:Ebg; [injection E as <- <- _; now left|].
  apply Z.eqb_neq in Ebg.
  assert (Hbg : 0 < bg).
  { assert (0 <= bg) by (unfold bg, u32; apply Z.mod_pos_bound; lia). lia. }
  destruct (Z.min (m / bg) (avail / bg) =? 0).
  - destruct (m_eof s && (0 <? avail) && (m_dataRemaining s =? 0));
      [|injection E as <- <- _; now left].
    set (ch := channels (m_format s)) in *.
    assert (Hu : avail / ch * ch <= avail).
    { destruct (Z.eq_dec ch 0) as [->|Hch]; [rewrite Z.mul_0_r; lia|].
      rewrite Z.mul_comm. apply Z.mul_div_le. lia. }
    set (u := if m <? avail / ch * ch then m / ch * ch else avail / ch * ch) in E.
    assert (Hu' : u <= avail).
    { unfold u. destruct (m <? avail / ch * ch) eqn:Em; [|exact Hu].
      apply Z.ltb_lt in Em.
      destruct (Z.eq_dec ch 0) as [->|Hch]; [rewrite Z.mul_0_r; lia|].
      pose proof (Z.mul_div_le m ch ltac:(lia)). lia. }
    destruct (u =? 0); [injection E as <- <- _; now left|].
    injection E as <- <- _. right. split; [exact Hu'|reflexivity].
  - injection E as <- <- _. right. split; [|reflexivity].
    assert (Hd : avail / bg * bg <= avail) by (rewrite Z.mul_comm; apply Z.mul_div_le; lia).
    assert (Hm : Z.min (m / bg) (avail / bg) * bg <= avail / bg * bg)
      by (apply Z.mul_le_mono_nonneg_r; lia).
    fold avail. lia.
Qed.

(** [DsdStreamReader::readPlanar] on a DSF stream
    ([processDsfBlocks]): DSF block groups are already planar, so the
    [n] bytes it returns are the first [n] bytes of the data buffer,
    copied unchanged to the front of [out], and the rest of [out] is
    left as it was. *)
Theorem readPlanar_dsf_copies_verbatim s out m n o s' :
  container (m_format s) = DSF -> 0 <= channels (m_format s) ->
  readPlanar s out m = (n, o, s') ->
  take (Z.to_nat n) o = take (Z.to_nat n) (m_dataBuf s) /\
  drop (Z.to_nat n) o = drop (Z.to_nat n) out.
Proof.
  intros Hdsf Hc E. unfold readPlanar in E.
  assert (Hz : take (Z.to_nat 0) out = take (Z.to_nat 0) (m_dataBuf s) /\
               drop (Z.to_nat 0) out = drop (Z.to_nat 0) out) by (split; reflexivity).
  destruct (bool_decide (m_state s = DONE) || bool_decide (m_state s = ERROR));
    [injection E as <- <- _; exact Hz|].
  destruct (negb (bool_decide (m_state s = DATA))); [injection E as <- <- _; exact Hz|].
  destruct (negb (m_formatReady s)); [injection E as <- <- _; exact Hz|].
  rewrite Hdsf in E.
  destruct (processDsfBlocks s out m) as [[r o1] s1] eqn:Ep.
  assert (Ho : o = o1 /\ n = r) by (case_match; injection E as <- <- _; split; reflexivity).
  destruct Ho as [-> ->].
  destruct (processDsfBlocks_copies s out m r o1 s1 Hc Ep) as [[-> ->]|[Hr ->]].
  - exact Hz.
  - apply memcpy_prefix, Hr.
Qed.

(** Two channels with 2-byte blocks: of six buffered bytes one 4-byte
    block group goes out, ahead of the untouched rest of the buffer. *)
Lemma readPlanar_dsf_copies_verbatim_witness :
  (container (m_format dsf_reading) = DSF /\ 0 <= channels (m_format dsf_reading)) /\
  let '(n, o, _) := readPlanar dsf_reading (repeat 9 8) 8 in
  n = 4 /\ o = [1; 2; 3; 4; 9; 9; 9; 9].
Proof.
  assert (H1 : container (m_format dsf_reading) = DSF) by reflexivity.
  assert (H2 : 0 <= channels (m_format dsf_reading)) by (cbn; lia).
  split; [split; assumption|].
  destruct (readPlanar dsf_reading (repeat 9 8) 8) as [[n o] s'] eqn:E.
  destruct (readPlanar_dsf_copies_verbatim dsf_reading (repeat 9 8) 8 n o s' H1 H2 E)
    as [Ht Hd].
  assert (n = 4) as -> by (vm_compute in E; congruence).
  split; [reflexivity|].
  rewrite <- (take_drop 4 o). change (Z.to_nat 4) with 4%nat in Ht, Hd.
  rewrite Ht, Hd. reflexivity.
Defined.

End DsfCopyFacts.

Module PcmDetectFacts.
Import Pcm.

Lemma error_step_preserved ext s o :
  m_error s = true -> m_state s = ERROR -> o <> Flush ->
  exists s1, match o with
             | Feed d => s1 = feed s d
             | SetEof => s1 = setEof s
             | SetRawPcmFormat sr bd ch be => s1 = setRawPcmFormat s sr bd ch be
             | Flush => False
             | ReadDecoded m => readDecoded ext s m = Some (0, [], s1)
             end /\ m_error s1 = true /\ m_state s1 = ERROR.
Proof.
  intros He Hs Ho. destruct o as [d| |m|sr bd ch be|]; [| | | |congruence].
  - exists (feed s d). unfold feed. rewrite Hs. auto.
  - exists (setEof s). auto.
  - exists s. unfold readDecoded. rewrite He. auto.
  - exists (setRawPcmFormat s sr bd ch be). auto.
Qed.

Lemma error_run_zero ext s ops :
  m_error s = true -> m_state s = ERROR -> ~ In Flush ops ->
  exists outs s', run ext s ops = Some (outs, s') /\
    Forall (fun r => r = (0, [])) outs /\ m_error s' = true /\ m_state s' = ERROR.
Proof.
  revert s. induction ops as [|o os IH]; intros s He Hs Hf.
  - exists [], s. auto.
  - assert (Ho : o <> Flush) by (intros ->; apply Hf; left; reflexivity).
    assert (Hos : ~ In Flush os) by (intros H; apply Hf; right; exact H).
    destruct (error_step_preserved ext s o He Hs Ho) as (s1 & Hstep & He1 & Hs1).
    destruct (IH s1 He1 Hs1 Hos) as (outs & s' & Er & Hz & He' & Hs').
    destruct o as [d| |m|sr bd ch be|]; cbn [run]; try subst s1.
    + exists outs, s'. auto.
    + exists outs, s'. auto.
    + rewrite Hstep, Er. exists ((0, []) :: outs), s'. auto.
    + exists outs, s'. auto.
    + contradiction.
Qed.

(** [PcmDecoder::detectContainer] with neither a RIFF nor a FORM magic
    and no raw format announced by [setRawPcmFormat]: the first
    [readDecoded] that sees four header bytes puts the decoder in the
    [ERROR] state and returns 0; from then on, until [flush], every
    [readDecoded] returns 0 frames and writes nothing, whatever is fed,
    and a [setRawPcmFormat] arriving late does not revive it. *)
Theorem unknown_container_fails_until_flush ext s m ops :
  m_state s = DETECT -> m_rawPcmConfigured s = false ->
  m_error s = false -> m_finished s = false ->
  4 <= len (m_headerBuf s) ->
  magic_at (m_headerBuf s) 0 "RIFF" = false -> magic_at (m_headerBuf s) 0 "FORM" = false ->
  ~ In Flush ops ->
  exists outs s', run ext s (ReadDecoded m :: ops) = Some ((0, []) :: outs, s') /\
    Forall (fun r => r = (0, [])) outs /\ m_state s' = ERROR /\ m_error s' = true.
Proof.
  intros Hs Hr He Hfin Hl H1 H2 Hf.
  assert (Hd : readDecoded ext s m = Some (0, [], fail_state s)).
  { unfold readDecoded, prepare, detectContainer. rewrite He, Hfin. cbn [orb].
    rewrite bool_decide_eq_true_2 by exact Hs.
    rewrite (proj2 (Z.ltb_ge _ _) Hl), H1, H2, Hr. reflexivity. }
  destruct (error_run_zero ext (fail_state s) ops eq_refl eq_refl Hf)
    as (outs & s' & Er & Hz & He' & Hs').
  exists outs, s'. cbn [run]. rewrite Hd, Er. auto.
Qed.

Lemma unknown_container_fails_until_flush_witness :
  exists outs s',
    run ext0 (feed pcm0 [1; 2; 3; 4])
      [ReadDecoded 1024; Feed [5; 6; 7; 8]; SetEof; ReadDecoded 16;
       SetRawPcmFormat 44100 16 2 false; Feed [9; 10]; ReadDecoded 16]
      = Some ((0, []) :: outs, s') /\
    Forall (fun r => r = (0, [])) outs /\ m_state s' = ERROR /\ m_error s' = true.
Proof.
  apply (unknown_container_fails_until_flush ext0 (feed pcm0 [1; 2; 3; 4]) 1024
           [Feed [5; 6; 7; 8]; SetEof; ReadDecoded 16;
            SetRawPcmFormat 44100 16 2 false; Feed [9; 10]; ReadDecoded 16]);
    try reflexivity; try (vm_compute; discriminate).
  cbn. intros [H|[H|[H|[H|[H|[H|[]]]]]]]; discriminate.
Defined.

Lemma prepare_raw ext sr bd ch be d :
  4 <= len d -> magic_at d 0 "RIFF" = false -> magic_at d 0 "FORM" = false ->
  prepare ext (feed (setRawPcmFormat pcm0 sr bd ch be) d) = Some (true, raw_state sr bd ch be d).
Proof.
  intros Hl H1 H2. unfold prepare.
  rewrite bool_decide_eq_true_2 by reflexivity.
  unfold detectContainer. change (m_headerBuf (feed (setRawPcmFormat pcm0 sr bd ch be) d)) with d.
  rewrite (proj2 (Z.ltb_ge _ _) Hl), H1, H2.
  change (m_rawPcmConfigured (feed (setRawPcmFormat pcm0 sr bd ch be) d)) with true.
  cbv iota beta. change (negb true) with false. cbv iota beta.
  change (m_state (set_state DATA _)) with DATA. cbv iota beta.
  rewrite bool_decide_eq_true_2 by reflexivity. reflexivity.
Qed.

(** A raw PCM stream (no container; [setRawPcmFormat] called on a fresh
    decoder, as [main] does from the strm parameters): when the first
    bytes fed are not a RIFF or FORM magic, the first [readDecoded]
    moves all of them into the data buffer with no data-chunk limit, and
    converts [min (len d / bytesPerFrame) maxFrames] frames from the
    start of the stream, with the announced format and byte order; the
    decoder is not finished afterwards. *)
Theorem raw_pcm_first_read ext sr bd ch be d m n out s' :
  4 <= len d -> magic_at d 0 "RIFF" = false -> magic_at d 0 "FORM" = false -> 0 <= m ->
  u32 (u32 (bd / 8) * ch) <> 0 ->
  readDecoded ext (feed (setRawPcmFormat pcm0 sr bd ch be) d) m = Some (n, out, s') ->
  let k := u32 (u32 (bd / 8) * ch) in
  n = Z.min (len d / k) m /\ out = convertSamples be bd d (n * k) /\
  m_state s' = DATA /\ m_format s' = mkFormat sr bd ch 0 /\ m_bigEndian s' = be /\
  m_dataRemaining s' = 0 /\ m_finished s' = false /\
  m_dataBuf s' = drop (Z.to_nat (n * k)) d.
Proof.
  intros Hl H1 H2 Hm Hk. cbv zeta. unfold readDecoded.
  change (m_error (feed (setRawPcmFormat pcm0 sr bd ch be) d)
          || m_finished (feed (setRawPcmFormat pcm0 sr bd ch be) d)) with false.
  cbv iota. rewrite (prepare_raw ext sr bd ch be d Hl H1 H2).
  unfold bytes_per_frame, avail_bytes.
  change (bitDepth (m_format (raw_state sr bd ch be d))) with bd.
  change (channels (m_format (raw_state sr bd ch be d))) with ch.
  change (m_dataRemaining (raw_state sr bd ch be d)) with 0.
  change (m_dataBuf (raw_state sr bd ch be d)) with d.
  change (m_eof (raw_state sr bd ch be d)) with false.
  change (m_bigEndian (raw_state sr bd ch be d)) with be.
  change (0 <? 0) with false. cbv iota beta.
  set (k := u32 (u32 (bd / 8) * ch)) in *.
  rewrite (proj2 (Z.eqb_neq _ _) Hk).
  destruct (Z.min (len d / k) m =? 0) eqn:E0.
  - apply Z.eqb_eq in E0. intros [= <- <- <-]. rewrite E0, Z.mul_0_l.
    split; [reflexivity|]. split.
    + unfold convertSamples. cbv zeta. rewrite Zdiv_0_l. reflexivity.
    + repeat split; reflexivity.
  - intros [= <- <- <-].
    split; [reflexivity|]. split; [reflexivity|].
    repeat split; reflexivity.
Qed.

Lemma raw_pcm_first_read_witness :
  match readDecoded ext0 (feed (setRawPcmFormat pcm0 44100 16 2 false) [1; 2; 3; 4; 5; 6; 7; 8; 9; 10]) 2 with
  | Some (n, out, s') => n = 2 /\ out = convertSamples false 16 [1; 2; 3; 4; 5; 6; 7; 8; 9; 10] 8 /\
                         m_dataBuf s' = [9; 10] /\ m_finished s' = false
  | None => False
  end.
Proof.
  destruct (readDecoded ext0 (feed (setRawPcmFormat pcm0 44100 16 2 false) [1; 2; 3; 4; 5; 6; 7; 8; 9; 10]) 2)
    as [[[n out] s']|] eqn:E; [|vm_compute in E; discriminate].
  destruct (raw_pcm_first_read ext0 44100 16 2 false [1; 2; 3; 4; 5; 6; 7; 8; 9; 10] 2 n out s'
              ltac:(vm_compute; discriminate) eq_refl eq_refl ltac:(lia)
              ltac:(vm_compute; discriminate) E)
    as (Hn & Ho & _ & _ & _ & _ & Hf & Hd).
  assert (Hn2 : n = 2) by (rewrite Hn; vm_compute; reflexivity).
  rewrite Hn2 in Ho, Hd. rewrite Ho, Hd, Hf. split; [exact Hn2|]. vm_compute. auto.
Defined.

End PcmDetectFacts.
